(** * telegram-dify-bot: the /imagine handler and the image delivery pipeline

    A shallow embedding of
      - [app/mybot/handlers/command_handler/imagine_command.py]
      - [app/mybot/services/response_service/answer_parts/image_generation.py]

    The Python code is asynchronous, talks to Telegram, to the network and
    to the file system, and raises exceptions.  It is embedded in a small
    monad [M]: a computation takes the state of the outside world, returns
    a value or raises, leaves a new world and emits the list of external
    calls it made, in order, each with the error it raised, if any.
    The outside world is a [Platform]: one handler per external operation
    over an abstract state [E]; theorems hold for every platform.
    Logging ([logger.*]) has no effect on control flow and is left out. *)

From stdpp Require Import gmap strings list pretty.
From Stdlib Require Import ZArith Ascii.

Set Warnings "-register-all".
Open Scope string_scope.
Open Scope list_scope.
Open Scope nat_scope.

(* ================================================================== *)
(** ** Python strings, truthiness *)

Module Py.

(** [bool(s)] for a [str]. *)
Definition truthy_str (s : string) : bool :=
  match s with EmptyString => false | String _ _ => true end.

(** [bool(x)] for an [Optional[str]]. *)
Definition truthy_ostr (o : option string) : bool :=
  match o with Some s => truthy_str s | None => false end.

(** [bool(x)] for an [Optional[int]]: [None] and [0] are falsy. *)
Definition truthy_oint (o : option Z) : bool :=
  match o with Some z => negb (z =? 0)%Z | None => false end.

(** [bool(l)] for a list. *)
Definition truthy_list {A} (l : list A) : bool :=
  match l with [] => false | _ :: _ => true end.

(** [a or b] on [Optional[int]]. *)
Definition or_oint (a b : option Z) : option Z :=
  if truthy_oint a then a else b.

(** [sep.join(l)]. *)
Fixpoint join (sep : string) (l : list string) : string :=
  match l with
  | [] => ""
  | [x] => x
  | x :: rest => x +:+ sep +:+ join sep rest
  end.

(** [s[n:]]. *)
Fixpoint drop (n : nat) (s : string) : string :=
  match n, s with
  | O, _ => s
  | S n', String _ s' => drop n' s'
  | S _, EmptyString => ""
  end.

(** [s[:n]]. *)
Definition take (n : nat) (s : string) : string := String.substring 0 n s.

(** [needle in hay]. *)
Fixpoint contains (needle hay : string) : bool :=
  String.prefix needle hay ||
  match hay with
  | EmptyString => false
  | String _ hay' => contains needle hay'
  end.

(** [s.endswith(suffix)]. *)
Definition endswith (s suffix : string) : bool :=
  (String.length suffix <=? String.length s)%nat &&
  String.eqb (drop (String.length s - String.length suffix) s) suffix.

Definition lower_ascii (c : ascii) : ascii :=
  let n := nat_of_ascii c in
  if ((65 <=? n) && (n <=? 90))%nat then ascii_of_nat (n + 32) else c.

(** [s.lower()], on the ASCII letters (strings are UTF-8 byte strings
    here; no byte of a non-ASCII character is changed). *)
Fixpoint lower (s : string) : string :=
  match s with
  | EmptyString => EmptyString
  | String c s' => String (lower_ascii c) (lower s')
  end.

(** [s.rstrip(c)] for a one-character set. *)
Fixpoint rstrip (c : ascii) (s : string) : string :=
  match s with
  | EmptyString => EmptyString
  | String a s' =>
      match rstrip c s' with
      | EmptyString => if Ascii.eqb a c then EmptyString else String a EmptyString
      | r => String a r
      end
  end.

(** [s.find(c)] as an option, and [s.rfind(c)]. *)
Definition find (c : string) (s : string) : option nat := String.index 0 c s.

Fixpoint rfind_from (c : ascii) (s : string) (i : nat) (last : option nat) : option nat :=
  match s with
  | EmptyString => last
  | String a s' => rfind_from c s' (S i) (if Ascii.eqb a c then Some i else last)
  end.
Definition rfind (c : ascii) (s : string) : option nat := rfind_from c s 0 None.

(** [s.split(c)] for a one-character separator. *)
Fixpoint split (c : ascii) (s : string) : list string :=
  match s with
  | EmptyString => [""]
  | String a s' =>
      if Ascii.eqb a c then "" :: split c s'
      else match split c s' with
           | [] => [String a ""]
           | w :: ws => String a w :: ws
           end
  end.

End Py.

(* ================================================================== *)
(** ** [urllib.parse.urlparse(url).path] and [pathlib.Path(p).name]

    Both are library functions; they are written out here after CPython's
    [urlsplit]/[urlparse] (leading control characters and blanks are
    stripped, tabs and line ends removed, then scheme, network location,
    fragment, query and parameters are cut off, in that order) and after
    [PurePosixPath] (empty and ["."] components are dropped, the name is
    the last one).  [urlsplit] raises [ValueError] on a network location
    with one bracket but not the other; its two further checks of the
    network location, [_check_bracketed_netloc] (the host between the
    brackets) and [_checknetloc] (NFKC normalisation of a non-ASCII
    network location), are library code that is not written out: they are
    a parameter here, asked exactly when the library runs them.  Strings
    are UTF-8 byte strings. *)

Module Url.

Definition is_alpha (c : ascii) : bool :=
  let n := nat_of_ascii c in
  (((65 <=? n) && (n <=? 90)) || ((97 <=? n) && (n <=? 122)))%nat.

Definition is_scheme_char (c : ascii) : bool :=
  let n := nat_of_ascii c in
  is_alpha c || ((48 <=? n) && (n <=? 57))%nat ||
  (n =? 43)%nat || (n =? 45)%nat || (n =? 46)%nat.

Fixpoint all_chars (p : ascii -> bool) (s : string) : bool :=
  match s with
  | EmptyString => true
  | String c s' => p c && all_chars p s'
  end.

(** [url.lstrip(_WHATWG_C0_CONTROL_OR_SPACE)]: the leading characters up to
    and including the space are dropped. *)
Fixpoint lstrip_c0 (s : string) : string :=
  match s with
  | EmptyString => EmptyString
  | String c s' => if (nat_of_ascii c <=? 32)%nat then lstrip_c0 s' else s
  end.

(** [url.replace(b, "")] for [b] in [_UNSAFE_URL_BYTES_TO_REMOVE]: tabs,
    carriage returns and line feeds go, wherever they are. *)
Fixpoint remove_unsafe (s : string) : string :=
  match s with
  | EmptyString => EmptyString
  | String c s' =>
      let n := nat_of_ascii c in
      if ((n =? 9) || (n =? 13) || (n =? 10))%nat
      then remove_unsafe s' else String c (remove_unsafe s')
  end.

(** The scheme, lower-cased, and what follows its colon. *)
Definition split_scheme (url : string) : string * string :=
  match Py.find ":" url, url with
  | Some (S i), String c0 _ =>
      let s := Py.take (S i) url in
      if is_alpha c0 && all_chars is_scheme_char s
      then (Py.lower s, Py.drop (S (S i)) url)
      else ("", url)
  | _, _ => ("", url)
  end.

(** [_splitnetloc]: skip up to the first of [/], [?], [#]. *)
Fixpoint skip_netloc (s : string) : string :=
  match s with
  | EmptyString => EmptyString
  | String c s' =>
      if Ascii.eqb c "/" || Ascii.eqb c "?" || Ascii.eqb c "#"
      then s else skip_netloc s'
  end.

Definition strip_netloc (url : string) : string :=
  if String.prefix "//" url then skip_netloc (Py.drop 2 url) else url.

(** The network location itself: what [_splitnetloc] skips. *)
Fixpoint take_netloc (s : string) : string :=
  match s with
  | EmptyString => EmptyString
  | String c s' =>
      if Ascii.eqb c "/" || Ascii.eqb c "?" || Ascii.eqb c "#"
      then EmptyString else String c (take_netloc s')
  end.

Definition netloc_of (url : string) : string :=
  if String.prefix "//" url then take_netloc (Py.drop 2 url) else "".

(** [s.isascii()]. *)
Definition is_ascii (s : string) : bool :=
  all_chars (fun c => (nat_of_ascii c <? 128)%nat) s.

(** The [ValueError]s of [urlsplit], as the message raised.  One bracket
    without the other is refused outright.  [library_check] stands for
    [_check_bracketed_netloc], which the library runs when both brackets
    are there, and for [_checknetloc], which looks at nothing but a
    non-ASCII network location. *)
Definition check_netloc (library_check : string -> option string) (netloc : string)
  : option string :=
  let opening := Py.contains "[" netloc in
  let closing := Py.contains "]" netloc in
  if xorb opening closing then Some "Invalid IPv6 URL"
  else if (opening && closing) || negb (is_ascii netloc) then library_check netloc
  else None.

(** [s.split(c, 1)[0]]. *)
Definition before (c : string) (s : string) : string :=
  match Py.find c s with
  | Some i => Py.take i s
  | None => s
  end.

Definition uses_params : list string :=
  [""; "ftp"; "hdl"; "prospero"; "http"; "imap"; "https"; "shttp";
   "rtsp"; "rtspu"; "sip"; "sips"; "mms"; "sftp"; "tel"].

(** [_splitparams(url)[0]]. *)
Definition strip_params (p : string) : string :=
  match Py.rfind "/" p with
  | Some j =>
      match Py.find ";" (Py.drop j p) with
      | Some i => Py.take (j + i) p
      | None => p
      end
  | None => before ";" p
  end.

(** [urlparse(url).path], or the message of the [ValueError] raised. *)
Definition urlparse_path (library_check : string -> option string) (url : string)
  : string + string :=
  let url := remove_unsafe (lstrip_c0 url) in
  let '(scheme, rest) := split_scheme url in
  match check_netloc library_check (netloc_of rest) with
  | Some err => inl err
  | None =>
      let p := before "?" (before "#" (strip_netloc rest)) in
      inr (if existsb (String.eqb scheme) uses_params && Py.contains ";" p
           then strip_params p else p)
  end.

(** [Path(p).name]. *)
Definition path_name (p : string) : string :=
  List.last
    (List.filter (fun c => negb (String.eqb c "" || String.eqb c "."))
                 (Py.split "/" p))
    "".

End Url.

(* ================================================================== *)
(** ** Telegram objects, as far as the two modules read them *)

Definition Path := string.
Definition bytes := string.
(** [str(e)] of a raised exception is all the code looks at. *)
Definition exn := string.

(** [dir / name]. *)
Definition path_join (dir : Path) (name : string) : Path := dir +:+ "/" +:+ name.

Record Chat := mkChat { chat_id : Z }.

Inductive Message := mkMessage {
  message_id : Z;
  chat : Chat;
  from_user : option Z;
  media_group_id : option string;
  reply_to_message : option Message
}.

Record CallbackQuery := mkCallbackQuery { cq_message : option Message }.

Record Update := mkUpdate {
  inline_query : bool;
  upd_message : option Message;
  callback_query : option CallbackQuery;
  effective_message : option Message;
  effective_chat : option Chat
}.

Inductive ParseMode := HTML | MARKDOWN_V2.

(** [str(parse_mode)]: the enumeration members print as their values and
    [str(None)] is ["None"]. *)
Definition str_parse_mode (pm : option ParseMode) : string :=
  match pm with
  | Some HTML => "HTML"
  | Some MARKDOWN_V2 => "MarkdownV2"
  | None => "None"
  end.

Definition is_html (pm : option ParseMode) : bool :=
  match pm with Some HTML => true | _ => false end.

Inductive InputMedia :=
| InputMediaPhoto (media : bytes) (caption : option string) (parse_mode : option string)
| InputMediaDocument (media : bytes) (filename : string) (caption : option string).

(** The media mapping: media kind to the ordered list of local files.
    A Python [dict]; [None] is read as the empty mapping, which is how
    every guard of the source treats it.  The insertion order of the keys,
    which nothing in the two modules depends on, is not kept. *)
Abbreviation MediaFiles := (gmap string (list Path)).

(* ================================================================== *)
(** ** External calls and the platform that answers them *)

Inductive call :=
| CacheAdd (m : Message)
| CacheGet (m : Message)
| Sleep (ms : N)
| DownloadMediaGroup (m : Message)
| Mkdir (p : Path)
| Uuid4
| HttpGet (url : string)
| WriteBytes (p : Path) (content : bytes)
| ReadBytes (p : Path)
| SendPhoto (chat_id : Z) (photo : bytes) (caption : option string)
            (reply_to : option Z) (parse_mode : option string)
| SendMediaGroup (chat_id : Z) (media : list InputMedia) (reply_to : option Z)
| SendDocument (chat_id : Z) (document : bytes) (filename : string)
               (caption : string) (reply_to : option Z)
| DeleteMessage (chat_id : Z) (message_id : Z)
| SendMessage (chat_id : Z) (text : string) (parse_mode : string) (reply_to : Z)
| SetMessageReaction (chat_id : Z) (message_id : Z)
| InvokeModelStreaming (bot_username message_context from_user : string)
                       (photo_paths : list Path) (media_files : MediaFiles)
| SendStreamingResponse.

(** An event of the trace: the call and the error it raised, if any. *)
Definition event : Type := call * option exn.

Definition calls (t : list event) : list call := t.*1.

(** The collaborators of the two modules.  [mybot.common], [settings],
    [dify_service] and [response_service.send_streaming_response] are not
    part of the two files; like the network, the file system and the
    Telegram bot they are fields here.  Each handler may change the world;
    those that can fail return [inl (str e)].  [urllib_check_netloc] is
    the part of [urllib.parse] that is not written out in [Url]: the
    message of the [ValueError] it raises for a network location, or
    [None]. *)
Record Platform (E : Type) := mkPlatform {
  DATA_DIR : Path;
  urllib_check_netloc : string -> option exn;
  should_ignore_command_in_group : Update -> E -> bool;
  add_message_to_media_group_cache : Message -> E -> E;
  get_media_group_messages : Message -> E -> list Message;
  download_media_group_files : Message -> E -> (exn + MediaFiles) * E;
  asyncio_sleep : N -> E -> E;
  path_mkdir : Path -> E -> (exn + unit) * E;
  uuid4_hex : E -> string * E;
  httpx_get : string -> E -> (exn + bytes) * E;
  path_write_bytes : Path -> bytes -> E -> (exn + unit) * E;
  path_read_bytes : Path -> E -> (exn + bytes) * E;
  bot_username : E -> string;
  bot_send_photo : Z -> bytes -> option string -> option Z -> option string ->
                   E -> (exn + Message) * E;
  bot_send_media_group : Z -> list InputMedia -> option Z -> E -> (exn + list Message) * E;
  bot_send_document : Z -> bytes -> string -> string -> option Z -> E -> (exn + unit) * E;
  bot_delete_message : Z -> Z -> E -> (exn + unit) * E;
  bot_send_message : Z -> string -> string -> Z -> E -> (exn + unit) * E;
  bot_set_message_reaction : Z -> Z -> E -> (exn + unit) * E;
  invoke_model_streaming : string -> string -> string -> list Path -> MediaFiles ->
                           E -> (exn + unit) * E;
  send_streaming_response : E -> (exn + unit) * E
}.

Arguments DATA_DIR {E} _.
Arguments urllib_check_netloc {E} _ _.
Arguments should_ignore_command_in_group {E} _ _ _.
Arguments add_message_to_media_group_cache {E} _ _ _.
Arguments get_media_group_messages {E} _ _ _.
Arguments download_media_group_files {E} _ _ _.
Arguments asyncio_sleep {E} _ _ _.
Arguments path_mkdir {E} _ _ _.
Arguments uuid4_hex {E} _ _.
Arguments httpx_get {E} _ _ _.
Arguments path_write_bytes {E} _ _ _ _.
Arguments path_read_bytes {E} _ _ _.
Arguments bot_username {E} _ _.
Arguments bot_send_photo {E} _ _ _ _ _ _ _.
Arguments bot_send_media_group {E} _ _ _ _ _.
Arguments bot_send_document {E} _ _ _ _ _ _ _.
Arguments bot_delete_message {E} _ _ _ _.
Arguments bot_send_message {E} _ _ _ _ _ _.
Arguments bot_set_message_reaction {E} _ _ _ _.
Arguments invoke_model_streaming {E} _ _ _ _ _ _ _.
Arguments send_streaming_response {E} _ _.

(* ================================================================== *)
(** ** The monad: world passing, exceptions, trace *)

Inductive res (A : Type) : Type :=
| Ok (a : A)
| Raise (e : exn)
| Stuck.
Arguments Ok {A} _.
Arguments Raise {A} _.
Arguments Stuck {A}.

Definition M (E A : Type) : Type := E -> res A * E * list event.

Section Monad.
Context {E : Type}.

Definition ret {A} (a : A) : M E A := fun e => (Ok a, e, []).

Definition raise {A} (x : exn) : M E A := fun e => (Raise x, e, []).

(** Recursion budget exhausted; see [_send_original_files]. *)
Definition stuck {A} : M E A := fun e => (Stuck, e, []).

Definition bind {A B} (c : M E A) (k : A -> M E B) : M E B := fun e =>
  match c e with
  | (Ok a, e1, t1) => let '(r, e2, t2) := k a e1 in (r, e2, t1 ++ t2)
  | (Raise x, e1, t1) => (Raise x, e1, t1)
  | (Stuck, e1, t1) => (Stuck, e1, t1)
  end.

(** [try: body / except Exception as e: handler(str(e))]. *)
Definition try_except {A} (body : M E A) (handler : exn -> M E A) : M E A := fun e =>
  match body e with
  | (Raise x, e1, t1) => let '(r, e2, t2) := handler x e1 in (r, e2, t1 ++ t2)
  | o => o
  end.

(** An awaited call that may raise. *)
Definition perform {X} (c : call) (h : E -> (exn + X) * E) : M E X := fun e =>
  match h e with
  | (inr x, e1) => (Ok x, e1, [(c, None)])
  | (inl err, e1) => (Raise err, e1, [(c, Some err)])
  end.

(** A call that cannot raise. *)
Definition perform_total {X} (c : call) (h : E -> X * E) : M E X := fun e =>
  let '(x, e1) := h e in (Ok x, e1, [(c, None)]).

(** Reading the world, without an event. *)
Definition ask {X} (h : E -> X) : M E X := fun e => (Ok (h e), e, []).

End Monad.

Declare Scope m_scope.
Delimit Scope m_scope with m.
Notation "x <- c ;; k" := (bind c (fun x => k))
  (at level 100, c at next level, right associativity) : m_scope.
Notation "c ;;; k" := (bind c (fun _ => k))
  (at level 100, right associativity) : m_scope.
Open Scope m_scope.

(** What a run returned, where it left the world, what it did. *)
Definition result {E A} (o : res A * E * list event) : res A := o.1.1.
Definition final {E A} (o : res A * E * list event) : E := o.1.2.
Definition trace {E A} (o : res A * E * list event) : list event := o.2.

(* ================================================================== *)
(** ** imagine_command.py *)

Section ImagineCommand.
Context {E : Type} (P : Platform E).

(** The debounce interval, [asyncio.sleep(0.8)], in milliseconds. *)
Definition DEBOUNCE_MS : N := 800.

Definition HELP_TEXT : string :=
  "请提供图片生成提示词或上传参考图片

使用方法:
• <code>/imagine 你想生成的图片描述</code>
• <code>/imagine</code> + 发送参考图片
• <code>/imagine 描述文字</code> + 发送参考图片
".

Definition DEFAULT_PROMPT : string := "请参考附件信息".

Definition ERROR_TEXT : string := "❌ 图片生成过程中发生错误，请稍后再试".

Definition _match_context (update : Update) : option Message * option Chat :=
  let '(message, chat) :=
    match upd_message update with
    | Some m => (Some m, Some (chat m))
    | None =>
        match callback_query update with
        | Some cq => (cq_message cq, chat <$> cq_message cq)
        | None => (None, None)
        end
    end in
  match message, chat with
  | Some _, Some _ => (message, chat)
  | _, _ => (effective_message update, effective_chat update)
  end.

Definition _reply_emoji_reaction (chat : Chat) (message : Message) : M E unit :=
  try_except
    (perform (SetMessageReaction (chat_id chat) (message_id message))
             (bot_set_message_reaction P (chat_id chat) (message_id message)))
    (fun _ => ret tt).

Definition _reply_help (chat : Chat) (message : Message)
           (prompt : string) (has_media : bool) : M E bool :=
  if Py.truthy_str prompt || has_media then ret false
  else
    try_except
      (perform (SendMessage (chat_id chat) HELP_TEXT "HTML" (message_id message))
               (bot_send_message P (chat_id chat) HELP_TEXT "HTML" (message_id message)))
      (fun _ => ret tt) ;;;
    ret true.

(** [has_media]: some kind of the mapping has a non-empty list. *)
Definition any_media (media_files : MediaFiles) : bool :=
  existsb (fun kv => Py.truthy_list kv.2) (map_to_list media_files).

(** [bool(d)] for the mapping. *)
Definition truthy_dict (media_files : MediaFiles) : bool :=
  negb (bool_decide (media_files = ∅)).

(** [d.get(k, [])]. *)
Definition get_list (media_files : MediaFiles) (k : string) : list Path :=
  default [] (media_files !! k).

Definition cache_add (message : Message) : M E unit :=
  perform_total (CacheAdd message)
                (fun e => (tt, add_message_to_media_group_cache P message e)).

Definition cache_get (message : Message) : M E (list Message) :=
  perform_total (CacheGet message)
                (fun e => (get_media_group_messages P message e, e)).

Definition sleep (ms : N) : M E unit :=
  perform_total (Sleep ms) (fun e => (tt, asyncio_sleep P ms e)).

Definition _collect_media_group_files (message : Message)
  : M E (MediaFiles * bool * list Path) :=
  cache_add message ;;;
  (if Py.truthy_ostr (media_group_id message) then
     cached_messages <- cache_get message ;;
     let initial_count := List.length cached_messages in
     cached_messages <-
       (if initial_count <=? 1
        then sleep DEBOUNCE_MS ;;; cache_get message
        else ret cached_messages) ;;
     ret tt
   else ret tt) ;;;
  media_files <- perform (DownloadMediaGroup message)
                         (download_media_group_files P message) ;;
  let has_media := any_media media_files in
  let photo_paths :=
    if truthy_dict media_files then get_list media_files "photos" else [] in
  ret (media_files, has_media, photo_paths).

(** The loop [for media_type, paths in reply_media_files.items()]: one
    step per kind of the reply.  Kinds are distinct, so the order in
    which the mapping is walked does not matter. *)
Definition merge_kind (media_type : string) (paths : list Path)
           (acc : MediaFiles * bool) : MediaFiles * bool :=
  if Py.truthy_list paths
  then (<[media_type := get_list acc.1 media_type ++ paths]> acc.1, true)
  else acc.

(** The merge of the replied-to message's media into the trigger's.

    The two mappings come from two calls of [download_media_group_files]
    and are taken to be separate objects with separate lists.
    [photo_paths] is, when the trigger's mapping is non-empty and has the
    key ["photos"], the very list object stored under that key, so the
    in-place [extend] of the loop shows through it; that is the
    [aliased] case below. *)
Definition merge_reply_media (media_files : MediaFiles) (has_media : bool)
           (photo_paths : list Path)
           (reply_media_files : MediaFiles) (reply_has_media : bool)
  : MediaFiles * bool * list Path :=
  if reply_has_media && truthy_dict reply_media_files then
    let '(merged, has_media') :=
      if negb (truthy_dict media_files)
      then (reply_media_files, true)
      else map_fold merge_kind (media_files, has_media) reply_media_files in
    let aliased :=
      truthy_dict media_files && bool_decide (is_Some (media_files !! "photos")) in
    let photo_paths_now :=
      if aliased then get_list merged "photos" else photo_paths in
    let photo_paths' :=
      if Py.truthy_list (get_list reply_media_files "photos")
      then photo_paths_now ++ get_list reply_media_files "photos"
      else photo_paths_now in
    (merged, has_media', photo_paths')
  else (media_files, has_media, photo_paths).

(** [str(message.from_user.id if message.from_user else "unknown")]. *)
Definition from_user_fmt (message : Message) : string :=
  match from_user message with
  | Some uid => pretty uid
  | None => "unknown"
  end.

(** The media of the command message, merged with the media of the message
    it replies to, if any. *)
Definition collect_with_reply (message : Message) : M E (MediaFiles * bool * list Path) :=
  collected <- _collect_media_group_files message ;;
  let '(media_files, has_media, photo_paths) := collected in
  match reply_to_message message with
  | Some reply =>
      from_reply <- _collect_media_group_files reply ;;
      let '(reply_media_files, reply_has_media, _) := from_reply in
      ret (merge_reply_media media_files has_media photo_paths
                             reply_media_files reply_has_media)
  | None => ret (media_files, has_media, photo_paths)
  end.

(** [" ".join(context.args) if context.args else ""]. *)
Definition prompt_of (args : option (list string)) : string :=
  match args with
  | Some (a :: l) => Py.join " " (a :: l)
  | _ => ""
  end.

Definition imagine_command (update : Update) (args : option (list string)) : M E unit :=
  if inline_query update then ret tt else
  ignore <- ask (should_ignore_command_in_group P update) ;;
  if (ignore : bool) then ret tt else
  let prompt := prompt_of args in
  match _match_context update with
  | (Some message, Some chat) =>
      merged <- collect_with_reply message ;;
      let '(media_files, has_media, photo_paths) := merged in
      helped <- _reply_help chat message prompt has_media ;;
      if (helped : bool) then ret tt else
      let prompt :=
        if negb (Py.truthy_str prompt) && has_media then DEFAULT_PROMPT else prompt in
      _reply_emoji_reaction chat message ;;;
      username <- ask (bot_username P) ;;
      let bot_username := Py.rstrip "@" username in
      try_except
        (perform (InvokeModelStreaming bot_username prompt (from_user_fmt message)
                                       photo_paths media_files)
                 (invoke_model_streaming P bot_username prompt (from_user_fmt message)
                                         photo_paths media_files) ;;;
         perform SendStreamingResponse (send_streaming_response P))
        (fun _ =>
           perform (SendMessage (chat_id chat) ERROR_TEXT "HTML" (message_id message))
                   (bot_send_message P (chat_id chat) ERROR_TEXT "HTML" (message_id message)))
  | _ => ret tt
  end.

End ImagineCommand.

(* ================================================================== *)
(** ** image_generation.py *)

Section ImageGeneration.
Context {E : Type} (P : Platform E).

Definition IMAGE_SUFFIXES : list string := [".jpg"; ".jpeg"; ".png"; ".webp"].

(** [filename.lower().endswith(('.jpg', '.jpeg', '.png', '.webp'))]. *)
Definition has_image_suffix (filename : string) : bool :=
  existsb (Py.endswith (Py.lower filename)) IMAGE_SUFFIXES.

(** ["Message caption is too long" in str(e)]. *)
Definition caption_too_long (e : exn) : bool :=
  Py.contains "Message caption is too long" e.

Definition read_bytes (p : Path) : M E bytes :=
  perform (ReadBytes p) (path_read_bytes P p).

Definition delete_message (chat_id message_id : Z) : M E unit :=
  perform (DeleteMessage chat_id message_id) (bot_delete_message P chat_id message_id).

Definition send_photo (chat_id : Z) (photo : bytes) (caption : option string)
           (reply_to : option Z) (parse_mode : option string) : M E Message :=
  perform (SendPhoto chat_id photo caption reply_to parse_mode)
          (bot_send_photo P chat_id photo caption reply_to parse_mode).

Definition send_media_group (chat_id : Z) (media : list InputMedia)
           (reply_to : option Z) : M E (list Message) :=
  perform (SendMediaGroup chat_id media reply_to)
          (bot_send_media_group P chat_id media reply_to).

Definition send_document (chat_id : Z) (document : bytes) (filename caption : string)
           (reply_to : option Z) : M E unit :=
  perform (SendDocument chat_id document filename caption reply_to)
          (bot_send_document P chat_id document filename caption reply_to).

Definition temp_dir : Path := path_join (DATA_DIR P) "generated_images".

(** [Path(urlparse(url).path).name], or the [ValueError] of [urlparse]. *)
Definition url_filename (url : string) : exn + string :=
  match Url.urlparse_path (urllib_check_netloc P) url with
  | inr parsed_path => inr (Url.path_name parsed_path)
  | inl err => inl err
  end.

Definition _download_image_from_url (url : string) : M E (option Path) :=
  try_except
    (perform (Mkdir temp_dir) (path_mkdir P temp_dir) ;;;
     filename <- (match url_filename url with
                  | inr filename => ret filename
                  | inl err => raise err
                  end) ;;
     filename <-
       (if negb (Py.truthy_str filename) || negb (has_image_suffix filename)
        then hex <- perform_total Uuid4 (uuid4_hex P) ;; ret (hex +:+ ".jpeg")
        else ret filename) ;;
     content <- perform (HttpGet url) (httpx_get P url) ;;
     let file_path := path_join temp_dir filename in
     perform (WriteBytes file_path content) (path_write_bytes P file_path content) ;;;
     ret (Some file_path))
    (fun _ => ret None).

(** The [except] branch of [_send_single_photo_with_caption] for a caption
    that is too long: the photo alone, then the placeholder is deleted. *)
Definition resend_photo_without_caption (chat_id : Z) (reply_to_message_id : option Z)
           (delete_message_id : Z) (photo : bytes) : M E Message :=
  sent_message <- send_photo chat_id photo None reply_to_message_id None ;;
  delete_message chat_id delete_message_id ;;;
  ret sent_message.

Definition _send_single_photo_with_caption (chat_id : Z) (caption : string)
           (reply_to_message_id : option Z) (parse_mode : string)
           (delete_message_id : Z) (photo : bytes) : M E Message :=
  try_except
    (sent_message <- send_photo chat_id photo (Some caption) reply_to_message_id
                                (Some parse_mode) ;;
     delete_message chat_id delete_message_id ;;;
     ret sent_message)
    (fun e =>
       if caption_too_long e
       then resend_photo_without_caption chat_id reply_to_message_id delete_message_id photo
       else raise e).

(** [for file_path in files: photo = Path(file_path).read_bytes()]. *)
Fixpoint read_all (files : list Path) : M E (list bytes) :=
  match files with
  | [] => ret []
  | file_path :: rest =>
      photo <- read_bytes file_path ;;
      photos <- read_all rest ;;
      ret (photo :: photos)
  end.

(** The media group whose first item carries the caption. *)
Definition captioned_group (photos : list bytes) (caption parse_mode : string)
  : list InputMedia :=
  imap (fun i photo =>
          if i =? 0 then InputMediaPhoto photo (Some caption) (Some parse_mode)
          else InputMediaPhoto photo None None) photos.

Definition plain_group (photos : list bytes) : list InputMedia :=
  (fun photo => InputMediaPhoto photo None None) <$> photos.

(** The [except] branch of [_send_photo_group_with_caption] for a caption
    that is too long: the files are read again and sent without caption. *)
Definition resend_group_without_caption (chat_id : Z) (reply_to_message_id : option Z)
           (delete_message_id : Z) (downloaded_files : list Path) : M E (list Message) :=
  photos <- read_all downloaded_files ;;
  let media_group := plain_group photos in
  sent_messages <- send_media_group chat_id media_group reply_to_message_id ;;
  delete_message chat_id delete_message_id ;;;
  ret sent_messages.

Definition _send_photo_group_with_caption (chat_id : Z) (caption : string)
           (reply_to_message_id : option Z) (parse_mode : string)
           (delete_message_id : Z) (downloaded_files : list Path) : M E (list Message) :=
  photos <- read_all downloaded_files ;;
  let media_group := captioned_group photos caption parse_mode in
  try_except
    (sent_messages <- send_media_group chat_id media_group reply_to_message_id ;;
     delete_message chat_id delete_message_id ;;;
     ret sent_messages)
    (fun e =>
       if caption_too_long e
       then resend_group_without_caption chat_id reply_to_message_id delete_message_id
                                         downloaded_files
       else raise e).

Definition ORIGINAL_CAPTION : string := "📎 Original (uncompressed)".

Definition originals_caption (n : nat) : string :=
  "📎 Original files (" +:+ pretty n +:+ " images, uncompressed)".

(** The document group: every file is read, the first item is labelled. *)
Fixpoint document_group (total i : nat) (files : list Path) : M E (list InputMedia) :=
  match files with
  | [] => ret []
  | file_path :: rest =>
      doc_bytes <- read_bytes file_path ;;
      let item :=
        if i =? 0
        then InputMediaDocument doc_bytes (Url.path_name file_path)
                                (Some (originals_caption total))
        else InputMediaDocument doc_bytes (Url.path_name file_path) None in
      items <- document_group total (S i) rest ;;
      ret (item :: items)
  end.

(** The body of the [try] of [_send_original_files]: one document, or a
    document group. *)
Definition send_documents (chat_id : Z) (downloaded_files : list Path)
           (reply_to_message_id : option Z) : M E unit :=
  match downloaded_files with
  | [file_path] =>
      document <- read_bytes file_path ;;
      send_document chat_id document (Url.path_name file_path) ORIGINAL_CAPTION
                    reply_to_message_id
  | _ =>
      media_group <- document_group (List.length downloaded_files) 0 downloaded_files ;;
      send_media_group chat_id media_group reply_to_message_id ;;;
      ret tt
  end.

(** [preview_message_id and trigger_message_id and
     preview_message_id != trigger_message_id]. *)
Definition retry_with_trigger (preview_message_id trigger_message_id : option Z) : bool :=
  Py.truthy_oint preview_message_id && Py.truthy_oint trigger_message_id
  && negb (bool_decide (preview_message_id = trigger_message_id)).

(** [_send_original_files] calls itself in its [except] branch, with the
    preview id set to [None].  [budget] bounds the depth of that
    recursion; [Stuck] marks a budget that was too small. *)
Fixpoint send_original_files_rec (budget : nat) (chat_id : Z)
         (downloaded_files : list Path)
         (preview_message_id trigger_message_id : option Z) : M E bool :=
  if negb (Py.truthy_list downloaded_files) then ret false else
  let reply_to_message_id := Py.or_oint preview_message_id trigger_message_id in
  try_except
    (send_documents chat_id downloaded_files reply_to_message_id ;;;
     ret true)
    (fun _ =>
       if retry_with_trigger preview_message_id trigger_message_id
       then
         match budget with
         | O => stuck
         | S budget' =>
             send_original_files_rec budget' chat_id downloaded_files None
                                     trigger_message_id
         end
       else ret false).

(** One nested call is all the code can make: the nested call has no
    preview id, so its own [except] branch returns [False]. *)
Definition _send_original_files (chat_id : Z) (downloaded_files : list Path)
           (preview_message_id trigger_message_id : option Z) : M E bool :=
  send_original_files_rec 1 chat_id downloaded_files preview_message_id trigger_message_id.

(** [for url in urls: ... downloaded_files.append(file_path)]. *)
Fixpoint download_images (urls : list string) (downloaded_files : list Path)
  : M E (list Path) :=
  match urls with
  | [] => ret downloaded_files
  | url :: rest =>
      file_path <- _download_image_from_url url ;;
      download_images rest
        (match file_path with
         | Some p => downloaded_files ++ [p]
         | None => downloaded_files
         end)
  end.

(** [initial_message.message_id], an [AttributeError] on [None]. *)
Definition message_id_of (initial_message : option Message) : M E Z :=
  match initial_message with
  | Some m => ret (message_id m)
  | None => raise "'NoneType' object has no attribute 'message_id'"
  end.

(** Run [c]; hand a raised exception back as a value. *)
Definition attempt {A} (c : M E A) : M E (exn + A) :=
  try_except (a <- c ;; ret (inr a)) (fun e => ret (inl e)).

Section Delivery.
Variables (chat_id : Z) (downloaded_files : list Path)
          (caption_markdown caption_html : string)
          (reply_to_message_id : option Z)
          (initial_message trigger_message : option Message).

(** The sends of one round of the loop, up to the assignment of
    [preview_message_id]; returns the new value of that variable. *)
Definition send_preview (parse_mode : option ParseMode) (preview_message_id : option Z)
  : M E (option Z) :=
  let caption := if is_html parse_mode then caption_html else caption_markdown in
  match downloaded_files with
  | [file_path] =>
      photo <- read_bytes file_path ;;
      delete_message_id <- message_id_of initial_message ;;
      sent_message <- _send_single_photo_with_caption
                        chat_id caption reply_to_message_id (str_parse_mode parse_mode)
                        delete_message_id photo ;;
      ret (Some (message_id sent_message))
  | _ =>
      delete_message_id <- message_id_of initial_message ;;
      sent_messages <- _send_photo_group_with_caption
                         chat_id caption reply_to_message_id (str_parse_mode parse_mode)
                         delete_message_id downloaded_files ;;
      ret (match sent_messages with
           | first :: _ => Some (message_id first)
           | [] => preview_message_id
           end)
  end.

(** The originals, then [return True]. *)
Definition send_originals_and_succeed (preview_message_id : option Z) : M E bool :=
  let trigger_message_id := message_id <$> trigger_message in
  _send_original_files chat_id downloaded_files preview_message_id trigger_message_id ;;;
  ret true.

(** [for parse_mode in parse_modes: try: ... except Exception as e: ...].
    The [try] block is run in two parts, each under the same handler, so
    that the handler sees [preview_message_id] as it is when the
    exception is raised. *)
Fixpoint try_parse_modes (parse_modes : list (option ParseMode))
         (preview_message_id : option Z) : M E bool :=
  match parse_modes with
  | [] => ret false
  | parse_mode :: rest =>
      let handler (preview_message_id : option Z) (e : exn) : M E bool :=
        if negb (caption_too_long e)
        then try_parse_modes rest preview_message_id
        else send_originals_and_succeed preview_message_id in
      sent <- attempt (send_preview parse_mode preview_message_id) ;;
      match sent with
      | inl e => handler preview_message_id e
      | inr preview_message_id' =>
          done <- attempt (send_originals_and_succeed preview_message_id') ;;
          match done with
          | inl e => handler preview_message_id' e
          | inr b => ret b
          end
      end
  end.

End Delivery.

Definition PARSE_MODES : list (option ParseMode) := [Some HTML; Some MARKDOWN_V2; None].

(** [params] is [None] when the caller hands over Python's [None] instead
    of a mapping; [params.get] then raises an [AttributeError], outside
    every [try]. *)
Definition _send_imagine_result (chat_id : Z) (image_urls : list string)
           (params : option (gmap string string)) (reply_to_message_id : option Z)
           (initial_message : option Message) (final_answer : option string)
           (trigger_message : option Message) : M E bool :=
  if negb (Py.truthy_list image_urls) then ret false else
  downloaded_files <- download_images (take 10 image_urls) [] ;;
  if negb (Py.truthy_list downloaded_files) then ret false else
  captions <-
    (if Py.truthy_ostr final_answer
     then ret (default "" final_answer, default "" final_answer)
     else
       match params with
       | Some params =>
           let caption_markdown := default "" (params !! "caption_markdown") in
           ret (caption_markdown, default caption_markdown (params !! "caption_html"))
       | None => raise "'NoneType' object has no attribute 'get'"
       end) ;;
  let '(caption_markdown, caption_html) := (captions : string * string) in
  try_parse_modes chat_id downloaded_files caption_markdown caption_html
                  reply_to_message_id initial_message trigger_message
                  PARSE_MODES None.

(** [extras] of the final answer, as far as it is read.  For
    ["all_image_urls"] a missing key and a key that holds [None] end the
    same way, at the first test of [_send_imagine_result]; both are [None]
    here.  For ["params"] they do not: [extras_params] is [None] when the
    key is missing and [Some None] when it holds [None]. *)
Record Extras := mkExtras {
  all_image_urls : option (list string);
  extras_params : option (option (gmap string string))
}.

(** [extras.get("params", {})]. *)
Definition get_params (extras : Extras) : option (gmap string string) :=
  match extras_params extras with
  | Some params => params
  | None => Some ∅
  end.

Definition _handle_answer_parts_image_generation (chat : Chat)
           (trigger_message initial_message : Message) (final_answer : string)
           (extras : Extras) : M E unit :=
  _send_imagine_result (chat_id chat) (default [] (all_image_urls extras))
                       (get_params extras)
                       (Some (message_id trigger_message)) (Some initial_message)
                       (Some final_answer) (Some trigger_message) ;;;
  ret tt.

End ImageGeneration.

(* ================================================================== *)
(** ** Reading traces *)

Definition is_aggregation_call (c : call) : bool :=
  match c with
  | CacheAdd _ | CacheGet _ | Sleep _ | DownloadMediaGroup _ => true
  | _ => false
  end.

Definition is_download_call (c : call) : bool :=
  match c with
  | Mkdir _ | Uuid4 | HttpGet _ | WriteBytes _ _ => true
  | _ => false
  end.

(** A media group that starts with a document. *)
Definition document_first (media : list InputMedia) : bool :=
  match media with
  | InputMediaDocument _ _ _ :: _ => true
  | _ => false
  end.

(** A preview send: a photo, or a media group of photos. *)
Definition is_preview_send (c : call) : bool :=
  match c with
  | SendPhoto _ _ _ _ _ => true
  | SendMediaGroup _ media _ => negb (document_first media)
  | _ => false
  end.

(** An originals send: a document, or a media group of documents. *)
Definition is_originals_send (c : call) : bool :=
  match c with
  | SendDocument _ _ _ _ _ => true
  | SendMediaGroup _ media _ => document_first media
  | _ => false
  end.

(** What the preview stage may do: read files, send previews, delete the
    placeholder. *)
Definition is_preview_call (c : call) : bool :=
  match c with
  | ReadBytes _ | DeleteMessage _ _ => true
  | _ => is_preview_send c
  end.

(** Any call to the Telegram bot. *)
Definition is_bot_call (c : call) : bool :=
  match c with
  | SendPhoto _ _ _ _ _ | SendMediaGroup _ _ _ | SendDocument _ _ _ _ _
  | DeleteMessage _ _ | SendMessage _ _ _ _ | SetMessageReaction _ _ => true
  | _ => false
  end.

Definition is_generation_call (c : call) : bool :=
  match c with
  | InvokeModelStreaming _ _ _ _ _ | SendStreamingResponse => true
  | _ => false
  end.

(** What originals delivery may do: read files and send documents. *)
Definition is_originals_call (c : call) : bool :=
  match c with
  | ReadBytes _ => true
  | _ => is_originals_send c
  end.

(** The URLs fetched, in order. *)
Definition fetched (t : list event) : list string :=
  omap (fun ev => match ev.1 with HttpGet url => Some url | _ => None end) t.

(** The parse mode of a send that carries a caption. *)
Definition captioned_mode (c : call) : option string :=
  match c with
  | SendPhoto _ _ (Some _) _ parse_mode => parse_mode
  | SendMediaGroup _ (InputMediaPhoto _ (Some _) parse_mode :: _) _ => parse_mode
  | _ => None
  end.

(** The parse modes of the captioned sends of a trace, in order. *)
Definition captioned_modes (t : list event) : list string :=
  omap (fun ev => captioned_mode ev.1) t.

(** The prompts handed to the generation service. *)
Definition prompts (t : list event) : list string :=
  omap (fun ev => match ev.1 with
                  | InvokeModelStreaming _ prompt _ _ _ => Some prompt
                  | _ => None
                  end) t.

(** Every call of the trace is of the given kind. *)
Definition only (Q : call -> bool) (t : list event) : Prop :=
  Forall (fun ev => Q ev.1 = true) t.

(** No call of the trace is of the given kind. *)
Definition none (Q : call -> bool) (t : list event) : Prop :=
  Forall (fun ev => Q ev.1 = false) t.

Definition is_read_call (c : call) : bool :=
  match c with ReadBytes _ => true | _ => false end.

(** The placeholder was deleted: a [delete_message] that returned. *)
Definition deleted (ev : event) : bool :=
  match ev with
  | (DeleteMessage _ _, None) => true
  | _ => false
  end.

(** No placeholder deletion succeeded. *)
Definition quiet (t : list event) : Prop := Forall (fun ev => deleted ev = false) t.

(** The trace does not end in a preview send that returned. *)
Definition ends_unsent (t : list event) : Prop :=
  match last t with
  | Some (c, None) => is_preview_send c = false
  | _ => True
  end.

(** The trace of a preview that went through: it ends in a preview send
    that returned and the deletion of the placeholder, the only one that
    succeeded. *)
Definition delivered_trace (t : list event) : Prop :=
  exists t0 c chat_id message_id,
    t = t0 ++ [(c, None); (DeleteMessage chat_id message_id, None)] /\
    quiet t0 /\ is_preview_send c = true.

(** The trace of a preview that raised. *)
Definition failed_trace (t : list event) : Prop := quiet t /\ ends_unsent t.

Definition preview_shape {E A} (o : res A * E * list event) : Prop :=
  match result o with
  | Ok _ => delivered_trace (trace o)
  | Raise _ => failed_trace (trace o)
  | Stuck => False
  end.

(** Boolean versions, for traces that are written out. *)
Fixpoint check_delivered (t : list event) : bool :=
  match t with
  | [] => false
  | [(c, None); (DeleteMessage _ _, None)] => is_preview_send c
  | ev :: rest => negb (deleted ev) && check_delivered rest
  end.

Definition check_failed (t : list event) : bool :=
  forallb (fun ev => negb (deleted ev)) t &&
  match last t with
  | Some (c, None) => negb (is_preview_send c)
  | _ => true
  end.

(** "Once a send at some format succeeds, the pipeline returns success and
    no later send of a preview is made", read on the outcome of a run. *)
Definition sent_preview_is_final {E} (o : res bool * E * list event) : Prop :=
  forall t1 c t2,
    trace o = t1 ++ (c, None) :: t2 ->
    is_preview_send c = true ->
    result o = Ok true /\ none is_preview_send t2.

(** The same, once the send and the deletion of the placeholder that
    follows it have both succeeded; what follows is originals delivery. *)
Definition delivered_preview_is_final {E} (o : res bool * E * list event) : Prop :=
  forall t1 c chat_id message_id t2,
    trace o = t1 ++ (c, None) :: (DeleteMessage chat_id message_id, None) :: t2 ->
    is_preview_send c = true ->
    result o = Ok true /\ only is_originals_call t2 /\ none is_preview_send t2.

(** The last component of the path of a URL, [None] for a URL that
    [urlparse] refuses, and whether the download names its file after
    it. *)
Definition url_name {E} (P : Platform E) (url : string) : option string :=
  match url_filename P url with
  | inr filename => Some filename
  | inl _ => None
  end.

Definition named_by_url {E} (P : Platform E) (url : string) : bool :=
  match url_name P url with
  | Some filename => Py.truthy_str filename && has_image_suffix filename
  | None => false
  end.

(** "A retry without caption that succeeds counts as overall success",
    read on the outcome of a run: a send that failed on the caption
    length, directly followed by a send without caption that returned. *)
Definition successful_retry_is_final {E} (o : res bool * E * list event) : Prop :=
  forall t1 c err c' t2,
    trace o = t1 ++ (c, Some err) :: (c', None) :: t2 ->
    caption_too_long err = true ->
    is_preview_send c = true ->
    is_preview_send c' = true ->
    captioned_mode c' = None ->
    result o = Ok true.

(** The reply targets of the document sends of a trace, in order. *)
Definition originals_targets (t : list event) : list (option Z) :=
  omap (fun ev => match ev.1 with
                  | SendDocument _ _ _ _ reply_to => Some reply_to
                  | SendMediaGroup _ media reply_to =>
                      if document_first media then Some reply_to else None
                  | _ => None
                  end) t.

Definition is_ok {A} (r : res A) : bool :=
  match r with Ok _ => true | _ => false end.

(** A round of the loop over the parse modes is the run of one preview.
    The loop goes on to the next parse mode exactly when the round raised
    an error that is not about the length of the caption. *)
Definition goes_on {E A} (r : res A * E * list event) : bool :=
  match result r with
  | Raise x => negb (caption_too_long x)
  | _ => false
  end.

(** The preview id the loop holds after a round that started without
    one. *)
Definition preview_id_after {E} (r : res (option Z) * E * list event) : option Z :=
  match result r with
  | Ok preview_message_id => preview_message_id
  | _ => None
  end.

(** The round made a preview send. *)
Definition sends {E A} (r : res A * E * list event) : bool :=
  existsb (fun ev : event => is_preview_send ev.1) (trace r).

(** What a round does with its parse mode: it reads the files and then
    makes its first send, which carries a caption in that parse mode, and
    nothing after that send carries a caption; or it fails before any
    send, having done nothing but read. *)
Definition attempted {E A} (parse_mode : string) (r : res A * E * list event) : Prop :=
  (exists reads c o rest,
      trace r = reads ++ (c, o) :: rest /\
      only is_read_call reads /\
      captioned_mode c = Some parse_mode /\
      captioned_modes rest = []) \/
  (only is_read_call (trace r) /\ is_ok (result r) = false).

(** Every call a computation makes is of kind [Q], whatever the world. *)
Definition emits {E A} (Q : call -> bool) (c : M E A) : Prop :=
  forall e, only Q (trace (c e)).

(** A computation that always returns a value. *)
Definition returns {E A} (c : M E A) : Prop :=
  forall e, exists a, result (c e) = Ok a.

(** The batch of downloads as a relation: one run of
    [_download_image_from_url] per URL, in order, each starting in the
    world the previous one left. *)
Inductive downloads {E : Type} (P : Platform E)
  : list string -> E -> list (option Path) -> E -> list event -> Prop :=
| downloads_nil e : downloads P [] e [] e []
| downloads_cons url urls e r e1 t1 rs e2 t2 :
    _download_image_from_url P url e = (Ok r, e1, t1) ->
    downloads P urls e1 rs e2 t2 ->
    downloads P (url :: urls) e (r :: rs) e2 (t1 ++ t2).

(* ================================================================== *)
(** ** Scripted worlds, for running the code on concrete inputs *)

Module Scenario.

(** What the outside world does in a scenario. *)
Record Script := mkScript {
  media_of : Message -> MediaFiles;    (* media found on a message *)
  arrived : Message -> list Message;   (* cached fragments before the wait *)
  late : list Message;                 (* fragments landing during the wait *)
  http_ok : string -> bool;            (* does the download of a URL succeed *)
  caption_limit : nat;                 (* longest caption Telegram accepts *)
  delete_ok : bool;                    (* can the placeholder be deleted *)
  reply_ok : option Z -> bool          (* is this a valid reply target for documents *)
}.

(** The world: the id of the next message the bot sends, and the
    fragments that landed during a wait. *)
Record World := mkWorld { next_id : Z; landed : list Message }.

Definition sent (w : World) : World :=
  {| next_id := next_id w + 1; landed := landed w |}.

Definition bot_message (w : World) : Message :=
  mkMessage (next_id w) (mkChat 1) None None None.

Definition caption_fits (s : Script) (caption : option string) : bool :=
  match caption with
  | Some c => String.length c <=? caption_limit s
  | None => true
  end.

Definition first_caption (media : list InputMedia) : option string :=
  match media with
  | InputMediaPhoto _ c _ :: _ => c
  | _ => None
  end.

Definition platform (s : Script) : Platform World := {|
  DATA_DIR := "/data";
  urllib_check_netloc := fun _ => None;
  should_ignore_command_in_group := fun _ _ => false;
  add_message_to_media_group_cache := fun _ w => w;
  get_media_group_messages := fun m w => arrived s m ++ landed w;
  download_media_group_files := fun m w => (inr (media_of s m), w);
  asyncio_sleep := fun _ w => {| next_id := next_id w; landed := late s |};
  path_mkdir := fun _ w => (inr tt, w);
  uuid4_hex := fun w => ("9f1c2d3e4b5a69788796a5b4c3d2e" +:+ pretty (next_id w), sent w);
  httpx_get := fun url w =>
    (if http_ok s url then inr ("image bytes of " +:+ url) else inl "404 Not Found", w);
  path_write_bytes := fun _ _ w => (inr tt, w);
  path_read_bytes := fun p w => (inr ("bytes of " +:+ p), w);
  bot_username := fun _ => "imagine_bot";
  bot_send_photo := fun _ _ caption _ _ w =>
    if caption_fits s caption then (inr (bot_message w), sent w)
    else (inl "Bad Request: Message caption is too long", w);
  bot_send_media_group := fun _ media reply_to w =>
    if document_first media && negb (reply_ok s reply_to)
    then (inl "Bad Request: message to be replied not found", w)
    else if caption_fits s (first_caption media)
    then (inr ((fun _ => bot_message w) <$> media), sent w)
    else (inl "Bad Request: Message caption is too long", w);
  bot_send_document := fun _ _ _ _ reply_to w =>
    if reply_ok s reply_to then (inr tt, sent w)
    else (inl "Bad Request: message to be replied not found", w);
  bot_delete_message := fun _ _ w =>
    if delete_ok s then (inr tt, w)
    else (inl "Bad Request: message to delete not found", w);
  bot_send_message := fun _ _ _ _ w => (inr tt, sent w);
  bot_set_message_reaction := fun _ _ w => (inr tt, w);
  invoke_model_streaming := fun _ _ _ _ _ w => (inr tt, w);
  send_streaming_response := fun w => (inr tt, w)
|}.

(** Everything works; no media anywhere. *)
Definition calm : Script := {|
  media_of := fun _ => ∅;
  arrived := fun m => [m];
  late := [];
  http_ok := fun _ => true;
  caption_limit := 1024;
  delete_ok := true;
  reply_ok := fun _ => true
|}.

(** The placeholder is already gone: deleting it fails. *)
Definition stuck_placeholder : Script := {|
  media_of := fun _ => ∅;
  arrived := fun m => [m];
  late := [];
  http_ok := fun _ => true;
  caption_limit := 1024;
  delete_ok := false;
  reply_ok := fun _ => true
|}.

(** Telegram accepts captions of at most ten characters. *)
Definition short_captions : Script := {|
  media_of := fun _ => ∅;
  arrived := fun m => [m];
  late := [];
  http_ok := fun _ => true;
  caption_limit := 10;
  delete_ok := true;
  reply_ok := fun _ => true
|}.

(** Both at once. *)
Definition short_captions_stuck_placeholder : Script := {|
  media_of := fun _ => ∅;
  arrived := fun m => [m];
  late := [];
  http_ok := fun _ => true;
  caption_limit := 10;
  delete_ok := false;
  reply_ok := fun _ => true
|}.

(** No download succeeds. *)
Definition offline : Script := {|
  media_of := fun _ => ∅;
  arrived := fun m => [m];
  late := [];
  http_ok := fun _ => false;
  caption_limit := 1024;
  delete_ok := true;
  reply_ok := fun _ => true
|}.

(** Documents can only be sent in reply to the command. *)
Definition preview_not_an_anchor : Script := {|
  media_of := fun _ => ∅;
  arrived := fun m => [m];
  late := [];
  http_ok := fun _ => true;
  caption_limit := 1024;
  delete_ok := true;
  reply_ok := fun r => bool_decide (r = Some 40%Z)
|}.

Definition start : World := {| next_id := 500; landed := [] |}.

Definition user_chat : Chat := mkChat 1.

(** The placeholder the bot shows while it works, and the command. *)
Definition placeholder : Message := mkMessage 41 user_chat None None None.
Definition command : Message := mkMessage 40 user_chat (Some 7%Z) None None.


(** The command carries a photo and replies to a message with a photo and
    a document. *)
Definition attachments : Script := {|
  media_of := fun m =>
    if (message_id m =? 42)%Z then {[ "photos" := ["/data/in/cat.jpg"] ]}
    else if (message_id m =? 30)%Z
         then <[ "documents" := ["/data/in/notes.pdf"] ]> {[ "photos" := ["/data/in/dog.jpg"] ]}
         else ∅;
  arrived := fun m => [m];
  late := [];
  http_ok := fun _ => true;
  caption_limit := 1024;
  delete_ok := true;
  reply_ok := fun _ => true
|}.

(** An earlier message with media, and a command that replies to it. *)
Definition earlier : Message := mkMessage 30 user_chat (Some 7%Z) None None.
Definition command_with_photo : Message := mkMessage 42 user_chat (Some 7%Z) None None.
Definition command_replying : Message := mkMessage 42 user_chat (Some 7%Z) None (Some earlier).

(** The update that delivers a command message. *)
Definition update_of (m : Message) : Update :=
  mkUpdate false (Some m) None (Some m) (Some (chat m)).

End Scenario.

(** Runs of the code in scripted worlds, used by the examples, witnesses
    and counterexamples. *)
Module Runs.
Import Scenario.

Definition fox_url : string := "https://cdn.example.com/out/fox.png".
Definition fox_file : Path := "/data/generated_images/fox.png".
Definition fox_bytes : bytes := "bytes of /data/generated_images/fox.png".
Definition long_caption : string := "<b>a red fox jumps over the lazy dog</b>".

(** A URL with leading blanks, a tab in the file name, an upper-case
    suffix, parameters, a query and a fragment. *)
Definition untidy_url : string :=
  "  https://CDN.example.com/out/Fo" +:+ String "009"%char "x.PNG;v=2?size=large#top".

(** One image, everything works. *)
Definition calm_run : res bool * World * list event :=
  _send_imagine_result (platform calm) 1 [fox_url] (Some ∅) (Some 40%Z) (Some placeholder)
                       (Some "<b>a red fox</b>") (Some command) start.

(** One image; the placeholder cannot be deleted. *)
Definition stuck_placeholder_run : res bool * World * list event :=
  _send_imagine_result (platform stuck_placeholder) 1 [fox_url] (Some ∅) (Some 40%Z)
                       (Some placeholder) (Some "<b>a red fox</b>") (Some command) start.

(** One image, a caption that is too long; the placeholder cannot be
    deleted. *)
Definition long_caption_stuck_run : res bool * World * list event :=
  _send_imagine_result (platform short_captions_stuck_placeholder) 1 [fox_url] (Some ∅)
                       (Some 40%Z) (Some placeholder) (Some long_caption)
                       (Some command) start.

(** Twelve generated images. *)
Definition twelve_urls : list string :=
  (fun i : nat => "https://cdn.example.com/out/img" +:+ pretty i +:+ ".png") <$> seq 1 12.

Definition twelve_run : res bool * World * list event :=
  _send_imagine_result (platform calm) 1 twelve_urls (Some ∅) (Some 40%Z) (Some placeholder)
                       (Some "<b>a red fox</b>") (Some command) start.

End Runs.


(* ================================================================== *)
(** ** More ways to read traces *)

(** The texts sent with [send_message], in order. *)
Definition texts (t : list event) : list string :=
  omap (fun ev => match ev.1 with
                  | SendMessage _ text _ _ => Some text
                  | _ => None
                  end) t.

(** Some call to the generation service or to the streaming response
    raised. *)
Definition generation_failed (t : list event) : bool :=
  existsb (fun ev => is_generation_call ev.1 &&
                     match ev.2 with Some _ => true | None => false end) t.

(** Parse mode and caption of a send that carries a caption. *)
Definition caption_of (c : call) : option (string * string) :=
  match c with
  | SendPhoto _ _ (Some caption) _ (Some parse_mode) => Some (parse_mode, caption)
  | SendMediaGroup _ (InputMediaPhoto _ (Some caption) (Some parse_mode) :: _) _ =>
      Some (parse_mode, caption)
  | _ => None
  end.

Definition captions (t : list event) : list (string * string) :=
  omap (fun ev => caption_of ev.1) t.

(** The call is addressed as the delivery pipeline was told: to the chat,
    previews in reply to the given message, deletions of the placeholder
    only.  Calls that are not Telegram calls pass. *)
Definition addressed (chat_id : Z) (reply_to : option Z) (placeholder : option Z)
           (c : call) : bool :=
  match c with
  | SendPhoto ch _ _ r _ => (ch =? chat_id)%Z && bool_decide (r = reply_to)
  | SendMediaGroup ch media r =>
      (ch =? chat_id)%Z && (document_first media || bool_decide (r = reply_to))
  | SendDocument ch _ _ _ _ => (ch =? chat_id)%Z
  | DeleteMessage ch d => (ch =? chat_id)%Z && bool_decide (Some d = placeholder)
  | SendMessage _ _ _ _ | SetMessageReaction _ _ => false
  | _ => true
  end.

(** The captions [_send_imagine_result] chooses: [final_answer] for both
    when it is given, else the two entries of [params]. *)
Definition chosen_captions (final_answer : option string) (params : gmap string string)
  : string * string :=
  if Py.truthy_ostr final_answer
  then (default "" final_answer, default "" final_answer)
  else
    let caption_markdown := default "" (params !! "caption_markdown") in
    (caption_markdown, default caption_markdown (params !! "caption_html")).

(** The same for any [params]: the captions, or the error of [params.get]
    when [params] is [None] and [final_answer] does not stand in. *)
Definition captions_of (final_answer : option string)
           (params : option (gmap string string)) : exn + (string * string) :=
  match params with
  | Some params => inr (chosen_captions final_answer params)
  | None =>
      if Py.truthy_ostr final_answer
      then inr (default "" final_answer, default "" final_answer)
      else inl "'NoneType' object has no attribute 'get'"
  end.

(** The files written, in order: the targets of the writes that went
    through. *)
Definition written (t : list event) : list Path :=
  omap (fun ev : event => match ev with
                          | (WriteBytes file_path _, None) => Some file_path
                          | _ => None
                          end) t.

(** The key ["params"] of [extras] holds [None]. *)
Definition params_is_none (extras : Extras) : bool :=
  match extras_params extras with
  | Some None => true
  | _ => false
  end.

(** No call of the trace raised. *)
Definition clean (t : list event) : Prop := Forall (fun ev => ev.2 = None) t.

(** The sizes of the media groups sent, and whether a single photo or a
    single document was sent. *)
Definition sized (n : nat) (c : call) : bool :=
  match c with
  | SendMediaGroup _ media _ => (List.length media =? n)%nat && (2 <=? n)%nat
  | SendPhoto _ _ _ _ _ | SendDocument _ _ _ _ _ => (n =? 1)%nat
  | _ => true
  end.

(** A deletion, or the send of a preview. *)
Definition is_preview_effect (c : call) : bool :=
  match c with
  | DeleteMessage _ _ => true
  | _ => is_preview_send c
  end.


(** A caption goes with its parse mode: the HTML caption with ["HTML"],
    the Markdown caption with every other mode. *)
Definition caption_paired (caption_markdown caption_html : string) (c : call) : bool :=
  match caption_of c with
  | Some (parse_mode, caption) =>
      String.eqb caption
                 (if String.eqb parse_mode "HTML" then caption_html else caption_markdown)
  | None => true
  end.



(** What an originals send is to carry for the given files: every file,
    in order, under its own name; one caption, on the first. *)
Definition expected_documents (files : list Path) : list (string * option string) :=
  match files with
  | [file_path] => [(Url.path_name file_path, Some ORIGINAL_CAPTION)]
  | _ =>
      imap (fun i file_path =>
              (Url.path_name file_path,
               if i =? 0 then Some (originals_caption (List.length files)) else None))
           files
  end.


(** An error that is raised is the error of the last call made. *)
Definition raises_last {E A} (o : res A * E * list event) : Prop :=
  match result o with
  | Ok _ => True
  | Raise x => exists c, last (trace o) = Some (c, Some x)
  | Stuck => False
  end.


Module Worlds.
Import Scenario.

(** The world of a script, with the generation service down. *)
Definition generation_down (s : Script) : Platform World :=
  let P := platform s in
  {| DATA_DIR := DATA_DIR P;
     urllib_check_netloc := urllib_check_netloc P;
     should_ignore_command_in_group := should_ignore_command_in_group P;
     add_message_to_media_group_cache := add_message_to_media_group_cache P;
     get_media_group_messages := get_media_group_messages P;
     download_media_group_files := download_media_group_files P;
     asyncio_sleep := asyncio_sleep P;
     path_mkdir := path_mkdir P;
     uuid4_hex := uuid4_hex P;
     httpx_get := httpx_get P;
     path_write_bytes := path_write_bytes P;
     path_read_bytes := path_read_bytes P;
     bot_username := bot_username P;
     bot_send_photo := bot_send_photo P;
     bot_send_media_group := bot_send_media_group P;
     bot_send_document := bot_send_document P;
     bot_delete_message := bot_delete_message P;
     bot_send_message := bot_send_message P;
     bot_set_message_reaction := fun _ _ w => (inl "Bad Request: REACTION_INVALID", w);
     invoke_model_streaming := fun _ _ _ _ _ w => (inl "503 Service Unavailable", w);
     send_streaming_response := send_streaming_response P |}.

(** The world of a script in which every send of a photo or of a media
    group is refused. *)
Definition previews_refused (s : Script) : Platform World :=
  let P := platform s in
  {| DATA_DIR := DATA_DIR P;
     urllib_check_netloc := urllib_check_netloc P;
     should_ignore_command_in_group := should_ignore_command_in_group P;
     add_message_to_media_group_cache := add_message_to_media_group_cache P;
     get_media_group_messages := get_media_group_messages P;
     download_media_group_files := download_media_group_files P;
     asyncio_sleep := asyncio_sleep P;
     path_mkdir := path_mkdir P;
     uuid4_hex := uuid4_hex P;
     httpx_get := httpx_get P;
     path_write_bytes := path_write_bytes P;
     path_read_bytes := path_read_bytes P;
     bot_username := bot_username P;
     bot_send_photo := fun _ _ _ _ _ w => (inl "Bad Request: can't parse entities", w);
     bot_send_media_group := fun _ _ _ w => (inl "Bad Request: can't parse entities", w);
     bot_send_document := bot_send_document P;
     bot_delete_message := bot_delete_message P;
     bot_send_message := bot_send_message P;
     bot_set_message_reaction := bot_set_message_reaction P;
     invoke_model_streaming := invoke_model_streaming P;
     send_streaming_response := send_streaming_response P |}.

(** A command sent with the prompt "a red fox". *)
Definition fox_args : option (list string) := Some ["a"; "red"; "fox"].

End Worlds.

(* ================================================================== *)
(** ** Facts about the monad *)

Section MonadFacts.
Context {E : Type}.
Implicit Types e : E.

Lemma run_bind {A B} (c : M E A) (k : A -> M E B) e :
  bind c k e =
  match c e with
  | (Ok a, e1, t1) => (result (k a e1), final (k a e1), t1 ++ trace (k a e1))
  | (Raise x, e1, t1) => (Raise x, e1, t1)
  | (Stuck, e1, t1) => (Stuck, e1, t1)
  end.
Proof.
  unfold bind, result, final, trace.
  destruct (c e) as [[[a|x|] e1] t1]; try reflexivity.
  destruct (k a e1) as [[r e2] t2]; reflexivity.
Qed.

Lemma run_try_except {A} (body : M E A) (handler : exn -> M E A) e :
  try_except body handler e =
  match body e with
  | (Raise x, e1, t1) =>
      (result (handler x e1), final (handler x e1), t1 ++ trace (handler x e1))
  | o => o
  end.
Proof.
  unfold try_except, result, final, trace.
  destruct (body e) as [[[a|x|] e1] t1]; try reflexivity.
  destruct (handler x e1) as [[r e2] t2]; reflexivity.
Qed.

Lemma run_bind_ret {A B} (a : A) (k : A -> M E B) e : bind (ret a) k e = k a e.
Proof. unfold bind, ret. by destruct (k a e) as [[r e1] t1]. Qed.

Lemma run_eta {A} (o : res A * E * list event) : o = (result o, final o, trace o).
Proof. by destruct o as [[??]?]. Qed.

Lemma emits_ret {A} Q (a : A) : emits Q (@ret E A a).
Proof. intros e. constructor. Qed.

Lemma emits_raise {A} Q x : emits Q (@raise E A x).
Proof. intros e. constructor. Qed.

Lemma emits_stuck {A} Q : emits Q (@stuck E A).
Proof. intros e. constructor. Qed.

Lemma emits_ask {X} Q (h : E -> X) : emits Q (ask h).
Proof. intros e. constructor. Qed.

Lemma emits_perform {X} Q c (h : E -> (exn + X) * E) :
  Q c = true -> emits Q (perform c h).
Proof.
  intros Hc e. unfold perform, trace.
  destruct (h e) as [[err|x] e1]; repeat constructor; exact Hc.
Qed.

Lemma emits_perform_total {X} Q c (h : E -> X * E) :
  Q c = true -> emits Q (perform_total c h).
Proof.
  intros Hc e. unfold perform_total, trace.
  destruct (h e) as [x e1]; repeat constructor; exact Hc.
Qed.

Lemma emits_bind {A B} Q (c : M E A) (k : A -> M E B) :
  emits Q c -> (forall a, emits Q (k a)) -> emits Q (bind c k).
Proof.
  intros Hc Hk e. rewrite run_bind. specialize (Hc e).
  destruct (c e) as [[[a|x|] e1] t1]; cbn in *; try exact Hc.
  apply Forall_app; split; [exact Hc | apply Hk].
Qed.

Lemma emits_try_except {A} Q (body : M E A) handler :
  emits Q body -> (forall x, emits Q (handler x)) -> emits Q (try_except body handler).
Proof.
  intros Hb Hh e. rewrite run_try_except. specialize (Hb e).
  destruct (body e) as [[[a|x|] e1] t1]; cbn in *; try exact Hb.
  apply Forall_app; split; [exact Hb | apply Hh].
Qed.

Lemma emits_weaken {A} (Q Q' : call -> bool) (c : M E A) :
  (forall x, Q x = true -> Q' x = true) -> emits Q c -> emits Q' c.
Proof. intros HQ Hc e. eapply Forall_impl; [apply Hc | intros ev; apply HQ]. Qed.

Lemma returns_ret {A} (a : A) : returns (@ret E A a).
Proof. intros e; by exists a. Qed.

Lemma returns_bind {A B} (c : M E A) (k : A -> M E B) :
  returns c -> (forall a, returns (k a)) -> returns (bind c k).
Proof.
  intros Hc Hk e. rewrite run_bind. destruct (Hc e) as [a Ha].
  destruct (c e) as [[r e1] t1]; cbn in Ha; subst r. apply Hk.
Qed.

Lemma returns_perform_total {X} c (h : E -> X * E) : returns (perform_total c h).
Proof. intros e. unfold perform_total. destruct (h e) as [x e1]. by exists x. Qed.

End MonadFacts.

Create HintDb emits discriminated.
#[export] Hint Resolve emits_ret emits_raise emits_stuck emits_ask
  emits_bind emits_try_except : emits.
#[export] Hint Extern 2 (emits _ (perform _ _)) =>
  (apply emits_perform; reflexivity) : emits.
#[export] Hint Extern 2 (emits _ (perform_total _ _)) =>
  (apply emits_perform_total; reflexivity) : emits.
#[export] Hint Extern 5 (emits _ (match ?x with _ => _ end)) => destruct x : emits.
#[export] Hint Extern 5 (emits _ (if ?x then _ else _)) => destruct x : emits.

(* ================================================================== *)
(** ** Facts about the downloads *)

Section DownloadFacts.
Context {E : Type} (P : Platform E).
Implicit Types e : E.

(** Unfold one run of the code down to the platform's answers. *)
Ltac unfold_run :=
  unfold _download_image_from_url, _send_single_photo_with_caption,
    resend_photo_without_caption, send_photo, send_document, send_media_group, delete_message, read_bytes,
    message_id_of, attempt, try_except, bind, perform, perform_total, ret, raise,
    result, final, trace in *.

Lemma download_returns url : returns (_download_image_from_url P url).
Proof.
  intros e. unfold_run.
  repeat (case_match; simplify_eq/=); eauto.
Qed.

Lemma download_emits url : emits is_download_call (_download_image_from_url P url).
Proof. unfold _download_image_from_url. eauto 20 with emits. Qed.

Lemma download_fetched url e :
  fetched (trace (_download_image_from_url P url e)) `sublist_of` [url].
Proof.
  unfold_run. unfold fetched.
  repeat (case_match; simplify_eq/=);
    repeat first [ apply sublist_nil_l | by apply sublist_skip | by constructor ].
Qed.

(** The target of a download that succeeded. *)
Lemma download_target url e p :
  result (_download_image_from_url P url e) = Ok (Some p) ->
  exists name,
    url_name P url = Some name /\
    if named_by_url P url
    then p = path_join (temp_dir P) name
    else exists e1, p = path_join (temp_dir P) ((uuid4_hex P e1).1 +:+ ".jpeg").
Proof.
  unfold named_by_url, url_name. unfold_run.
  destruct (url_filename P url) as [err|name].
  { repeat (case_match; simplify_eq/=); intros; simplify_eq. }
  intros Hp. exists name. split; [reflexivity|]. revert Hp.
  rewrite <- negb_andb.
  destruct (Py.truthy_str name && has_image_suffix name); cbn.
  - repeat (case_match; simplify_eq/=); intros; simplify_eq; reflexivity.
  - repeat (case_match; simplify_eq/=); intros; simplify_eq.
    match goal with H : uuid4_hex P ?e1 = _ |- _ => exists e1; by rewrite H end.
Qed.

Lemma download_images_spec urls : forall acc e,
  exists rs e' t,
    downloads P urls e rs e' t /\
    download_images P urls acc e = (Ok (acc ++ omap id rs), e', t).
Proof.
  induction urls as [|url urls IH]; intros acc e.
  - exists [], e, []. split; [constructor|]. cbn. by rewrite app_nil_r.
  - cbn [download_images]. rewrite run_bind.
    destruct (download_returns url e) as [r Hr].
    destruct (_download_image_from_url P url e) as [[r0 e1] t1] eqn:Hd.
    cbn in Hr; subst r0.
    destruct (IH (match r with Some p => acc ++ [p] | None => acc end) e1)
      as (rs & e' & t & Hds & Hrun).
    exists (r :: rs), e', (t1 ++ t). split.
    + econstructor; eauto.
    + rewrite Hrun. cbn. destruct r; cbn; [by rewrite <- app_assoc | done].
Qed.

Lemma downloads_run urls e rs e' t :
  downloads P urls e rs e' t ->
  forall acc, download_images P urls acc e = (Ok (acc ++ omap id rs), e', t).
Proof.
  induction 1 as [|url urls e r e1 t1 rs e2 t2 Hd _ IH]; intros acc.
  - cbn. by rewrite app_nil_r.
  - cbn [download_images]. rewrite run_bind, Hd, IH. cbn.
    destruct r; cbn; [by rewrite <- app_assoc | done].
Qed.

Lemma downloads_length urls e rs e' t :
  downloads P urls e rs e' t -> length rs = length urls.
Proof. induction 1; cbn; congruence. Qed.

Lemma downloads_only urls e rs e' t :
  downloads P urls e rs e' t -> only is_download_call t.
Proof.
  induction 1 as [|url urls e r e1 t1 rs e2 t2 Hd _ IH]; [constructor|].
  apply Forall_app; split; [|exact IH].
  pose proof (download_emits url e) as Hem. by rewrite Hd in Hem.
Qed.

Lemma downloads_fetched urls e rs e' t :
  downloads P urls e rs e' t -> fetched t `sublist_of` urls.
Proof.
  induction 1 as [|url urls e r e1 t1 rs e2 t2 Hd _ IH]; [constructor|].
  unfold fetched. rewrite omap_app.
  change (url :: urls) with ([url] ++ urls). apply sublist_app; [|exact IH].
  pose proof (download_fetched url e) as Hf. by rewrite Hd in Hf.
Qed.

End DownloadFacts.

(* ================================================================== *)
(** ** Facts about the sends *)

Section SendFacts.
Context {E : Type} (P : Platform E).
Implicit Types e : E.

Lemma read_all_emits files : emits is_preview_call (read_all P files).
Proof. induction files; cbn [read_all]; unfold read_bytes; eauto 10 with emits. Qed.

Lemma read_all_uncaptioned files e : captioned_modes (trace (read_all P files e)) = [].
Proof.
  revert e. induction files as [|f files IH]; intros e; [done|].
  cbn [read_all]. unfold read_bytes. rewrite run_bind. unfold perform at 1.
  destruct (path_read_bytes P f e) as [[err|b] e1]; [done|].
  cbn. rewrite run_bind. specialize (IH e1).
  destruct (read_all P files e1) as [[[bs|x|] e2] t2]; cbn in *;
    rewrite ?app_nil_r; exact IH.
Qed.

Lemma read_all_length files : forall e photos e1 t1,
  read_all P files e = (Ok photos, e1, t1) -> length photos = length files.
Proof.
  induction files as [|f files IH]; intros e photos e1 t1; cbn [read_all].
  - by intros [= <- _ _].
  - unfold read_bytes. rewrite run_bind. unfold perform at 1.
    destruct (path_read_bytes P f e) as [[err|b] e2]; [done|].
    rewrite run_bind. specialize (IH e2).
    destruct (read_all P files e2) as [[[bs|x|] e3] t3]; cbn; intros Heq; simplify_eq.
    cbn. f_equal. by eapply IH.
Qed.

Lemma document_group_emits total files : forall i,
  emits is_originals_call (document_group P total i files).
Proof.
  induction files; intros i; cbn [document_group]; unfold read_bytes;
    eauto 10 with emits.
Qed.

Lemma document_group_first total files i e items e' t :
  document_group P total i files e = (Ok items, e', t) ->
  files <> [] -> document_first items = true.
Proof.
  destruct files as [|f files]; [done|]. intros Hrun _. revert Hrun.
  cbn [document_group]. unfold read_bytes. rewrite run_bind. unfold perform at 1.
  destruct (path_read_bytes P f e) as [[err|b] e1]; [done|].
  rewrite run_bind.
  destruct (document_group P total (S i) files e1) as [[[more|x|] e2] t2]; cbn;
    intros; simplify_eq. by destruct (i =? 0).
Qed.

Lemma send_documents_emits chat_id files reply_to :
  files <> [] -> emits is_originals_call (send_documents P chat_id files reply_to).
Proof.
  intros Hne e. unfold send_documents.
  destruct files as [|f [|g files]]; [done| |].
  - revert e. change (emits is_originals_call
      (document <- read_bytes P f ;;
       send_document P chat_id document (Url.path_name f) ORIGINAL_CAPTION reply_to)).
    unfold read_bytes, send_document. eauto 10 with emits.
  - rewrite run_bind.
    pose proof (document_group_emits (length (f :: g :: files)) (f :: g :: files) 0 e) as Hg.
    destruct (document_group P _ 0 (f :: g :: files) e) as [[[items|x|] e1] t1] eqn:Hrun;
      [apply document_group_first in Hrun; [|done] | |];
      cbn in *; try exact Hg.
    apply Forall_app; split; [exact Hg|].
    unfold send_media_group, bind, perform, ret.
    destruct (bot_send_media_group P chat_id items reply_to e1) as [[err|ms] e2];
      cbn; repeat constructor; exact Hrun.
Qed.

Lemma send_original_files_rec_emits budget chat_id files :
  forall preview trigger,
    emits is_originals_call (send_original_files_rec P budget chat_id files preview trigger).
Proof.
  induction budget as [|budget IH]; intros preview trigger;
    cbn [send_original_files_rec];
    (destruct files as [|f files]; [apply emits_ret|]);
    cbn [Py.truthy_list negb];
    (apply emits_try_except;
     [ apply emits_bind; [by apply send_documents_emits | intros; apply emits_ret]
     | intros x; destruct (retry_with_trigger preview trigger); eauto with emits ]).
Qed.

(** The retry condition leaves no retry for the nested call, and the
    first call did use the preview id. *)
Lemma retry_with_trigger_None trigger : retry_with_trigger None trigger = false.
Proof. reflexivity. Qed.

Lemma retry_with_trigger_target preview trigger :
  retry_with_trigger preview trigger = true ->
  Py.or_oint preview trigger = preview /\ Py.or_oint None trigger = trigger /\
  preview <> trigger /\ Py.truthy_oint preview = true /\ Py.truthy_oint trigger = true.
Proof.
  unfold retry_with_trigger, Py.or_oint. intros H.
  apply andb_prop in H as [H Hne]. apply andb_prop in H as [Hp Ht].
  rewrite Hp. repeat split; try done.
  apply negb_true_iff, bool_decide_eq_false in Hne. exact Hne.
Qed.

(** One attempt at the documents, as a boolean. *)
Lemma send_documents_unstuck chat_id files reply_to e :
  result (send_documents P chat_id files reply_to e) <> Stuck.
Proof.
  unfold send_documents. destruct files as [|f [|g files]].
  - unfold send_media_group, bind, perform, ret, result; cbn.
    by repeat (case_match; simplify_eq/=).
  - unfold send_document, read_bytes, bind, perform, ret, result; cbn.
    by repeat (case_match; simplify_eq/=).
  - rewrite run_bind.
    assert (Hg : forall total i fs e0, result (document_group P total i fs e0) <> Stuck).
    { clear. intros total i fs. revert i.
      induction fs as [|f fs IH]; intros i e0; [done|].
      cbn [document_group]. unfold read_bytes. rewrite run_bind. unfold perform at 1.
      destruct (path_read_bytes P f e0) as [[err|b] e1]; [done|].
      rewrite run_bind. specialize (IH (S i) e1).
      destruct (document_group P total (S i) fs e1) as [[[more|x|] e2] t2]; done. }
    specialize (Hg (length (f :: g :: files)) 0 (f :: g :: files) e).
    destruct (document_group P _ 0 (f :: g :: files) e) as [[[items|x|] e1] t1]; [|done|done].
    unfold send_media_group, bind, perform, ret, result; cbn.
    by repeat (case_match; simplify_eq/=).
Qed.

(** Without a preview id there is one attempt, at the trigger id. *)
Lemma send_original_files_rec_no_preview budget chat_id files trigger e :
  files <> [] ->
  let only_try := send_documents P chat_id files trigger e in
  send_original_files_rec P budget chat_id files None trigger e =
  (match result only_try with Ok _ => Ok true | _ => Ok false end,
   final only_try, trace only_try).
Proof.
  intros Hne only_try. subst only_try.
  assert (Ht : Py.truthy_list files = true) by by destruct files.
  pose proof (send_documents_unstuck chat_id files trigger e) as Hs.
  destruct budget; cbn [send_original_files_rec]; rewrite Ht; cbn [negb];
    rewrite retry_with_trigger_None;
    change (Py.or_oint None trigger) with trigger;
    rewrite run_try_except, run_bind;
    destruct (send_documents P chat_id files trigger e) as [[[[]|x|] e1] t1];
    cbn in Hs |- *; rewrite ?app_nil_r; congruence.
Qed.

Local Arguments send_original_files_rec : simpl never.
Local Arguments send_documents : simpl never.

(** What [_send_original_files] does, exactly: one attempt at the reply
    target chosen by priority; if it fails and the retry condition holds,
    one more attempt at the trigger id; nothing else.  Any budget of at
    least one gives this. *)
Lemma send_original_files_rec_run budget chat_id files preview trigger e :
  files <> [] ->
  let first := send_documents P chat_id files (Py.or_oint preview trigger) e in
  let second := send_documents P chat_id files trigger (final first) in
  send_original_files_rec P (S budget) chat_id files preview trigger e =
  match result first with
  | Ok _ => (Ok true, final first, trace first)
  | _ =>
      if retry_with_trigger preview trigger then
        (match result second with Ok _ => Ok true | _ => Ok false end,
         final second, trace first ++ trace second)
      else (Ok false, final first, trace first)
  end.
Proof.
  intros Hne first second. subst first second.
  assert (Ht : Py.truthy_list files = true) by by destruct files.
  change (send_original_files_rec P (S budget) chat_id files preview trigger) with
    (if negb (Py.truthy_list files) then ret false else
     try_except
       (send_documents P chat_id files (Py.or_oint preview trigger) ;;; ret true)
       (fun _ => if retry_with_trigger preview trigger
                 then send_original_files_rec P budget chat_id files None trigger
                 else ret false)).
  rewrite Ht. cbn [negb].
  rewrite run_try_except, run_bind.
  pose proof (send_documents_unstuck chat_id files (Py.or_oint preview trigger) e) as Hs.
  destruct (send_documents P chat_id files (Py.or_oint preview trigger) e)
    as [[[[]|x|] e1] t1]; cbn in Hs |- *; [by rewrite app_nil_r| |congruence].
  destruct (retry_with_trigger preview trigger); cbn; [|by rewrite app_nil_r].
  by rewrite send_original_files_rec_no_preview.
Qed.

Lemma send_original_files_run chat_id files preview trigger e :
  files <> [] ->
  let first := send_documents P chat_id files (Py.or_oint preview trigger) e in
  let second := send_documents P chat_id files trigger (final first) in
  _send_original_files P chat_id files preview trigger e =
  match result first with
  | Ok _ => (Ok true, final first, trace first)
  | _ =>
      if retry_with_trigger preview trigger then
        (match result second with Ok _ => Ok true | _ => Ok false end,
         final second, trace first ++ trace second)
      else (Ok false, final first, trace first)
  end.
Proof. apply send_original_files_rec_run. Qed.

(** The budget of [_send_original_files] is enough: a larger one changes
    nothing. *)
Lemma send_original_files_budget budget chat_id files preview trigger e :
  send_original_files_rec P (S budget) chat_id files preview trigger e =
  _send_original_files P chat_id files preview trigger e.
Proof.
  destruct files as [|f files]; [reflexivity|].
  rewrite send_original_files_rec_run, send_original_files_run by done. reflexivity.
Qed.

Lemma send_original_files_returns chat_id files preview trigger :
  returns (_send_original_files P chat_id files preview trigger).
Proof.
  intros e. destruct files as [|f files]; [by exists false|].
  rewrite send_original_files_run by done. cbn zeta.
  repeat case_match; cbn; eauto.
Qed.

End SendFacts.

(* ================================================================== *)
(** ** Facts about the preview and the loop over the parse modes *)

Section PreviewFacts.
Context {E : Type} (P : Platform E).
Implicit Types e : E.

Lemma result_mk {A} (r : res A) e (t : list event) : result (r, e, t) = r.
Proof. reflexivity. Qed.
Lemma final_mk {A} (r : res A) e (t : list event) : final (r, e, t) = e.
Proof. reflexivity. Qed.
Lemma trace_mk {A} (r : res A) e (t : list event) : trace (r, e, t) = t.
Proof. reflexivity. Qed.

Lemma only_app Q (t1 t2 : list event) : only Q t1 -> only Q t2 -> only Q (t1 ++ t2).
Proof. intros; by apply Forall_app. Qed.

Lemma only_weaken (Q Q' : call -> bool) t :
  (forall c, Q c = true -> Q' c = true) -> only Q t -> only Q' t.
Proof. intros HQ H. eapply Forall_impl; [exact H | intros ev; apply HQ]. Qed.

Lemma only_none (Q Q' : call -> bool) t :
  (forall c, Q c = true -> Q' c = false) -> only Q t -> none Q' t.
Proof. intros HQ H. eapply Forall_impl; [exact H | intros ev; apply HQ]. Qed.

Lemma only_omap_nil {A} (Q : call -> bool) (f : call -> option A) t :
  (forall c, Q c = true -> f c = None) -> only Q t -> omap (fun ev => f ev.1) t = [].
Proof.
  intros HQ. induction 1 as [|ev t Hev _ IH]; [done|].
  cbn. by rewrite (HQ _ Hev).
Qed.

Lemma originals_not_preview c : is_originals_call c = true -> is_preview_send c = false.
Proof. destruct c; cbn; try done. by intros ->. Qed.

Lemma originals_uncaptioned c : is_originals_call c = true -> captioned_mode c = None.
Proof.
  destruct c as [| | | | | | | | | |? media ?| | | | | |]; cbn; try done.
  by destruct media as [|[] ?].
Qed.

Lemma captioned_group_first photos caption parse_mode :
  document_first (captioned_group photos caption parse_mode) = false.
Proof. destruct photos as [|p photos]; reflexivity. Qed.

Lemma plain_group_first photos : document_first (plain_group photos) = false.
Proof. destruct photos; reflexivity. Qed.

Lemma plain_group_uncaptioned chat_id photos reply_to :
  captioned_mode (SendMediaGroup chat_id (plain_group photos) reply_to) = None.
Proof. destruct photos; reflexivity. Qed.

Lemma captioned_group_mode chat_id photos caption parse_mode reply_to :
  captioned_mode (SendMediaGroup chat_id (captioned_group photos caption parse_mode) reply_to)
  = match photos with [] => None | _ :: _ => Some parse_mode end.
Proof. destruct photos; reflexivity. Qed.

Lemma send_single_emits chat_id caption reply_to parse_mode delete_id photo :
  emits is_preview_call
        (_send_single_photo_with_caption P chat_id caption reply_to parse_mode delete_id photo).
Proof.
  unfold _send_single_photo_with_caption, resend_photo_without_caption,
    send_photo, delete_message.
  eauto 20 with emits.
Qed.

Lemma send_preview_group_emits chat_id media reply_to :
  document_first media = false ->
  emits is_preview_call (send_media_group P chat_id media reply_to).
Proof. intros H. apply emits_perform. cbn. by rewrite H. Qed.

Lemma send_group_emits chat_id caption reply_to parse_mode delete_id files :
  emits is_preview_call
        (_send_photo_group_with_caption P chat_id caption reply_to parse_mode delete_id files).
Proof.
  unfold _send_photo_group_with_caption, resend_group_without_caption, delete_message.
  apply emits_bind; [apply read_all_emits|]. intros photos.
  apply emits_try_except.
  - apply emits_bind; [apply send_preview_group_emits, captioned_group_first|].
    eauto 10 with emits.
  - intros x. destruct (caption_too_long x); [|apply emits_raise].
    apply emits_bind; [apply read_all_emits|]. intros photos'.
    apply emits_bind; [apply send_preview_group_emits, plain_group_first|].
    eauto 10 with emits.
Qed.

Section Round.
Variables (chat_id : Z) (files : list Path)
          (caption_markdown caption_html : string)
          (reply_to : option Z) (initial_message trigger_message : option Message).

Local Abbreviation preview :=
  (send_preview P chat_id files caption_markdown caption_html reply_to initial_message).
Local Abbreviation originals := (send_originals_and_succeed P chat_id files trigger_message).
Local Abbreviation loop :=
  (try_parse_modes P chat_id files caption_markdown caption_html
                   reply_to initial_message trigger_message).

Lemma send_preview_emits pm pmid : emits is_preview_call (preview pm pmid).
Proof.
  unfold send_preview, message_id_of, read_bytes.
  destruct files as [|f [|g fs]].
  - apply emits_bind; [destruct initial_message; eauto with emits|]. intros.
    apply emits_bind; [apply send_group_emits|]. eauto with emits.
  - apply emits_bind; [eauto with emits|]. intros.
    apply emits_bind; [destruct initial_message; eauto with emits|]. intros.
    apply emits_bind; [apply send_single_emits|]. eauto with emits.
  - apply emits_bind; [destruct initial_message; eauto with emits|]. intros.
    apply emits_bind; [apply send_group_emits|]. eauto with emits.
Qed.

Lemma originals_run pmid e :
  files <> [] ->
  exists e' t, originals pmid e = (Ok true, e', t) /\ only is_originals_call t.
Proof.
  intros Hne. unfold send_originals_and_succeed.
  rewrite run_bind.
  destruct (send_original_files_returns P chat_id files pmid (message_id <$> trigger_message) e)
    as [b Hb].
  pose proof (send_original_files_rec_emits P 1 chat_id files pmid
                (message_id <$> trigger_message) e) as Hem.
  fold (_send_original_files P chat_id files pmid (message_id <$> trigger_message)) in Hem.
  destruct (_send_original_files P chat_id files pmid (message_id <$> trigger_message) e)
    as [[r e1] t1]. cbn in Hb, Hem. subst r.
  exists e1, (t1 ++ []). split; [reflexivity|]. by rewrite app_nil_r.
Qed.

(** One round of the loop. *)
Lemma loop_round pm rest pmid e :
  files <> [] ->
  loop (pm :: rest) pmid e =
  match preview pm pmid e with
  | (Ok pmid', e1, t1) =>
      (Ok true, final (originals pmid' e1), t1 ++ trace (originals pmid' e1))
  | (Raise x, e1, t1) =>
      if caption_too_long x
      then (Ok true, final (originals pmid e1), t1 ++ trace (originals pmid e1))
      else (result (loop rest pmid e1), final (loop rest pmid e1),
            t1 ++ trace (loop rest pmid e1))
  | (Stuck, e1, t1) => (Stuck, e1, t1)
  end.
Proof.
  intros Hne. cbn [try_parse_modes].
  rewrite run_bind. unfold attempt at 1. rewrite run_try_except, run_bind.
  destruct (send_preview P chat_id files caption_markdown caption_html reply_to
                         initial_message pm pmid e) as [[[pmid'|x|] e1] t1]; cbn.
  - rewrite app_nil_r. rewrite run_bind. unfold attempt. rewrite run_try_except, run_bind.
    destruct (originals_run pmid' e1 Hne) as (e2 & t2 & Hrun & _).
    rewrite Hrun. cbn. by rewrite !app_nil_r.
  - rewrite app_nil_r. destruct (caption_too_long x); cbn; [|done].
    destruct (originals_run pmid e1 Hne) as (e2 & t2 & Hrun & _).
    by rewrite Hrun.
  - done.
Qed.

Lemma captioned_modes_app t1 t2 :
  captioned_modes (t1 ++ t2) = captioned_modes t1 ++ captioned_modes t2.
Proof. apply omap_app. Qed.

Lemma send_single_captioned caption parse_mode delete_id photo e :
  captioned_modes
    (trace (_send_single_photo_with_caption P chat_id caption reply_to parse_mode
                                            delete_id photo e))
  `sublist_of` [parse_mode].
Proof.
  unfold _send_single_photo_with_caption, resend_photo_without_caption,
    send_photo, delete_message,
    try_except, bind, perform, ret, raise, trace, captioned_modes.
  repeat (case_match; simplify_eq/=);
    first [ apply sublist_nil_l | by constructor | by apply sublist_skip ].
Qed.

Lemma send_group_captioned caption parse_mode delete_id e :
  captioned_modes
    (trace (_send_photo_group_with_caption P chat_id caption reply_to parse_mode
                                           delete_id files e))
  `sublist_of` [parse_mode].
Proof.
  pose proof (read_all_uncaptioned P files) as Hr.
  unfold _send_photo_group_with_caption, resend_group_without_caption,
    send_media_group, delete_message,
    try_except, bind, perform, ret, raise, trace in *.
  repeat (case_match; simplify_eq);
    repeat match goal with
           | H : read_all P files ?e0 = _ |- _ =>
               let Hx := fresh "Hx" in
               pose proof (Hr e0) as Hx; rewrite H in Hx; cbn [snd] in Hx; clear H
           end;
    cbn [snd]; rewrite ?captioned_modes_app;
    repeat match goal with Hx : captioned_modes _ = [] |- _ => rewrite Hx; clear Hx end;
    unfold captioned_modes; cbn [omap list_omap fst app];
    rewrite ?plain_group_uncaptioned, ?captioned_group_mode;
    repeat (case_match; simplify_eq); cbn [app];
    first [ apply sublist_nil_l | by constructor ].
Qed.

Lemma send_preview_captioned pm pmid e :
  captioned_modes (trace (preview pm pmid e)) `sublist_of` [str_parse_mode pm].
Proof.
  unfold send_preview.
  assert (Hgroup : forall fs,
    fs = files ->
    captioned_modes
      (trace ((delete_message_id <- message_id_of initial_message ;;
               sent_messages <- _send_photo_group_with_caption
                                  P chat_id (if is_html pm then caption_html else caption_markdown)
                                  reply_to (str_parse_mode pm) delete_message_id files ;;
               ret (match sent_messages with
                    | first :: _ => Some (message_id first)
                    | [] => pmid
                    end)) e)) `sublist_of` [str_parse_mode pm]).
  { intros fs _. rewrite run_bind. unfold message_id_of.
    destruct initial_message as [m|]; cbn; [|apply sublist_nil_l].
    rewrite run_bind.
    pose proof (send_group_captioned (if is_html pm then caption_html else caption_markdown)
                  (str_parse_mode pm) (message_id m) e) as Hg.
    destruct (_send_photo_group_with_caption P chat_id _ reply_to _ _ files e)
      as [[[ms|x|] e1] t1]; cbn in Hg |- *; rewrite ?app_nil_r; exact Hg. }
  destruct files as [|f [|g fs]] eqn:Hfiles; try (by eapply Hgroup).
  rewrite run_bind. unfold read_bytes at 1, perform at 1.
  destruct (path_read_bytes P f e) as [[err|photo] e1]; [apply sublist_nil_l|].
  rewrite run_bind. unfold message_id_of.
  destruct initial_message as [m|]; cbn; [|apply sublist_nil_l].
  rewrite run_bind.
  pose proof (send_single_captioned (if is_html pm then caption_html else caption_markdown)
                (str_parse_mode pm) (message_id m) photo e1) as Hs.
  destruct (_send_single_photo_with_caption P chat_id _ reply_to _ _ photo e1)
    as [[[sent|x|] e2] t2]; cbn in Hs |- *; rewrite ?app_nil_r; exact Hs.
Qed.

Lemma loop_emits pms : forall pmid,
  files <> [] ->
  emits (fun c => is_preview_call c || is_originals_call c) (loop pms pmid).
Proof.
  induction pms as [|pm rest IH]; intros pmid Hne e; [constructor|].
  rewrite loop_round by done.
  pose proof (send_preview_emits pm pmid e) as Hp.
  assert (Hp' : only (fun c => is_preview_call c || is_originals_call c)
                     (trace (preview pm pmid e))).
  { eapply only_weaken; [|exact Hp]. by intros c ->. }
  assert (Ho : forall p e1, only (fun c => is_preview_call c || is_originals_call c)
                                 (trace (originals p e1))).
  { intros p e1. destruct (originals_run p e1 Hne) as (e2 & t2 & -> & Ht).
    eapply only_weaken; [|exact Ht]. intros c ->. apply orb_true_r. }
  destruct (preview pm pmid e) as [[[pmid'|x|] e1] t1]; cbn in Hp' |- *.
  - apply only_app; [exact Hp' | apply Ho].
  - destruct (caption_too_long x); cbn; (apply only_app; [exact Hp'|]);
      [apply Ho | by apply IH].
  - exact Hp'.
Qed.

(** Captioned sends happen in the order of the parse modes, at most one
    per parse mode. *)
Lemma loop_captioned pms : forall pmid e,
  files <> [] ->
  captioned_modes (trace (loop pms pmid e)) `sublist_of` (str_parse_mode <$> pms).
Proof.
  induction pms as [|pm rest IH]; intros pmid e Hne; [constructor|].
  rewrite loop_round by done.
  pose proof (send_preview_captioned pm pmid e) as Hp.
  assert (Ho : forall p e1, captioned_modes (trace (originals p e1)) = []).
  { intros p e1. destruct (originals_run p e1 Hne) as (e2 & t2 & -> & Ht).
    eapply only_omap_nil; [|exact Ht]. apply originals_uncaptioned. }
  change (str_parse_mode <$> pm :: rest)
    with ([str_parse_mode pm] ++ (str_parse_mode <$> rest)).
  destruct (preview pm pmid e) as [[[pmid'|x|] e1] t1]; cbn [trace snd] in Hp |- *.
  - rewrite captioned_modes_app, Ho, app_nil_r. by apply sublist_inserts_r.
  - destruct (caption_too_long x); cbn [trace snd].
    + rewrite captioned_modes_app, Ho, app_nil_r. by apply sublist_inserts_r.
    + rewrite captioned_modes_app. apply sublist_app; [exact Hp | by apply IH].
  - by apply sublist_inserts_r.
Qed.

End Round.
End PreviewFacts.

(* ================================================================== *)
(** ** The shape of the trace of a preview *)

Section ShapeFacts.
Context {E : Type} (P : Platform E).
Implicit Types e : E.
Implicit Types t p : list event.

Lemma quiet_app p t : quiet p -> quiet t -> quiet (p ++ t).
Proof. intros; by apply Forall_app. Qed.

Lemma only_quiet (Q : call -> bool) t :
  (forall ch d, Q (DeleteMessage ch d) = false) -> only Q t -> quiet t.
Proof.
  intros HQ Ht. eapply Forall_impl; [exact Ht|].
  intros [c o] Hc. cbn in *. destruct c; try done. by rewrite HQ in Hc.
Qed.

Lemma in_middle {A} (x y : A) (l1 l2 : list A) : y ∈ l1 ++ x :: y :: l2.
Proof. apply list_elem_of_In, in_or_app. right. right. by left. Qed.

Lemma in_head_app {A} (x : A) (l1 l2 : list A) : x ∈ (l1 ++ [x]) ++ l2.
Proof. apply list_elem_of_In, in_or_app. left. apply in_or_app. right. by left. Qed.

Lemma quiet_not_deleted t ev : quiet t -> ev ∈ t -> deleted ev = true -> False.
Proof.
  intros Hq Hin Hd. unfold quiet in Hq. rewrite Forall_forall in Hq.
  specialize (Hq _ Hin). congruence.
Qed.

Lemma check_delivered_sound t : check_delivered t = true -> delivered_trace t.
Proof.
  induction t as [|ev rest IH]; [done|].
  intros Hc.
  assert (Hcase :
    (exists c ch d, ev = (c, None) /\ rest = [(DeleteMessage ch d, None)] /\
                    is_preview_send c = true) \/
    (deleted ev = false /\ check_delivered rest = true)).
  { cbn [check_delivered] in Hc.
    destruct ev as [c [err|]].
    - right. apply andb_prop in Hc as [H1 H2]. split; [by apply negb_true_iff|done].
    - destruct rest as [|[c' o'] rest']; [by rewrite andb_false_r in Hc|].
      destruct c'; try (right; apply andb_prop in Hc as [H1 H2];
                        split; [by apply negb_true_iff|done]).
      destruct o' as [err'|];
        [right; apply andb_prop in Hc as [H1 H2]; split; [by apply negb_true_iff|done]|].
      destruct rest' as [|ev'' rest''];
        [|right; apply andb_prop in Hc as [H1 H2]; split; [by apply negb_true_iff|done]].
      left. eauto 10. }
  destruct Hcase as [(c & ch & d & -> & -> & Hs)|[Hd Hrest]].
  - exists [], c, ch, d. repeat split; [constructor|done].
  - destruct (IH Hrest) as (t0 & c & ch & d & -> & Hq & Hs).
    exists (ev :: t0), c, ch, d. repeat split; [by constructor|done].
Qed.

Lemma check_failed_sound t : check_failed t = true -> failed_trace t.
Proof.
  unfold check_failed, failed_trace, ends_unsent. intros H.
  apply andb_prop in H as [Hq Hl]. split.
  - rewrite List.forallb_forall in Hq. apply Forall_forall.
    intros ev Hin. apply list_elem_of_In in Hin. by apply negb_true_iff, Hq.
  - destruct (last t) as [[c [err|]]|]; [done| |done]. by apply negb_true_iff.
Qed.

Lemma delivered_prefix p t : quiet p -> delivered_trace t -> delivered_trace (p ++ t).
Proof.
  intros Hp (t0 & c & ch & d & -> & Hq & Hs).
  exists (p ++ t0), c, ch, d. rewrite app_assoc. repeat split; [by apply quiet_app|done].
Qed.

Lemma failed_prefix p t :
  quiet p -> ends_unsent p -> failed_trace t -> failed_trace (p ++ t).
Proof.
  intros Hp He [Hq Hl]. split; [by apply quiet_app|].
  unfold ends_unsent in *. destruct t as [|ev t] using rev_ind.
  - by rewrite app_nil_r.
  - rewrite app_assoc, last_snoc. by rewrite last_snoc in Hl.
Qed.

Lemma reads_quiet t : only is_read_call t -> quiet t.
Proof. by apply only_quiet. Qed.

Lemma reads_unsent t : only is_read_call t -> ends_unsent t.
Proof.
  intros Ht. unfold ends_unsent.
  destruct (last t) as [[c [err|]]|] eqn:Hl; try done.
  apply last_Some_elem_of in Hl. unfold only in Ht. rewrite Forall_forall in Ht.
  specialize (Ht _ Hl). by destruct c.
Qed.

Lemma reads_failed t : only is_read_call t -> failed_trace t.
Proof. intros; split; [by apply reads_quiet | by apply reads_unsent]. Qed.

Lemma read_all_reads files : emits is_read_call (read_all P files).
Proof. induction files; cbn [read_all]; unfold read_bytes; eauto 10 with emits. Qed.

(** Decide the shape of a trace made of read segments, written-out events
    and one segment whose shape is known. *)
Ltac shape :=
  cbn [app]; rewrite ?app_nil_r;
  repeat match goal with
    | |- delivered_trace (?p ++ ?t) => apply delivered_prefix; [by apply reads_quiet|]
    | |- failed_trace (?p ++ ?t) =>
        apply failed_prefix; [by apply reads_quiet | by apply reads_unsent |]
    | |- delivered_trace (?x :: ?y :: ?t) =>
        first [ apply check_delivered_sound; cbn;
                by rewrite ?captioned_group_first, ?plain_group_first
              | apply (delivered_prefix [x; y]); [by repeat constructor|]
              | apply (delivered_prefix [x]); [by repeat constructor|] ]
    | |- delivered_trace (?x :: ?t) =>
        apply (delivered_prefix [x]); [by repeat constructor|]
    | |- failed_trace (?x :: ?y :: ?t) =>
        first [ by apply check_failed_sound
              | apply (failed_prefix [x; y]); [by repeat constructor | done |]
              | apply (failed_prefix [x]); [by repeat constructor | done |] ]
    | |- failed_trace (?x :: ?t) =>
        first [ by apply check_failed_sound
              | apply (failed_prefix [x]); [by repeat constructor | done |] ]
    | |- failed_trace ?t => first [ assumption | by apply reads_failed ]
    | |- delivered_trace ?t => assumption
    end.

Lemma read_all_unstuck files e : result (read_all P files e) <> Stuck.
Proof.
  revert e. induction files as [|f files IH]; intros e; [done|].
  cbn [read_all]. unfold read_bytes. rewrite run_bind. unfold perform at 1.
  destruct (path_read_bytes P f e) as [[err|b] e1]; [done|].
  rewrite run_bind. specialize (IH e1).
  destruct (read_all P files e1) as [[[photos|x|] e2] t2]; done.
Qed.

Lemma send_single_shape chat_id caption reply_to parse_mode delete_id photo e :
  preview_shape
    (_send_single_photo_with_caption P chat_id caption reply_to parse_mode delete_id photo e).
Proof.
  unfold preview_shape, _send_single_photo_with_caption, resend_photo_without_caption,
    send_photo, delete_message, try_except, bind, perform, ret, raise, result, trace.
  repeat (case_match; simplify_eq); cbn [fst snd app] in *; simplify_eq;
    first [ apply check_delivered_sound; reflexivity
          | apply check_failed_sound; reflexivity ].
Qed.

Lemma resend_group_shape chat_id reply_to delete_id files e :
  preview_shape (resend_group_without_caption P chat_id reply_to delete_id files e).
Proof.
  pose proof (read_all_reads files) as Hr.
  pose proof (read_all_unstuck files) as Hu.
  unfold preview_shape, resend_group_without_caption, send_media_group, delete_message,
    bind, perform, ret, result, trace.
  repeat (case_match; simplify_eq); cbn [fst snd] in *; simplify_eq;
    repeat match goal with
           | H : read_all P files ?e0 = _ |- _ =>
               let Hx := fresh "Hx" in
               let Hz := fresh "Hz" in
               pose proof (Hr e0) as Hx; pose proof (Hu e0) as Hz;
               rewrite H in Hx, Hz; cbn [trace snd] in Hx; clear H
           end;
    try done; shape.
Qed.

Lemma send_group_shape chat_id caption reply_to parse_mode delete_id files e :
  preview_shape
    (_send_photo_group_with_caption P chat_id caption reply_to parse_mode delete_id files e).
Proof.
  pose proof (read_all_reads files) as Hr.
  pose proof (read_all_unstuck files) as Hu.
  pose proof (resend_group_shape chat_id reply_to delete_id files) as Hh.
  unfold preview_shape in Hh |- *.
  unfold _send_photo_group_with_caption, send_media_group, delete_message,
    try_except, bind, perform, ret, raise.
  unfold result, trace in Hh |- *.
  repeat (case_match; simplify_eq); cbn [fst snd] in *; simplify_eq;
    repeat match goal with
           | H : read_all P files ?e0 = _ |- _ =>
               let Hx := fresh "Hx" in
               let Hz := fresh "Hz" in
               pose proof (Hr e0) as Hx; pose proof (Hu e0) as Hz;
               rewrite H in Hx, Hz; cbn [trace snd] in Hx; clear H
           | H : resend_group_without_caption P _ _ _ files ?e0 = _ |- _ =>
               let Hx := fresh "Hy" in
               pose proof (Hh e0) as Hx; rewrite H in Hx; cbn [fst snd] in Hx; clear H
           end;
    try done; shape.
Qed.

Section Round.
Variables (chat_id : Z) (files : list Path)
          (caption_markdown caption_html : string)
          (reply_to : option Z) (initial_message trigger_message : option Message).

Local Abbreviation preview :=
  (send_preview P chat_id files caption_markdown caption_html reply_to initial_message).
Local Abbreviation originals := (send_originals_and_succeed P chat_id files trigger_message).
Local Abbreviation loop :=
  (try_parse_modes P chat_id files caption_markdown caption_html
                   reply_to initial_message trigger_message).

Lemma send_preview_shape pm pmid e : preview_shape (preview pm pmid e).
Proof.
  unfold send_preview.
  assert (Hgroup :
    preview_shape
      ((delete_message_id <- message_id_of initial_message ;;
        sent_messages <- _send_photo_group_with_caption
                           P chat_id (if is_html pm then caption_html else caption_markdown)
                           reply_to (str_parse_mode pm) delete_message_id files ;;
        ret (match sent_messages with
             | first :: _ => Some (message_id first)
             | [] => pmid
             end)) e)).
  { rewrite run_bind. unfold message_id_of.
    destruct initial_message as [m|]; cbn [ret raise];
      [|by apply check_failed_sound].
    rewrite run_bind.
    pose proof (send_group_shape chat_id (if is_html pm then caption_html else caption_markdown)
                  reply_to (str_parse_mode pm) (message_id m) files e) as Hg.
    destruct (_send_photo_group_with_caption P chat_id _ reply_to _ _ files e)
      as [[[ms|x|] e1] t1]; unfold preview_shape in *; cbn in Hg |- *;
      rewrite ?app_nil_r; exact Hg. }
  destruct files as [|f [|g fs]] eqn:Hfiles; try exact Hgroup.
  rewrite run_bind. unfold read_bytes at 1, perform at 1.
  destruct (path_read_bytes P f e) as [[err|photo] e1]; [by apply check_failed_sound|].
  rewrite run_bind. unfold message_id_of.
  destruct initial_message as [m|]; cbn [ret raise];
    [|by apply check_failed_sound].
  rewrite run_bind.
  pose proof (send_single_shape chat_id (if is_html pm then caption_html else caption_markdown)
                reply_to (str_parse_mode pm) (message_id m) photo e1) as Hs.
  destruct (_send_single_photo_with_caption P chat_id _ reply_to _ _ photo e1)
    as [[[sent|x|] e2] t2]; unfold preview_shape in *; cbn in Hs |- *;
    rewrite ?app_nil_r; try done.
  - apply (delivered_prefix [_]); [by repeat constructor | exact Hs].
  - apply (failed_prefix [_]); [by repeat constructor | done | exact Hs].
Qed.

(** Where a send followed by a successful deletion can sit in [p ++ t]
    when no deletion succeeded in [p]. *)
Lemma split_after_quiet p : forall t t1 x y t2,
  quiet p ->
  p ++ t = t1 ++ x :: y :: t2 ->
  deleted y = true ->
  (exists t1', t1 = p ++ t1' /\ t = t1' ++ x :: y :: t2) \/
  (exists p', p = p' ++ [x] /\ t = y :: t2 /\ t1 = p').
Proof.
  induction p as [|a p IH]; intros t t1 x y t2 Hq Heq Hy.
  - left. by exists t1.
  - apply Forall_cons in Hq as [Ha Hq].
    destruct t1 as [|b t1]; cbn in Heq; simplify_eq.
    + destruct p as [|b p]; cbn in *; simplify_eq.
      * right. by exists [].
      * apply Forall_cons in Hq as [Hb _]. congruence.
    + destruct (IH _ _ _ _ _ Hq H0 Hy) as [(t1' & -> & ->)|(p' & -> & -> & ->)].
      * left. by exists t1'.
      * right. by exists (b :: p').
Qed.

Lemma originals_quiet t : only is_originals_call t -> quiet t.
Proof. by apply only_quiet. Qed.

(** After a preview send and the deletion of the placeholder have both
    succeeded, the loop returns [True] and what follows is one run of
    originals delivery. *)
Lemma loop_delivered pms : forall pmid e t1 c ch d t2,
  files <> [] ->
  trace (loop pms pmid e) = t1 ++ (c, None) :: (DeleteMessage ch d, None) :: t2 ->
  is_preview_send c = true ->
  result (loop pms pmid e) = Ok true /\
  exists pmid' e', t2 = trace (originals pmid' e').
Proof.
  induction pms as [|pm rest IH]; intros pmid e t1 c ch d t2 Hne Htrace Hc.
  { cbn in Htrace. by destruct t1. }
  rewrite loop_round in Htrace |- * by done.
  pose proof (send_preview_shape pm pmid e) as Hshape.
  assert (Hd : deleted (DeleteMessage ch d, None) = true) by reflexivity.
  destruct (preview pm pmid e) as [[[pmid'|x|] e1] tp]; unfold preview_shape in Hshape;
    cbn [result trace fst snd] in Hshape.
  - destruct (originals_run P chat_id files trigger_message pmid' e1 Hne)
      as (e2 & to & Hrun & Hto).
    cbn [result final trace fst snd] in Htrace |- *.
    assert (Hto' : trace (originals pmid' e1) = to) by by rewrite Hrun.
    rewrite Hto' in Htrace. clear Hrun.
    destruct Hshape as (t0 & c' & ch' & d' & -> & Hq & Hs).
    rewrite <- app_assoc in Htrace.
    destruct (split_after_quiet _ _ _ _ _ _ Hq Htrace Hd)
      as [(t1' & -> & Heq)|(p' & _ & Heq & _)];
      [|cbn in Heq; simplify_eq; cbn in Hs; done].
    destruct t1' as [|a [|b t1']]; cbn in Heq; simplify_eq.
    + split; [done|]. by exists pmid', e1.
    + exfalso. apply originals_quiet in Hto.
      eapply quiet_not_deleted; [exact Hto| |exact Hd].
      match goal with H : trace _ = _ ++ _ :: _ :: _ |- _ => rewrite H end.
      apply in_middle.
  - destruct Hshape as [Hq Hl].
    destruct (caption_too_long x).
    + destruct (originals_run P chat_id files trigger_message pmid e1 Hne)
        as (e2 & to & Hrun & Hto).
      rewrite Hrun in Htrace. cbn [result final trace fst snd] in Htrace.
      exfalso. eapply (quiet_not_deleted (tp ++ to));
        [apply quiet_app; [done | by apply originals_quiet]| |exact Hd].
      rewrite Htrace. apply in_middle.
    + cbn [result final trace fst snd] in Htrace |- *.
      destruct (split_after_quiet _ _ _ _ _ _ Hq Htrace Hd)
        as [(t1' & -> & Heq)|(p' & -> & _ & _)].
      * by eapply IH.
      * unfold ends_unsent in Hl. rewrite last_snoc in Hl. congruence.
  - done.
Qed.

(** The loop always returns a boolean: it neither raises nor gets stuck. *)
Lemma loop_returns pms : forall pmid,
  files <> [] -> returns (loop pms pmid).
Proof.
  induction pms as [|pm rest IH]; intros pmid Hne e; [by exists false|].
  rewrite loop_round by done.
  pose proof (send_preview_shape pm pmid e) as Hshape.
  destruct (preview pm pmid e) as [[[pmid'|x|] e1] tp]; unfold preview_shape in Hshape;
    cbn [result trace fst snd] in Hshape; [by exists true| |done].
  destruct (caption_too_long x); [by exists true|].
  destruct (IH pmid Hne e1) as [b Hb]. by exists b.
Qed.

End Round.

(** The whole of [_send_imagine_result]: the batch of downloads, then, if
    some file was downloaded, the loop over the parse modes. *)
Lemma send_imagine_result_run chat_id image_urls params reply_to initial_message
      final_answer trigger_message e :
  exists rs e1 t1,
    downloads P (take 10 image_urls) e rs e1 t1 /\
    download_images P (take 10 image_urls) [] e = (Ok (omap id rs), e1, t1) /\
    let o := _send_imagine_result P chat_id image_urls (Some params) reply_to initial_message
                                  final_answer trigger_message e in
    match omap id rs with
    | [] => o = (Ok false, e1, t1)
    | downloaded_files =>
        exists caption_markdown caption_html,
          let l := try_parse_modes P chat_id downloaded_files caption_markdown caption_html
                                   reply_to initial_message trigger_message
                                   PARSE_MODES None e1 in
          o = (result l, final l, t1 ++ trace l)
    end.
Proof.
  destruct (download_images_spec P (take 10 image_urls) [] e) as (rs & e1 & t1 & Hds & Hrun).
  cbn [app] in Hrun.
  exists rs, e1, t1. split; [done|]. split; [done|]. cbn zeta.
  unfold _send_imagine_result.
  destruct image_urls as [|url urls].
  { cbn in Hrun. inversion Hds; subst. by simplify_eq. }
  cbn [Py.truthy_list negb]. rewrite run_bind, Hrun.
  destruct (omap id rs) as [|f fs]; cbn [Py.truthy_list negb].
  { cbn. by rewrite app_nil_r. }
  destruct (Py.truthy_ostr final_answer); rewrite run_bind_ret; eexists _, _; reflexivity.
Qed.

Lemma send_imagine_result_unfold_any chat_id image_urls params reply_to initial_message
      final_answer trigger_message e :
  exists rs e1 t1,
    downloads P (take 10 image_urls) e rs e1 t1 /\
    _send_imagine_result P chat_id image_urls params reply_to initial_message
                         final_answer trigger_message e =
    match omap id rs with
    | [] => (Ok false, e1, t1)
    | downloaded_files =>
        match captions_of final_answer params with
        | inr chosen =>
            let l := try_parse_modes P chat_id downloaded_files chosen.1 chosen.2
                                     reply_to initial_message trigger_message
                                     PARSE_MODES None e1 in
            (result l, final l, t1 ++ trace l)
        | inl err => (Raise err, e1, t1)
        end
    end.
Proof.
  destruct (download_images_spec P (take 10 image_urls) [] e) as (rs & e1 & t1 & Hds & Hrun).
  cbn [app] in Hrun.
  exists rs, e1, t1. split; [done|].
  unfold _send_imagine_result, captions_of, chosen_captions.
  destruct image_urls as [|url urls].
  { cbn in Hrun. inversion Hds; subst. by simplify_eq. }
  cbn [Py.truthy_list negb]. rewrite run_bind, Hrun.
  destruct (omap id rs) as [|f fs]; cbn [Py.truthy_list negb].
  { cbn. by rewrite app_nil_r. }
  destruct params as [params|]; destruct (Py.truthy_ostr final_answer);
    rewrite ?run_bind_ret; try reflexivity.
  cbn. by rewrite app_nil_r.
Qed.

Lemma send_imagine_result_unfold chat_id image_urls params reply_to initial_message
      final_answer trigger_message e :
  exists rs e1 t1,
    downloads P (take 10 image_urls) e rs e1 t1 /\
    _send_imagine_result P chat_id image_urls (Some params) reply_to initial_message
                         final_answer trigger_message e =
    match omap id rs with
    | [] => (Ok false, e1, t1)
    | downloaded_files =>
        let l := try_parse_modes P chat_id downloaded_files
                                 (chosen_captions final_answer params).1
                                 (chosen_captions final_answer params).2
                                 reply_to initial_message trigger_message
                                 PARSE_MODES None e1 in
        (result l, final l, t1 ++ trace l)
    end.
Proof. apply (send_imagine_result_unfold_any chat_id image_urls (Some params)). Qed.

Lemma send_imagine_result_returns chat_id image_urls params reply_to initial_message
      final_answer trigger_message :
  returns (_send_imagine_result P chat_id image_urls (Some params) reply_to initial_message
                                final_answer trigger_message).
Proof.
  intros e.
  destruct (send_imagine_result_run chat_id image_urls params reply_to initial_message
              final_answer trigger_message e) as (rs & e1 & t1 & _ & _ & Hrun).
  cbn zeta in Hrun. destruct (omap id rs) as [|f fs].
  - rewrite Hrun. by exists false.
  - destruct Hrun as (cm & ch & ->).
    destruct (loop_returns chat_id (f :: fs) cm ch reply_to initial_message trigger_message
                PARSE_MODES None ltac:(done) e1) as [b Hb].
    by exists b.
Qed.

Lemma downloads_quiet t : only is_download_call t -> quiet t.
Proof. by apply only_quiet. Qed.

(** The same for the whole of [_send_imagine_result]. *)
Lemma send_imagine_result_delivered chat_id image_urls params reply_to initial_message
      final_answer trigger_message e t1 c ch d t2 :
  let o := _send_imagine_result P chat_id image_urls (Some params) reply_to initial_message
                                final_answer trigger_message e in
  trace o = t1 ++ (c, None) :: (DeleteMessage ch d, None) :: t2 ->
  is_preview_send c = true ->
  result o = Ok true /\
  exists files pmid e',
    files <> [] /\
    t2 = trace (send_originals_and_succeed P chat_id files trigger_message pmid e').
Proof.
  intros o Htrace Hc. subst o.
  destruct (send_imagine_result_run chat_id image_urls params reply_to initial_message
              final_answer trigger_message e) as (rs & e1 & tdl & Hds & _ & Hrun).
  cbn zeta in Hrun.
  assert (Hd : deleted (DeleteMessage ch d, None) = true) by reflexivity.
  pose proof (downloads_only P _ _ _ _ _ Hds) as Hdl.
  destruct (omap id rs) as [|f fs] eqn:Hfiles.
  - rewrite Hrun in Htrace. cbn [trace snd] in Htrace. exfalso.
    eapply (quiet_not_deleted tdl); [by apply downloads_quiet| |exact Hd].
    rewrite Htrace. apply in_middle.
  - destruct Hrun as (cm & ch' & Hrun). cbn zeta in Hrun. rewrite Hrun in Htrace |- *.
    cbn [result trace fst snd] in Htrace |- *.
    destruct (split_after_quiet _ _ _ _ _ _ (downloads_quiet _ Hdl) Htrace Hd)
      as [(t1' & -> & Heq)|(p' & -> & _ & _)].
    + destruct (loop_delivered chat_id (f :: fs) cm ch' reply_to initial_message
                  trigger_message PARSE_MODES None e1 t1' c ch d t2) as [Hr (p & e' & Ht)];
        [done|exact Heq|exact Hc|].
      split; [exact Hr|]. by exists (f :: fs), p, e'.
    + exfalso. unfold only in Hdl. rewrite Forall_forall in Hdl.
      specialize (Hdl (c, None)). cbn in Hdl.
      assert (is_download_call c = true) as Hx
          by (apply Hdl, list_elem_of_In, in_or_app; right; by left).
      by destruct c.
Qed.

End ShapeFacts.

(* ================================================================== *)
(** ** The delivery pipeline: claims *)

Section DeliveryClaims.
Context {E : Type} (P : Platform E).
Implicit Types e : E.

Lemma delivery_not_fetching c :
  is_preview_call c || is_originals_call c = true ->
  match c with HttpGet url => Some url | _ => None end = None.
Proof. by destruct c. Qed.

Lemma download_not_sending c : is_download_call c = true -> is_bot_call c = false.
Proof. by destruct c. Qed.

Lemma download_uncaptioned c : is_download_call c = true -> captioned_mode c = None.
Proof. by destruct c. Qed.

(** C2. Only the first ten URLs are fetched, one download per URL and in
    the order of the list; a failed download yields no file and the batch
    goes on; the files handed to the sends are the successful downloads,
    in that order. *)
Theorem download_batch_first_ten_in_order chat_id image_urls params reply_to
        initial_message final_answer trigger_message e :
  let o := _send_imagine_result P chat_id image_urls (Some params) reply_to initial_message
                                final_answer trigger_message e in
  exists rs e1 t1,
    downloads P (take 10 image_urls) e rs e1 t1 /\
    length rs = length (take 10 image_urls) /\
    download_images P (take 10 image_urls) [] e = (Ok (omap id rs), e1, t1) /\
    match omap id rs with
    | [] => o = (Ok false, e1, t1)
    | downloaded_files =>
        exists caption_markdown caption_html,
          let l := try_parse_modes P chat_id downloaded_files caption_markdown caption_html
                                   reply_to initial_message trigger_message
                                   PARSE_MODES None e1 in
          o = (result l, final l, t1 ++ trace l)
    end /\
    fetched (trace o) `sublist_of` take 10 image_urls /\
    length (fetched (trace o)) <= 10.
Proof.
  intros o. subst o.
  destruct (send_imagine_result_run P chat_id image_urls params reply_to initial_message
              final_answer trigger_message e) as (rs & e1 & t1 & Hds & Hdl & Hrun).
  cbn zeta in Hrun.
  exists rs, e1, t1. split; [done|]. split; [by eapply downloads_length|].
  split; [done|]. split; [exact Hrun|].
  assert (Hf : fetched (trace (_send_imagine_result P chat_id image_urls (Some params) reply_to
                                 initial_message final_answer trigger_message e))
               `sublist_of` take 10 image_urls).
  { pose proof (downloads_fetched P _ _ _ _ _ Hds) as Hfd.
    destruct (omap id rs) as [|f fs].
    - by rewrite Hrun.
    - destruct Hrun as (cm & ch & ->). cbn [trace snd].
      unfold fetched. rewrite omap_app.
      rewrite (only_omap_nil _ (fun c => match c with HttpGet url => Some url | _ => None end)
                 (trace _) delivery_not_fetching); [by rewrite app_nil_r|].
      by apply loop_emits. }
  split; [exact Hf|].
  apply sublist_length in Hf. rewrite length_take in Hf. lia.
Qed.

(** C7. When no file was downloaded, the pipeline returns [False] and its
    trace consists of the calls of the downloads alone: nothing is sent to
    Telegram and nothing is deleted. *)
Theorem no_download_no_send chat_id image_urls params reply_to
        initial_message final_answer trigger_message e :
  result (download_images P (take 10 image_urls) [] e) = Ok [] ->
  let o := _send_imagine_result P chat_id image_urls (Some params) reply_to initial_message
                                final_answer trigger_message e in
  result o = Ok false /\
  trace o = trace (download_images P (take 10 image_urls) [] e) /\
  only is_download_call (trace o) /\
  none is_bot_call (trace o).
Proof.
  intros Hnone o. subst o.
  destruct (send_imagine_result_run P chat_id image_urls params reply_to initial_message
              final_answer trigger_message e) as (rs & e1 & t1 & Hds & Hdl & Hrun).
  cbn zeta in Hrun. rewrite Hdl in Hnone |- *. cbn in Hnone.
  injection Hnone as Hnil. rewrite Hnil in Hrun. rewrite Hrun. cbn.
  pose proof (downloads_only P _ _ _ _ _ Hds) as Hd.
  repeat split; [exact Hd|].
  eapply only_none; [|exact Hd]. apply download_not_sending.
Qed.

(** One round of the loop, started without a preview id. *)
Lemma loop_step chat_id files cm ch reply_to initial_message trigger_message pm rest e :
  files <> [] ->
  let r := send_preview P chat_id files cm ch reply_to initial_message pm None e in
  let next := try_parse_modes P chat_id files cm ch reply_to initial_message
                              trigger_message rest None (final r) in
  let originals := send_originals_and_succeed P chat_id files trigger_message
                                              (preview_id_after r) (final r) in
  trace (try_parse_modes P chat_id files cm ch reply_to initial_message trigger_message
                         (pm :: rest) None e)
  = trace r ++ (if goes_on r then trace next else trace originals) /\
  result (try_parse_modes P chat_id files cm ch reply_to initial_message trigger_message
                          (pm :: rest) None e)
  = (if goes_on r then result next else Ok true).
Proof.
  intros Hne. cbn zeta. rewrite loop_round by done.
  pose proof (send_preview_shape P chat_id files cm ch reply_to initial_message pm None e)
    as Hshape.
  unfold goes_on, preview_id_after.
  destruct (send_preview P chat_id files cm ch reply_to initial_message pm None e)
    as [[[pmid'|x|] e1] t1]; unfold preview_shape in Hshape;
    cbn [result final trace fst snd] in *; [done| |done].
  by destruct (caption_too_long x).
Qed.

Lemma send_single_attempted chat_id caption reply_to parse_mode delete_id photo e :
  exists c o rest,
    trace (_send_single_photo_with_caption P chat_id caption reply_to parse_mode
                                           delete_id photo e) = (c, o) :: rest /\
    captioned_mode c = Some parse_mode /\ captioned_modes rest = [].
Proof.
  unfold _send_single_photo_with_caption, resend_photo_without_caption,
    send_photo, delete_message, try_except, bind, perform, ret, raise, trace.
  repeat (case_match; simplify_eq); cbn [fst snd app] in *; simplify_eq;
    eexists _, _, _; (split; [reflexivity|]); by split.
Qed.

Lemma resend_group_uncaptioned chat_id reply_to delete_id files e :
  captioned_modes (trace (resend_group_without_caption P chat_id reply_to delete_id files e))
  = [].
Proof.
  unfold resend_group_without_caption. rewrite run_bind.
  pose proof (read_all_uncaptioned P files e) as Hr.
  destruct (read_all P files e) as [[[photos|x|] e1] t1]; cbn [trace snd] in Hr |- *;
    try exact Hr.
  rewrite captioned_modes_app, Hr. cbn [app].
  unfold send_media_group, delete_message, bind, perform, ret, trace, captioned_modes.
  repeat (case_match; simplify_eq); cbn [omap list_omap fst snd app];
    by rewrite plain_group_uncaptioned.
Qed.

Lemma send_group_attempted chat_id caption reply_to parse_mode delete_id files e :
  2 <= length files ->
  attempted parse_mode
    (_send_photo_group_with_caption P chat_id caption reply_to parse_mode delete_id files e).
Proof.
  intros Hlen. unfold attempted, _send_photo_group_with_caption. rewrite run_bind.
  pose proof (read_all_reads P files e) as Hreads.
  pose proof (read_all_unstuck P files e) as Hunstuck.
  destruct (read_all P files e) as [[[photos|x|] e1] t1] eqn:Hread;
    cbn [result trace fst snd] in *; [|by right|done].
  apply read_all_length in Hread.
  destruct photos as [|photo photos]; [cbn in Hread; lia|].
  left. rewrite run_try_except, run_bind.
  unfold send_media_group at 1, perform at 1.
  destruct (bot_send_media_group P chat_id
              (captioned_group (photo :: photos) caption parse_mode) reply_to e1)
    as [[err|sent] e2]; cbn [result final trace fst snd].
  - destruct (caption_too_long err).
    + eexists t1, _, _, _. split; [reflexivity|]. split; [exact Hreads|].
      split; [reflexivity|]. apply resend_group_uncaptioned.
    + eexists t1, _, _, _. split; [reflexivity|]. split; [exact Hreads|]. by split.
  - unfold delete_message, bind, perform, ret.
    destruct (bot_delete_message P chat_id delete_id e2) as [[err|[]] e3];
      cbn [result final trace fst snd app].
    + destruct (caption_too_long err).
      * eexists t1, _, _, _. split; [reflexivity|]. split; [exact Hreads|].
        split; [reflexivity|].
        change (captioned_modes
                  ((DeleteMessage chat_id delete_id, Some err)
                   :: trace (resend_group_without_caption P chat_id reply_to delete_id
                                                          files e3)) = []).
        unfold captioned_modes. cbn [omap list_omap fst captioned_mode].
        apply resend_group_uncaptioned.
      * eexists t1, _, _, _. split; [reflexivity|]. split; [exact Hreads|]. by split.
    + eexists t1, _, _, _. split; [reflexivity|]. split; [exact Hreads|]. by split.
Qed.

(** Every round reads and then sends with its own parse mode, or fails
    before sending. *)
Lemma send_preview_attempted chat_id files cm ch reply_to initial_message pm pmid e :
  files <> [] ->
  attempted (str_parse_mode pm)
            (send_preview P chat_id files cm ch reply_to initial_message pm pmid e).
Proof.
  intros Hne. unfold send_preview, message_id_of.
  destruct files as [|f [|g fs]]; [done| |].
  - unfold read_bytes. rewrite run_bind. unfold perform at 1.
    destruct (path_read_bytes P f e) as [[err|photo] e1];
      [right; split; [by repeat constructor|done]|].
    destruct initial_message as [m|];
      [|right; split; [by repeat constructor|done]].
    rewrite run_bind_ret, run_bind.
    destruct (send_single_attempted chat_id (if is_html pm then ch else cm) reply_to
                (str_parse_mode pm) (message_id m) photo e1)
      as (c & o & rest & Htrace & Hmode & Hrest).
    left. exists [(ReadBytes f, None)], c, o, rest.
    split; [|split; [by repeat constructor|by split]].
    destruct (_send_single_photo_with_caption P chat_id _ reply_to _ _ photo e1)
      as [[[sent|x|] e2] t2]; cbn [result final trace fst snd] in *;
      rewrite Htrace, ?app_nil_r; reflexivity.
  - destruct initial_message as [m|]; [|right; split; [constructor|done]].
    rewrite run_bind_ret, run_bind.
    pose proof (send_group_attempted chat_id (if is_html pm then ch else cm) reply_to
                  (str_parse_mode pm) (message_id m) (f :: g :: fs) e
                  ltac:(cbn; lia)) as Hgroup.
    unfold attempted in *.
    destruct (_send_photo_group_with_caption P chat_id _ reply_to _ _ (f :: g :: fs) e)
      as [[[sent|x|] e2] t2]; cbn [result final trace fst snd] in *;
      rewrite ?app_nil_r; exact Hgroup.
Qed.

Lemma captioned_is_preview c mode :
  captioned_mode c = Some mode -> is_preview_send c = true.
Proof.
  destruct c as [| | | | | | | | | |? media ?| | | | | |]; cbn; try done.
  by destruct media as [|[] ?].
Qed.

Lemma reads_uncaptioned c : is_read_call c = true -> captioned_mode c = None.
Proof. by destruct c. Qed.

Lemma reads_send_nothing t :
  only is_read_call t -> existsb (fun ev : event => is_preview_send ev.1) t = false.
Proof.
  induction 1 as [|[c o] t Hc _ IH]; [done|]. cbn [existsb fst] in *.
  rewrite IH. by destruct c.
Qed.

(** The captioned sends of a round: its own parse mode, once, if it sends
    at all. *)
Lemma attempted_captioned {A} mode (r : res A * E * list event) :
  attempted mode r -> captioned_modes (trace r) = if sends r then [mode] else [].
Proof.
  unfold sends.
  intros [(reads & c & o & rest & -> & Hreads & Hc & Hrest)|[Hreads _]].
  - match goal with
    | |- context [existsb ?f ?l] =>
        assert (Hsends : existsb f l = true)
          by (apply existsb_exists; exists (c, o);
              split; [apply in_or_app; right; by left
                     | by apply (captioned_is_preview c mode)]);
        rewrite Hsends
    end.
    rewrite captioned_modes_app.
    change (captioned_modes ((c, o) :: rest))
      with (match captioned_mode c with
            | Some m => m :: captioned_modes rest
            | None => captioned_modes rest
            end).
    rewrite Hc, Hrest.
    unfold captioned_modes.
    by rewrite (only_omap_nil is_read_call _ reads reads_uncaptioned Hreads).
  - match goal with
    | |- context [existsb ?f ?l] =>
        assert (Hsends : existsb f l = false) by (by apply reads_send_nothing);
        rewrite Hsends
    end.
    unfold captioned_modes.
    by apply (only_omap_nil is_read_call _ _ reads_uncaptioned Hreads).
Qed.

(** C3, amended. The rounds of the loop come in the fixed order ["HTML"],
    ["MarkdownV2"], ["None"] (the strings [str(parse_mode)] hands to
    Telegram).  The round for ["HTML"] is always made, right after the
    downloads; the round for the next parse mode is made exactly when the
    round before raised an error that is not about the length of the
    caption; otherwise originals delivery follows and the pipeline returns
    [True]; it returns [False] exactly when all three rounds raised such an
    error.  Each round reads the files and then makes its first send with
    a caption in its own parse mode, or fails before any send.  The
    captioned sends of the run are therefore exactly those of the rounds
    made that got as far as sending, one each, in that order.  And
    once a preview send and the deletion of the placeholder that follows
    it have both succeeded, the pipeline returns [True], no further preview
    is sent, and what follows is originals delivery alone. *)
Theorem parse_modes_in_order_until_delivered chat_id image_urls params reply_to
        initial_message final_answer trigger_message e :
  let o := _send_imagine_result P chat_id image_urls (Some params) reply_to initial_message
                                final_answer trigger_message e in
  let batch := download_images P (take 10 image_urls) [] e in
  let downloaded_files := match result batch with Ok files => files | _ => [] end in
  let chosen := chosen_captions final_answer params in
  let round parse_mode w :=
    send_preview P chat_id downloaded_files chosen.1 chosen.2 reply_to initial_message
                 parse_mode None w in
  let html := round (Some HTML) (final batch) in
  let markdown := round (Some MARKDOWN_V2) (final html) in
  let plain := round None (final markdown) in
  let originals r :=
    trace (send_originals_and_succeed P chat_id downloaded_files trigger_message
                                      (preview_id_after r) (final r)) in
  (downloaded_files <> [] ->
   trace o =
     trace batch ++ trace html ++
     (if goes_on html
      then trace markdown ++
           (if goes_on markdown
            then trace plain ++ (if goes_on plain then [] else originals plain)
            else originals markdown)
      else originals html) /\
   result o = Ok (negb (goes_on html && goes_on markdown && goes_on plain)) /\
   attempted "HTML" html /\ attempted "MarkdownV2" markdown /\ attempted "None" plain /\
   captioned_modes (trace o) =
     (if sends html then ["HTML"] else []) ++
     (if goes_on html
      then (if sends markdown then ["MarkdownV2"] else []) ++
           (if goes_on markdown then (if sends plain then ["None"] else []) else [])
      else [])) /\
  captioned_modes (trace o) `sublist_of` ["HTML"; "MarkdownV2"; "None"] /\
  delivered_preview_is_final o.
Proof.
  cbn zeta. split; [|split].
  - destruct (send_imagine_result_unfold P chat_id image_urls params reply_to
                initial_message final_answer trigger_message e)
      as (rs & e1 & t1 & Hds & ->).
    rewrite (downloads_run P _ _ _ _ _ Hds []). cbn [app result final trace fst snd].
    intros Hne. destruct (omap id rs) as [|f fs]; [done|]. cbn zeta.
    rewrite result_mk, trace_mk. unfold PARSE_MODES.
    destruct (loop_step chat_id (f :: fs) (chosen_captions final_answer params).1
                (chosen_captions final_answer params).2 reply_to initial_message
                trigger_message (Some HTML) [Some MARKDOWN_V2; None] e1 ltac:(done))
      as [Ht1 Hr1].
    cbn zeta in Ht1, Hr1. rewrite Ht1, Hr1. clear Ht1 Hr1.
    destruct (loop_step chat_id (f :: fs) (chosen_captions final_answer params).1
                (chosen_captions final_answer params).2 reply_to initial_message
                trigger_message (Some MARKDOWN_V2) [None]
                (final (send_preview P chat_id (f :: fs)
                          (chosen_captions final_answer params).1
                          (chosen_captions final_answer params).2 reply_to
                          initial_message (Some HTML) None e1)) ltac:(done))
      as [Ht2 Hr2].
    cbn zeta in Ht2, Hr2. rewrite Ht2, Hr2. clear Ht2 Hr2.
    match goal with
    | |- context [try_parse_modes P chat_id (f :: fs) ?cm ?ch reply_to initial_message
                                  trigger_message [None] None ?w] =>
        destruct (loop_step chat_id (f :: fs) cm ch reply_to initial_message
                    trigger_message None [] w ltac:(done)) as [Ht3 Hr3]
    end.
    cbn zeta in Ht3, Hr3. rewrite Ht3, Hr3. clear Ht3 Hr3.
    cbn [try_parse_modes ret result trace fst snd].
    pose proof (downloads_only P _ _ _ _ _ Hds) as Hd.
    assert (Hdownloads : captioned_modes t1 = [])
      by (eapply only_omap_nil; [apply download_uncaptioned | exact Hd]).
    assert (Horiginals : forall pmid w,
      captioned_modes (trace (send_originals_and_succeed P chat_id (f :: fs)
                                trigger_message pmid w)) = []).
    { intros pmid w.
      destruct (originals_run P chat_id (f :: fs) trigger_message pmid w ltac:(done))
        as (e2 & t2 & -> & Ht).
      eapply only_omap_nil; [|exact Ht]. apply originals_uncaptioned. }
    assert (Hround : forall pm w,
      captioned_modes
        (trace (send_preview P chat_id (f :: fs) (chosen_captions final_answer params).1
                  (chosen_captions final_answer params).2 reply_to initial_message
                  pm None w))
      = if sends (send_preview P chat_id (f :: fs) (chosen_captions final_answer params).1
                    (chosen_captions final_answer params).2 reply_to initial_message
                    pm None w)
        then [str_parse_mode pm] else []).
    { intros pm w. by apply attempted_captioned, send_preview_attempted. }
    split; [reflexivity|]. split; [|split; [|split; [|split]]].
    + repeat match goal with |- context [goes_on ?r] => destruct (goes_on r) end;
        reflexivity.
    + by apply send_preview_attempted.
    + by apply send_preview_attempted.
    + by apply send_preview_attempted.
    + rewrite captioned_modes_app, Hdownloads, app_nil_l, captioned_modes_app, Hround.
      f_equal.
      destruct (goes_on _); [|apply Horiginals].
      rewrite captioned_modes_app, Hround. f_equal.
      destruct (goes_on _); [|apply Horiginals].
      rewrite captioned_modes_app, Hround.
      destruct (goes_on _); [by rewrite app_nil_r|].
      by rewrite Horiginals, app_nil_r.
  - destruct (send_imagine_result_run P chat_id image_urls params reply_to initial_message
                final_answer trigger_message e) as (rs & e1 & t1 & Hds & _ & Hrun).
    cbn zeta in Hrun.
    pose proof (downloads_only P _ _ _ _ _ Hds) as Hd.
    assert (Hcap : captioned_modes t1 = [])
      by (eapply only_omap_nil; [apply download_uncaptioned | exact Hd]).
    destruct (omap id rs) as [|f fs].
    + rewrite Hrun. cbn [trace snd]. rewrite Hcap. apply sublist_nil_l.
    + destruct Hrun as (cm & ch & ->). cbn [trace snd].
      rewrite captioned_modes_app, Hcap. cbn [app].
      by apply (loop_captioned P chat_id (f :: fs) cm ch reply_to initial_message
                  trigger_message PARSE_MODES None e1).
  - intros t1 c ch d t2 Htrace Hc.
    destruct (send_imagine_result_delivered P chat_id image_urls params reply_to
                initial_message final_answer trigger_message e t1 c ch d t2 Htrace Hc)
      as [Hr (files & pmid & e' & Hne & ->)].
    split; [exact Hr|].
    destruct (originals_run P chat_id files trigger_message pmid e' Hne)
      as (e2 & to & -> & Hto).
    split; [exact Hto|]. eapply only_none; [|exact Hto]. apply originals_not_preview.
Qed.

Lemma send_originals_trace chat_id files trigger_message pmid e :
  trace (send_originals_and_succeed P chat_id files trigger_message pmid e) =
  trace (_send_original_files P chat_id files pmid (message_id <$> trigger_message) e).
Proof.
  unfold send_originals_and_succeed. rewrite run_bind.
  destruct (_send_original_files P chat_id files pmid (message_id <$> trigger_message) e)
    as [[[b|x|] e1] t1]; cbn; by rewrite ?app_nil_r.
Qed.

(** C4, amended. When the captioned send of a single photo raises "caption
    is too long", the helper sends the photo once more, to the same reply
    target and without caption or parse mode, and makes no other send; for
    a batch the files are read again and the group is sent once more, no
    item carrying a caption.  The retry happens inside the helper, that
    is, in the same round of the loop.  Once such a send without caption
    and the deletion of the placeholder have both succeeded, the pipeline
    returns [True] and what follows is a run of [_send_original_files]. *)
Theorem caption_too_long_retries_once chat_id image_urls params reply_to
        initial_message final_answer trigger_message e :
  let o := _send_imagine_result P chat_id image_urls (Some params) reply_to initial_message
                                final_answer trigger_message e in
  (forall caption reply parse_mode delete_id photo e0 err e1,
      bot_send_photo P chat_id photo (Some caption) reply (Some parse_mode) e0
      = (inl err, e1) ->
      caption_too_long err = true ->
      calls (trace (_send_single_photo_with_caption P chat_id caption reply parse_mode
                                                    delete_id photo e0)) =
      [SendPhoto chat_id photo (Some caption) reply (Some parse_mode);
       SendPhoto chat_id photo None reply None]
      ++ match (bot_send_photo P chat_id photo None reply None e1).1 with
         | inr _ => [DeleteMessage chat_id delete_id]
         | inl _ => []
         end) /\
  (forall caption reply parse_mode delete_id files e0 photos e1 t1 err e2,
      read_all P files e0 = (Ok photos, e1, t1) ->
      bot_send_media_group P chat_id (captioned_group photos caption parse_mode) reply e1
      = (inl err, e2) ->
      caption_too_long err = true ->
      let retry := resend_group_without_caption P chat_id reply delete_id files e2 in
      trace (_send_photo_group_with_caption P chat_id caption reply parse_mode
                                            delete_id files e0) =
      t1 ++ (SendMediaGroup chat_id (captioned_group photos caption parse_mode) reply,
             Some err) :: trace retry /\
      forall photos' e3 t3,
        read_all P files e2 = (Ok photos', e3, t3) ->
        calls (trace retry) =
        calls t3 ++ SendMediaGroup chat_id (plain_group photos') reply
        :: match (bot_send_media_group P chat_id (plain_group photos') reply e3).1 with
           | inr _ => [DeleteMessage chat_id delete_id]
           | inl _ => []
           end) /\
  (forall t1 c ch d t2,
      trace o = t1 ++ (c, None) :: (DeleteMessage ch d, None) :: t2 ->
      is_preview_send c = true ->
      captioned_mode c = None ->
      result o = Ok true /\
      exists files pmid e',
        files <> [] /\
        t2 = trace (_send_original_files P chat_id files pmid
                                         (message_id <$> trigger_message) e')).
Proof.
  intros o. subst o. split; [|split].
  - intros caption reply parse_mode delete_id photo e0 err e1 Hsend Hlong.
    unfold _send_single_photo_with_caption, resend_photo_without_caption,
      send_photo, delete_message, try_except, bind, perform, ret, raise, trace, calls.
    rewrite Hsend. cbn. rewrite Hlong.
    destruct (bot_send_photo P chat_id photo None reply None e1) as [[err'|sent] e2]; cbn;
      [done|].
    by destruct (bot_delete_message P chat_id delete_id e2) as [[err'|[]] e3].
  - intros caption reply parse_mode delete_id files e0 photos e1 t1 err e2 Hread Hsend Hlong.
    split.
    + unfold _send_photo_group_with_caption. rewrite run_bind, Hread.
      rewrite run_try_except, run_bind. unfold send_media_group, perform.
      rewrite Hsend. cbn [result final trace fst snd]. rewrite Hlong.
      reflexivity.
    + intros photos' e3 t3 Hread'.
      unfold resend_group_without_caption. rewrite run_bind, Hread'.
      unfold send_media_group, delete_message, bind, perform, ret, trace, calls.
      destruct (bot_send_media_group P chat_id (plain_group photos') reply e3)
        as [[err'|ms] e4]; cbn; rewrite fmap_app; [done|].
      by destruct (bot_delete_message P chat_id delete_id e4) as [[err'|[]] e5].
  - intros t1 c ch d t2 Htrace Hc _.
    destruct (send_imagine_result_delivered P chat_id image_urls params reply_to
                initial_message final_answer trigger_message e t1 c ch d t2 Htrace Hc)
      as [Hr (files & pmid & e' & Hne & ->)].
    split; [exact Hr|]. exists files, pmid, e'. split; [exact Hne|].
    apply send_originals_trace.
Qed.

Lemma document_group_reads total files : forall i,
  emits is_read_call (document_group P total i files).
Proof.
  induction files; intros i; cbn [document_group]; unfold read_bytes;
    eauto 10 with emits.
Qed.

Lemma reads_no_target c :
  is_read_call c = true ->
  match c with
  | SendDocument _ _ _ _ reply_to => Some reply_to
  | SendMediaGroup _ media reply_to =>
      if document_first media then Some reply_to else None
  | _ => None
  end = None.
Proof. by destruct c. Qed.

(** One attempt at the documents makes at most one send, at the reply
    target it was given; it makes that send when it succeeds. *)
Lemma send_documents_targets chat_id files reply_to e :
  files <> [] ->
  let o := send_documents P chat_id files reply_to e in
  originals_targets (trace o) `sublist_of` [reply_to] /\
  (is_ok (result o) = true -> originals_targets (trace o) = [reply_to]).
Proof.
  intros Hne. unfold send_documents. destruct files as [|f [|g files]]; [done| |].
  - unfold read_bytes, send_document, bind, perform, ret, result, trace, originals_targets.
    repeat (case_match; simplify_eq); cbn; split; try done;
      first [ apply sublist_nil_l | by constructor ].
  - cbn zeta. rewrite run_bind.
    pose proof (document_group_reads (length (f :: g :: files)) (f :: g :: files) 0 e) as Hr.
    destruct (document_group P _ 0 (f :: g :: files) e) as [[[items|x|] e1] t1] eqn:Hrun;
      [apply document_group_first in Hrun; [|done] | |];
      unfold trace in Hr; cbn [snd] in Hr;
      assert (Ht : originals_targets t1 = [])
        by (unfold originals_targets;
            apply (only_omap_nil is_read_call _ t1 reads_no_target Hr));
      cbn [result trace fst snd]; try (rewrite Ht; split; [apply sublist_nil_l | done]).
    unfold originals_targets in Ht |- *. rewrite omap_app, Ht. cbn [app].
    unfold send_media_group, bind, perform, ret.
    destruct (bot_send_media_group P chat_id items reply_to e1) as [[err|ms] e2];
      cbn; rewrite Hrun; by split.
Qed.

(** C5. [_send_original_files] makes one attempt at the reply target chosen
    by priority (the preview id, else the trigger id) and, only if that
    attempt fails while a preview id and a different trigger id are both
    there, one more attempt, at the trigger id; it never raises.  In that
    case the first attempt did use the preview id.  Each attempt sends at
    most once.  Whatever originals delivery returns, the pipeline goes on
    to return [True]. *)
Theorem originals_retry_once_at_trigger chat_id f files preview trigger trigger_message e :
  let downloaded_files := f :: files in
  let first := send_documents P chat_id downloaded_files (Py.or_oint preview trigger) e in
  let second := send_documents P chat_id downloaded_files trigger (final first) in
  let retried := negb (is_ok (result first)) && retry_with_trigger preview trigger in
  let o := _send_original_files P chat_id downloaded_files preview trigger e in
  trace o = trace first ++ (if retried then trace second else []) /\
  result o = Ok (is_ok (result first) || retried && is_ok (result second)) /\
  originals_targets (trace first) `sublist_of` [Py.or_oint preview trigger] /\
  originals_targets (trace second) `sublist_of` [trigger] /\
  (if retried
   then Py.or_oint preview trigger = preview /\ preview <> trigger /\
        Py.truthy_oint preview = true /\ Py.truthy_oint trigger = true
   else True) /\
  forall pmid e',
    result (send_originals_and_succeed P chat_id downloaded_files trigger_message pmid e')
    = Ok true.
Proof.
  intros fs first second retried o. subst o.
  assert (Hne : fs <> []) by done.
  rewrite (send_original_files_run P chat_id fs preview trigger e Hne). cbn zeta.
  fold first. fold second.
  destruct (send_documents_targets chat_id fs (Py.or_oint preview trigger) e Hne) as [Ht1 _].
  destruct (send_documents_targets chat_id fs trigger (final first) Hne) as [Ht2 _].
  fold first in Ht1. fold second in Ht2.
  assert (Hret : if retried
                 then Py.or_oint preview trigger = preview /\ preview <> trigger /\
                      Py.truthy_oint preview = true /\ Py.truthy_oint trigger = true
                 else True).
  { subst retried. destruct (is_ok (result first)); [done|]. cbn.
    destruct (retry_with_trigger preview trigger) eqn:Hr; [|done].
    apply retry_with_trigger_target in Hr. tauto. }
  assert (Hsucc : forall pmid e',
    result (send_originals_and_succeed P chat_id fs trigger_message pmid e') = Ok true).
  { intros pmid e'.
    destruct (originals_run P chat_id fs trigger_message pmid e' Hne) as (e2 & to & -> & _).
    reflexivity. }
  subst retried.
  destruct (result first) as [[]|x|]; cbn [is_ok negb andb orb];
    destruct (retry_with_trigger preview trigger); cbn [andb];
    rewrite ?app_nil_r; try done;
    destruct (result second) as [[]|y|]; done.
Qed.

(** C8, amended. A download that succeeds has parsed its URL and writes to
    the temporary directory, under the last component of the URL's path
    when that component ends in one of the image suffixes, and under a
    generated [uuid4().hex + ".jpeg"] otherwise.  Two downloads named after
    their URLs get the same target exactly when those last components are
    equal, whether or not the URLs differ. *)
Theorem download_target_from_url_name url e p :
  result (_download_image_from_url P url e) = Ok (Some p) ->
  (exists name,
      url_name P url = Some name /\
      if named_by_url P url
      then p = path_join (temp_dir P) name
      else exists e1, p = path_join (temp_dir P) ((uuid4_hex P e1).1 +:+ ".jpeg")) /\
  (forall url' e' p',
      result (_download_image_from_url P url' e') = Ok (Some p') ->
      named_by_url P url = true -> named_by_url P url' = true ->
      (p = p' <-> url_name P url = url_name P url')).
Proof.
  intros Hp. split; [exact (download_target P _ _ _ Hp)|].
  intros url' e' p' Hp' Hn Hn'.
  destruct (download_target P _ _ _ Hp) as (name & Hname & H1).
  destruct (download_target P _ _ _ Hp') as (name' & Hname' & H2).
  rewrite Hn in H1. rewrite Hn' in H2. rewrite Hname, Hname'. subst p p'.
  unfold path_join. split; [|by intros [= ->]].
  intros Heq. apply (inj (String.app (temp_dir P))) in Heq.
  apply (inj (String.app "/")) in Heq. by rewrite Heq.
Qed.

End DeliveryClaims.

Example twelve_urls_ten_fetched :
  fetched (trace Runs.twelve_run) = take 10 Runs.twelve_urls /\
  length (fetched (trace Runs.twelve_run)) = 10 /\
  result Runs.twelve_run = Ok true.
Proof. vm_compute. repeat split; reflexivity. Qed.

Lemma no_download_no_send_witness :
  let image_urls := ["https://cdn.example.com/a.png"; "https://cdn.example.com/b.png"] in
  let o := _send_imagine_result (Scenario.platform Scenario.offline) 1 image_urls (Some ∅)
             (Some 40%Z) (Some Scenario.placeholder) (Some "a red fox")
             (Some Scenario.command) Scenario.start in
  result o = Ok false /\
  trace o = trace (download_images (Scenario.platform Scenario.offline)
                                   (take 10 image_urls) [] Scenario.start) /\
  only is_download_call (trace o) /\
  none is_bot_call (trace o).
Proof.
  intros image_urls.
  apply (no_download_no_send (Scenario.platform Scenario.offline) 1 image_urls ∅
           (Some 40%Z) (Some Scenario.placeholder) (Some "a red fox")
           (Some Scenario.command) Scenario.start).
  vm_compute. reflexivity.
Defined.



Example calm_run_trace :
  Runs.calm_run =
  (Ok true, {| Scenario.next_id := 502; Scenario.landed := [] |},
   [(Mkdir "/data/generated_images", None);
    (HttpGet Runs.fox_url, None);
    (WriteBytes Runs.fox_file "image bytes of https://cdn.example.com/out/fox.png", None);
    (ReadBytes Runs.fox_file, None);
    (SendPhoto 1 Runs.fox_bytes (Some "<b>a red fox</b>") (Some 40%Z) (Some "HTML"), None);
    (DeleteMessage 1 41, None);
    (ReadBytes Runs.fox_file, None);
    (SendDocument 1 Runs.fox_bytes "fox.png" ORIGINAL_CAPTION (Some 500%Z), None)]).
Proof. vm_compute. reflexivity. Qed.

Example stuck_placeholder_run_trace :
  Runs.stuck_placeholder_run =
  (Ok false, {| Scenario.next_id := 503; Scenario.landed := [] |},
   [(Mkdir "/data/generated_images", None);
    (HttpGet Runs.fox_url, None);
    (WriteBytes Runs.fox_file "image bytes of https://cdn.example.com/out/fox.png", None);
    (ReadBytes Runs.fox_file, None);
    (SendPhoto 1 Runs.fox_bytes (Some "<b>a red fox</b>") (Some 40%Z) (Some "HTML"), None);
    (DeleteMessage 1 41, Some "Bad Request: message to delete not found");
    (ReadBytes Runs.fox_file, None);
    (SendPhoto 1 Runs.fox_bytes (Some "<b>a red fox</b>") (Some 40%Z) (Some "MarkdownV2"),
     None);
    (DeleteMessage 1 41, Some "Bad Request: message to delete not found");
    (ReadBytes Runs.fox_file, None);
    (SendPhoto 1 Runs.fox_bytes (Some "<b>a red fox</b>") (Some 40%Z) (Some "None"), None);
    (DeleteMessage 1 41, Some "Bad Request: message to delete not found")]).
Proof. vm_compute. reflexivity. Qed.

(** C3 as stated fails on the code: the send with parse mode ["HTML"]
    succeeds, the deletion of the placeholder raises, and the photo is sent
    again with ["MarkdownV2"] and with ["None"]; the pipeline returns
    [False]. *)
Lemma sent_preview_is_not_final : ~ sent_preview_is_final Runs.stuck_placeholder_run.
Proof.
  intros H.
  destruct (H (take 4 (trace Runs.stuck_placeholder_run))
              (SendPhoto 1 Runs.fox_bytes (Some "<b>a red fox</b>") (Some 40%Z) (Some "HTML"))
              (drop 5 (trace Runs.stuck_placeholder_run))) as [Hr _].
  - vm_compute. reflexivity.
  - reflexivity.
  - vm_compute in Hr. discriminate.
Qed.

Lemma parse_modes_in_order_until_delivered_witness :
  let photo mode :=
    SendPhoto 1 Runs.fox_bytes (Some "<b>a red fox</b>") (Some 40%Z) (Some mode) in
  let gone := Some "Bad Request: message to delete not found" in
  (trace Runs.stuck_placeholder_run =
     [(Mkdir "/data/generated_images", None);
      (HttpGet Runs.fox_url, None);
      (WriteBytes Runs.fox_file "image bytes of https://cdn.example.com/out/fox.png", None)]
     ++ [(ReadBytes Runs.fox_file, None); (photo "HTML", None); (DeleteMessage 1 41, gone)]
     ++ [(ReadBytes Runs.fox_file, None); (photo "MarkdownV2", None);
         (DeleteMessage 1 41, gone)]
     ++ [(ReadBytes Runs.fox_file, None); (photo "None", None); (DeleteMessage 1 41, gone)] /\
   result Runs.stuck_placeholder_run = Ok false /\
   captioned_modes (trace Runs.stuck_placeholder_run) = ["HTML"; "MarkdownV2"; "None"]) /\
  (result Runs.calm_run = Ok true /\
   only is_originals_call (drop 6 (trace Runs.calm_run)) /\
   none is_preview_send (drop 6 (trace Runs.calm_run))).
Proof.
  intros photo gone. split.
  - pose proof (parse_modes_in_order_until_delivered
                  (Scenario.platform Scenario.stuck_placeholder) 1 [Runs.fox_url] ∅
                  (Some 40%Z) (Some Scenario.placeholder) (Some "<b>a red fox</b>")
                  (Some Scenario.command) Scenario.start) as Hrounds.
    cbv zeta in Hrounds. destruct Hrounds as [Hrounds _].
    destruct Hrounds as (Htrace & Hresult & _ & _ & _ & Hmodes);
      [vm_compute; discriminate|].
    split; [|split].
    + etransitivity; [exact Htrace|]. vm_compute. reflexivity.
    + etransitivity; [exact Hresult|]. vm_compute. reflexivity.
    + etransitivity; [exact Hmodes|]. vm_compute. reflexivity.
  - apply (proj2 (proj2 (parse_modes_in_order_until_delivered
                    (Scenario.platform Scenario.calm) 1 [Runs.fox_url] ∅ (Some 40%Z)
                    (Some Scenario.placeholder) (Some "<b>a red fox</b>")
                    (Some Scenario.command) Scenario.start))
                 (take 4 (trace Runs.calm_run))
                 (SendPhoto 1 Runs.fox_bytes (Some "<b>a red fox</b>") (Some 40%Z)
                            (Some "HTML"))
                 1%Z 41%Z
                 (drop 6 (trace Runs.calm_run))).
    + vm_compute. reflexivity.
    + reflexivity.
Defined.

Example long_caption_stuck_run_trace :
  Runs.long_caption_stuck_run =
  (Ok false, {| Scenario.next_id := 503; Scenario.landed := [] |},
   [(Mkdir "/data/generated_images", None);
    (HttpGet Runs.fox_url, None);
    (WriteBytes Runs.fox_file "image bytes of https://cdn.example.com/out/fox.png", None);
    (ReadBytes Runs.fox_file, None);
    (SendPhoto 1 Runs.fox_bytes (Some Runs.long_caption) (Some 40%Z) (Some "HTML"),
     Some "Bad Request: Message caption is too long");
    (SendPhoto 1 Runs.fox_bytes None (Some 40%Z) None, None);
    (DeleteMessage 1 41, Some "Bad Request: message to delete not found");
    (ReadBytes Runs.fox_file, None);
    (SendPhoto 1 Runs.fox_bytes (Some Runs.long_caption) (Some 40%Z) (Some "MarkdownV2"),
     Some "Bad Request: Message caption is too long");
    (SendPhoto 1 Runs.fox_bytes None (Some 40%Z) None, None);
    (DeleteMessage 1 41, Some "Bad Request: message to delete not found");
    (ReadBytes Runs.fox_file, None);
    (SendPhoto 1 Runs.fox_bytes (Some Runs.long_caption) (Some 40%Z) (Some "None"),
     Some "Bad Request: Message caption is too long");
    (SendPhoto 1 Runs.fox_bytes None (Some 40%Z) None, None);
    (DeleteMessage 1 41, Some "Bad Request: message to delete not found")]).
Proof. vm_compute. reflexivity. Qed.

(** C4 as stated fails on the code: the retry without caption succeeds,
    the deletion of the placeholder raises, the loop moves on to the next
    parse mode, and in the end the pipeline returns [False] without any
    originals delivery. *)
Lemma successful_retry_is_not_final : ~ successful_retry_is_final Runs.long_caption_stuck_run.
Proof.
  intros H.
  assert (Hr : result Runs.long_caption_stuck_run = Ok true).
  { apply (H (take 4 (trace Runs.long_caption_stuck_run))
             (SendPhoto 1 Runs.fox_bytes (Some Runs.long_caption) (Some 40%Z) (Some "HTML"))
             "Bad Request: Message caption is too long"
             (SendPhoto 1 Runs.fox_bytes None (Some 40%Z) None)
             (drop 6 (trace Runs.long_caption_stuck_run)));
      vm_compute; reflexivity. }
  vm_compute in Hr. discriminate.
Qed.

Lemma caption_too_long_retries_once_witness :
  calls (trace (_send_single_photo_with_caption
                  (Scenario.platform Scenario.short_captions) 1 Runs.long_caption
                  (Some 40%Z) "HTML" 41 Runs.fox_bytes Scenario.start)) =
  [SendPhoto 1 Runs.fox_bytes (Some Runs.long_caption) (Some 40%Z) (Some "HTML");
   SendPhoto 1 Runs.fox_bytes None (Some 40%Z) None;
   DeleteMessage 1 41].
Proof.
  apply (proj1 (caption_too_long_retries_once
                  (Scenario.platform Scenario.short_captions) 1 [Runs.fox_url] ∅ (Some 40%Z)
                  (Some Scenario.placeholder) (Some Runs.long_caption)
                  (Some Scenario.command) Scenario.start)
               Runs.long_caption (Some 40%Z) "HTML" 41%Z Runs.fox_bytes Scenario.start
               "Bad Request: Message caption is too long" Scenario.start).
  - reflexivity.
  - reflexivity.
Defined.

Lemma originals_retry_once_at_trigger_witness :
  let P := Scenario.platform Scenario.preview_not_an_anchor in
  calls (trace (_send_original_files P 1 [Runs.fox_file] (Some 500%Z) (Some 40%Z)
                                     Scenario.start)) =
  [ReadBytes Runs.fox_file;
   SendDocument 1 Runs.fox_bytes "fox.png" ORIGINAL_CAPTION (Some 500%Z);
   ReadBytes Runs.fox_file;
   SendDocument 1 Runs.fox_bytes "fox.png" ORIGINAL_CAPTION (Some 40%Z)] /\
  result (_send_original_files P 1 [Runs.fox_file] (Some 500%Z) (Some 40%Z) Scenario.start)
  = Ok true.
Proof.
  intros P.
  destruct (originals_retry_once_at_trigger P 1 Runs.fox_file [] (Some 500%Z) (Some 40%Z)
              (Some Scenario.command) Scenario.start) as (Ht & Hr & _).
  split.
  - rewrite Ht. vm_compute. reflexivity.
  - rewrite Hr. vm_compute. reflexivity.
Defined.

(** C8 as stated fails on the code: two different URLs whose paths end in
    the same file name are written to the same file. *)
Lemma distinct_urls_same_target :
  let url1 := "https://cdn-a.example.com/2025/fox/image.png" in
  let url2 := "https://cdn-b.example.com/2025/owl/image.png" in
  url1 <> url2 /\
  result (download_images (Scenario.platform Scenario.calm) [url1; url2] [] Scenario.start)
  = Ok ["/data/generated_images/image.png"; "/data/generated_images/image.png"].
Proof. split; [discriminate | vm_compute; reflexivity]. Qed.

Lemma download_target_from_url_name_witness :
  let P := Scenario.platform Scenario.calm in
  let p := "/data/generated_images/Fox.PNG" in
  (exists name,
      url_name P Runs.untidy_url = Some name /\
      if named_by_url P Runs.untidy_url
      then p = path_join (temp_dir P) name
      else exists e1, p = path_join (temp_dir P) ((uuid4_hex P e1).1 +:+ ".jpeg")) /\
  (forall url' e' p',
      result (_download_image_from_url P url' e') = Ok (Some p') ->
      named_by_url P Runs.untidy_url = true -> named_by_url P url' = true ->
      (p = p' <-> url_name P Runs.untidy_url = url_name P url')).
Proof.
  intros P p.
  apply (download_target_from_url_name P Runs.untidy_url Scenario.start p).
  vm_compute. reflexivity.
Defined.

(** What the parsing of the URL does to the name: leading blanks are
    stripped, a tab inside the URL is removed, parameters, query and
    fragment are cut off, the case of the name is kept. *)
Example untidy_url_name :
  url_name (Scenario.platform Scenario.calm) Runs.untidy_url = Some "Fox.PNG" /\
  named_by_url (Scenario.platform Scenario.calm) Runs.untidy_url = true.
Proof. vm_compute. split; reflexivity. Qed.

(** A tab does not tell two URLs apart: both are written to one file. *)
Example tab_url_same_target :
  let plain := "https://cdn.example.com/out/fox.png" in
  let tabbed := "https://cdn.example.com/out/fo" +:+ String "009"%char "x.png" in
  plain <> tabbed /\
  result (download_images (Scenario.platform Scenario.calm) [plain; tabbed] [] Scenario.start)
  = Ok ["/data/generated_images/fox.png"; "/data/generated_images/fox.png"].
Proof. split; [discriminate | vm_compute; reflexivity]. Qed.

(** A URL that [urlparse] refuses: the directory is created, nothing is
    fetched, the download returns [None]. *)
Example unparsed_url_run :
  _download_image_from_url (Scenario.platform Scenario.calm) "http://[x/a.png" Scenario.start
  = (Ok None, Scenario.start, [(Mkdir "/data/generated_images", None)]).
Proof. vm_compute. reflexivity. Qed.

(* ================================================================== *)
(** ** The command handler: facts and claims *)

Section HandlerClaims.
Context {E : Type} (P : Platform E).
Implicit Types e : E.

(** C1. The aggregator first records the message in the cache.  If the
    message has a media-group identifier (a non-empty string: the test is
    Python's truth value), it then reads the cached fragments: with at most
    one fragment it sleeps the debounce interval once and reads the cache
    again, with more it does not sleep.  Without an identifier it neither
    reads nor sleeps.  The media are then downloaded, in the world as the
    cache update and the one wait, if it happened, left it. *)
Theorem collect_waits_once_when_alone message e :
  let e1 := add_message_to_media_group_cache P message e in
  let count := length (get_media_group_messages P message e1) in
  let grouped := Py.truthy_ostr (media_group_id message) in
  let e2 := if grouped && (count <=? 1) then asyncio_sleep P DEBOUNCE_MS e1 else e1 in
  let o := _collect_media_group_files P message e in
  calls (trace o) =
    CacheAdd message
    :: (if grouped
        then CacheGet message
             :: (if count <=? 1 then [Sleep DEBOUNCE_MS; CacheGet message] else [])
        else [])
    ++ [DownloadMediaGroup message] /\
  final o = (download_media_group_files P message e2).2.
Proof.
  cbn zeta.
  unfold _collect_media_group_files, cache_add, cache_get, sleep, bind, perform,
    perform_total, ret, trace, final, calls.
  cbn.
  destruct (Py.truthy_ostr (media_group_id message)); cbn.
  - destruct (_ <=? 1); cbn;
      destruct (download_media_group_files P message _) as [[x|mf] e2]; split; reflexivity.
  - destruct (download_media_group_files P message _) as [[x|mf] e2]; split; reflexivity.
Qed.

Lemma collect_emits message :
  emits is_aggregation_call (_collect_media_group_files P message).
Proof.
  unfold _collect_media_group_files, cache_add, cache_get, sleep.
  eauto 20 with emits.
Qed.

Lemma collect_with_reply_emits message :
  emits is_aggregation_call (collect_with_reply P message).
Proof.
  unfold collect_with_reply.
  apply emits_bind; [apply collect_emits|]. intros [[mf hm] pp].
  destruct (reply_to_message message); [|apply emits_ret].
  apply emits_bind; [apply collect_emits|]. intros [[rmf rhm] rpp]. apply emits_ret.
Qed.

(** What [_collect_media_group_files] returns is computed from the
    downloaded mapping. *)
Lemma collect_result message e mf hm pp e1 t1 :
  _collect_media_group_files P message e = (Ok (mf, hm, pp), e1, t1) ->
  hm = any_media mf.
Proof.
  unfold _collect_media_group_files, cache_add, cache_get, sleep, bind, perform,
    perform_total, ret.
  repeat (case_match; simplify_eq); intros; by simplify_eq.
Qed.

Lemma any_media_false (m : MediaFiles) k : any_media m = false -> get_list m k = [].
Proof.
  unfold any_media, get_list. intros Hnone.
  destruct (m !! k) as [paths|] eqn:Hk; [|done]. cbn.
  destruct paths as [|p paths]; [done|]. exfalso.
  apply elem_of_map_to_list, list_elem_of_In in Hk.
  assert (existsb (fun kv : string * list Path => Py.truthy_list kv.2) (map_to_list m) = true)
    by (apply existsb_exists; by exists (k, p :: paths)).
  congruence.
Qed.

Lemma truthy_dict_false (m : MediaFiles) : truthy_dict m = false -> m = ∅.
Proof.
  unfold truthy_dict. intros H. apply negb_false_iff in H. by apply bool_decide_eq_true in H.
Qed.

(** The loop over the reply's kinds, by lookup. *)
Lemma merge_fold_lookup (media_files reply_media_files : MediaFiles) has_media k :
  (map_fold merge_kind (media_files, has_media) reply_media_files).1 !! k =
  match reply_media_files !! k with
  | Some (p :: paths) => Some (get_list media_files k ++ p :: paths)
  | _ => media_files !! k
  end.
Proof.
  revert k.
  apply (map_fold_weak_ind
           (fun (acc : MediaFiles * bool) (m : MediaFiles) =>
              forall k, acc.1 !! k =
                        match m !! k with
                        | Some (p :: paths) => Some (get_list media_files k ++ p :: paths)
                        | _ => media_files !! k
                        end)).
  - intros k. by rewrite lookup_empty.
  - intros i x m acc Hi IH k. unfold merge_kind.
    destruct (decide (i = k)) as [->|Hne].
    + rewrite lookup_insert_eq. specialize (IH k). rewrite Hi in IH.
      destruct x as [|p paths]; cbn; [done|].
      rewrite lookup_insert_eq. unfold get_list at 1. by rewrite IH.
    + rewrite (lookup_insert_ne m) by done.
      destruct x as [|p paths]; cbn; [apply IH|].
      rewrite lookup_insert_ne by done. apply IH.
Qed.

(** The merged mapping, by lookup with [[]] for a missing kind. *)
Lemma merge_reply_media_get media_files has_media photo_paths reply_media_files k :
  get_list (merge_reply_media media_files has_media photo_paths reply_media_files
                              (any_media reply_media_files)).1.1 k
  = get_list media_files k ++ get_list reply_media_files k.
Proof.
  unfold merge_reply_media.
  destruct (any_media reply_media_files) eqn:Hany; cbn [andb].
  2:{ cbn. by rewrite (any_media_false reply_media_files), app_nil_r. }
  destruct (truthy_dict reply_media_files) eqn:Hr.
  2:{ apply truthy_dict_false in Hr. subst. cbn. unfold get_list at 3.
      by rewrite lookup_empty, app_nil_r. }
  destruct (truthy_dict media_files) eqn:Hm; cbn [negb].
  - destruct (map_fold merge_kind (media_files, has_media) reply_media_files)
      as [merged hm] eqn:Hfold. cbn.
    pose proof (merge_fold_lookup media_files reply_media_files has_media k) as Hl.
    rewrite Hfold in Hl. cbn in Hl. unfold get_list at 1. rewrite Hl.
    unfold get_list at 3.
    destruct (reply_media_files !! k) as [[|p paths]|]; cbn;
      by rewrite ?app_nil_r.
  - apply truthy_dict_false in Hm. subst. cbn. unfold get_list at 2.
    by rewrite lookup_empty.
Qed.

(** C6. The merged mapping holds, for every media kind, the trigger's list
    followed by the reply's list (a missing kind counting as the empty
    list); a kind for which only the reply has files becomes a key of the
    merged mapping, with the reply's list.  [collect_with_reply] returns
    that mapping when the command replies to a message. *)
Theorem merged_media_trigger_then_reply media_files has_media photo_paths
        reply_media_files :
  let merged := (merge_reply_media media_files has_media photo_paths reply_media_files
                                   (any_media reply_media_files)).1.1 in
  (forall k, get_list merged k = get_list media_files k ++ get_list reply_media_files k) /\
  (forall k p paths,
      media_files !! k = None ->
      reply_media_files !! k = Some (p :: paths) ->
      merged !! k = Some (p :: paths)) /\
  (forall message reply e e1 t1 photo_paths' e2 t2 reply_has_media reply_photo_paths,
      reply_to_message message = Some reply ->
      _collect_media_group_files P message e
      = (Ok (media_files, has_media, photo_paths'), e1, t1) ->
      _collect_media_group_files P reply e1
      = (Ok (reply_media_files, reply_has_media, reply_photo_paths), e2, t2) ->
      exists has_media' photo_paths'',
        collect_with_reply P message e
        = (Ok ((merge_reply_media media_files has_media photo_paths' reply_media_files
                                  (any_media reply_media_files)).1.1,
               has_media', photo_paths''), e2, t1 ++ t2)).
Proof.
  intros merged. subst merged. split; [|split].
  - intros k. apply merge_reply_media_get.
  - intros k p paths Hk Hrk.
    pose proof (merge_reply_media_get media_files has_media photo_paths
                                      reply_media_files k) as Hget.
    unfold get_list at 2 3 in Hget. rewrite Hk, Hrk in Hget. cbn in Hget.
    unfold merge_reply_media in Hget |- *.
    assert (Hany : any_media reply_media_files = true).
    { destruct (any_media reply_media_files) eqn:Hany; [done|].
      pose proof (any_media_false reply_media_files k Hany) as Hn.
      unfold get_list in Hn. by rewrite Hrk in Hn. }
    assert (Hr : truthy_dict reply_media_files = true).
    { destruct (truthy_dict reply_media_files) eqn:Hr; [done|].
      apply truthy_dict_false in Hr. subst. by rewrite lookup_empty in Hrk. }
    rewrite Hany, Hr in Hget |- *. cbn [andb] in *.
    destruct (truthy_dict media_files); cbn [negb] in *; [|done].
    destruct (map_fold merge_kind (media_files, has_media) reply_media_files)
      as [merged hm] eqn:Hfold. cbn.
    pose proof (merge_fold_lookup media_files reply_media_files has_media k) as Hl.
    rewrite Hfold, Hrk in Hl. cbn in Hl. rewrite Hl. unfold get_list. by rewrite Hk.
  - intros message reply e e1 t1 pp e2 t2 rhm rpp Hreply Hc1 Hc2.
    pose proof (collect_result reply e1 _ _ _ _ _ Hc2) as ->.
    unfold collect_with_reply. rewrite run_bind, Hc1, Hreply.
    rewrite run_bind, Hc2. cbn.
    destruct (merge_reply_media media_files has_media pp reply_media_files
                                (any_media reply_media_files)) as [[m h] q].
    exists h, q. cbn. by rewrite app_nil_r.
Qed.

Lemma aggregation_not_generation c :
  is_aggregation_call c = true -> is_generation_call c = false.
Proof. by destruct c. Qed.

Lemma aggregation_no_prompt c :
  is_aggregation_call c = true ->
  match c with InvokeModelStreaming _ prompt _ _ _ => Some prompt | _ => None end = None.
Proof. by destruct c. Qed.

(** The handler up to the end of the aggregation. *)
Lemma imagine_command_after_collect update args e message chat merged e1 t1 :
  inline_query update = false ->
  should_ignore_command_in_group P update e = false ->
  _match_context update = (Some message, Some chat) ->
  collect_with_reply P message e = (Ok merged, e1, t1) ->
  let '(media_files, has_media, photo_paths) := merged in
  let rest :=
    (helped <- _reply_help P chat message (prompt_of args) has_media ;;
     if (helped : bool) then ret tt else
     let prompt :=
       if negb (Py.truthy_str (prompt_of args)) && has_media
       then DEFAULT_PROMPT else prompt_of args in
     _reply_emoji_reaction P chat message ;;;
     username <- ask (bot_username P) ;;
     let bot_username := Py.rstrip "@" username in
     try_except
       (perform (InvokeModelStreaming bot_username prompt (from_user_fmt message)
                                      photo_paths media_files)
                (invoke_model_streaming P bot_username prompt (from_user_fmt message)
                                        photo_paths media_files) ;;;
        perform SendStreamingResponse (send_streaming_response P))
       (fun _ =>
          perform (SendMessage (chat_id chat) ERROR_TEXT "HTML" (message_id message))
                  (bot_send_message P (chat_id chat) ERROR_TEXT "HTML" (message_id message))))
      e1 in
  imagine_command P update args e = (result rest, final rest, t1 ++ trace rest).
Proof.
  intros Hinline Hignore Hctx Hcollect.
  destruct merged as [[media_files has_media] photo_paths]. cbn zeta.
  unfold imagine_command. rewrite Hinline.
  rewrite run_bind. unfold ask at 1. rewrite Hignore, Hctx.
  cbn [result final trace fst snd app].
  by rewrite run_bind, Hcollect.
Qed.

(** C9. With an empty prompt and no media on the command or on the message
    it replies to, a command that gets past the handler's gates (not an
    inline query, not ignored in a group, message and chat found) makes,
    after the aggregation, exactly one more call: the usage message, sent
    as a reply to the command; it then returns.  The generation service is
    not invoked and no response is delivered. *)
Theorem no_prompt_no_media_sends_usage update args e message chat
        media_files photo_paths e1 t1 :
  inline_query update = false ->
  should_ignore_command_in_group P update e = false ->
  _match_context update = (Some message, Some chat) ->
  prompt_of args = "" ->
  collect_with_reply P message e = (Ok (media_files, false, photo_paths), e1, t1) ->
  let o := imagine_command P update args e in
  result o = Ok tt /\
  calls (trace o) =
    calls t1 ++ [SendMessage (chat_id chat) HELP_TEXT "HTML" (message_id message)] /\
  only is_aggregation_call t1 /\
  none is_generation_call (trace o).
Proof.
  intros Hinline Hignore Hctx Hprompt Hcollect o. subst o.
  pose proof (collect_with_reply_emits message e) as Hagg.
  rewrite Hcollect in Hagg. cbn [trace snd] in Hagg.
  rewrite (imagine_command_after_collect update args e message chat _ e1 t1
             Hinline Hignore Hctx Hcollect).
  rewrite Hprompt. cbn [result final trace fst snd].
  unfold _reply_help, try_except, bind, perform, ret, calls. cbn.
  destruct (bot_send_message P (chat_id chat) HELP_TEXT "HTML" (message_id message) e1)
    as [[err|[]] e2]; cbn; rewrite ?app_nil_r, fmap_app; cbn;
    (repeat split; [done|]);
    (apply Forall_app; split;
     [eapply only_none; [apply aggregation_not_generation | exact Hagg]
     | by repeat constructor]).
Qed.

(** C10. With an empty prompt and some media, a command that gets past the
    gates reacts to the command message and then invokes the generation
    service with the fixed prompt ["请参考附件信息"], together with the merged
    media; no other prompt is handed to the service. *)
Theorem empty_prompt_with_media_uses_default update args e message chat
        media_files photo_paths e1 t1 :
  inline_query update = false ->
  should_ignore_command_in_group P update e = false ->
  _match_context update = (Some message, Some chat) ->
  prompt_of args = "" ->
  collect_with_reply P message e = (Ok (media_files, true, photo_paths), e1, t1) ->
  let o := imagine_command P update args e in
  prompts (trace o) = ["请参考附件信息"] /\
  exists username rest,
    calls (trace o) =
      calls t1
      ++ SetMessageReaction (chat_id chat) (message_id message)
      :: InvokeModelStreaming (Py.rstrip "@" username) "请参考附件信息"
                              (from_user_fmt message) photo_paths media_files
      :: rest.
Proof.
  intros Hinline Hignore Hctx Hprompt Hcollect o. subst o.
  pose proof (collect_with_reply_emits message e) as Hagg.
  rewrite Hcollect in Hagg. cbn [trace snd] in Hagg.
  assert (Hnone : prompts t1 = [])
    by (unfold prompts; apply (only_omap_nil is_aggregation_call _ t1
                                 aggregation_no_prompt Hagg)).
  rewrite (imagine_command_after_collect update args e message chat _ e1 t1
             Hinline Hignore Hctx Hcollect).
  rewrite Hprompt. cbn [result final trace fst snd].
  unfold prompts in Hnone |- *. rewrite omap_app, Hnone. cbn [app].
  unfold calls. rewrite fmap_app.
  unfold _reply_help, _reply_emoji_reaction, ask, try_except, bind, perform, ret.
  cbn.
  repeat (case_match; simplify_eq); cbn; (split; [reflexivity|]);
    eexists _, _; reflexivity.
Qed.

End HandlerClaims.

Example collect_alone_then_joined :
  let script :=
    {| Scenario.media_of := fun _ => ∅;
       Scenario.arrived := fun m => [m];
       Scenario.late := [Scenario.earlier; Scenario.command];
       Scenario.http_ok := fun _ => true;
       Scenario.caption_limit := 1024;
       Scenario.delete_ok := true;
       Scenario.reply_ok := fun _ => true |} in
  let fragment := mkMessage 43 Scenario.user_chat (Some 7%Z) (Some "g1") None in
  let o := _collect_media_group_files (Scenario.platform script) fragment Scenario.start in
  calls (trace o) =
    [CacheAdd fragment; CacheGet fragment; Sleep 800; CacheGet fragment;
     DownloadMediaGroup fragment] /\
  length (get_media_group_messages (Scenario.platform script) fragment (final o)) = 3.
Proof. vm_compute. split; reflexivity. Qed.

Lemma merged_media_trigger_then_reply_witness :
  let P := Scenario.platform Scenario.attachments in
  let media_files : MediaFiles := {[ "photos" := ["/data/in/cat.jpg"] ]} in
  let reply_media_files : MediaFiles :=
    <[ "documents" := ["/data/in/notes.pdf"] ]> {[ "photos" := ["/data/in/dog.jpg"] ]} in
  (merge_reply_media media_files true ["/data/in/cat.jpg"] reply_media_files
                     (any_media reply_media_files)).1.1 !! "documents"
  = Some ["/data/in/notes.pdf"].
Proof.
  intros P media_files reply_media_files.
  apply (proj1 (proj2 (merged_media_trigger_then_reply P media_files true
                         ["/data/in/cat.jpg"] reply_media_files))
               "documents" "/data/in/notes.pdf" []).
  - vm_compute. reflexivity.
  - vm_compute. reflexivity.
Defined.

Example reply_media_merged :
  result (collect_with_reply (Scenario.platform Scenario.attachments)
                             Scenario.command_replying Scenario.start)
  = Ok (<[ "documents" := ["/data/in/notes.pdf"] ]>
          {[ "photos" := ["/data/in/cat.jpg"; "/data/in/dog.jpg"] ]},
        true,
        ["/data/in/cat.jpg"; "/data/in/dog.jpg"; "/data/in/dog.jpg"]).
Proof. vm_compute. reflexivity. Qed.

Lemma no_prompt_no_media_sends_usage_witness :
  let P := Scenario.platform Scenario.calm in
  let o := imagine_command P (Scenario.update_of Scenario.command) None Scenario.start in
  let t1 := [(CacheAdd Scenario.command, None);
             (DownloadMediaGroup Scenario.command, None)] in
  result o = Ok tt /\
  calls (trace o) = calls t1 ++ [SendMessage 1 HELP_TEXT "HTML" 40] /\
  only is_aggregation_call t1 /\
  none is_generation_call (trace o).
Proof.
  intros P o t1.
  apply (no_prompt_no_media_sends_usage P (Scenario.update_of Scenario.command) None
           Scenario.start Scenario.command Scenario.user_chat ∅ [] Scenario.start t1);
    vm_compute; reflexivity.
Defined.

Lemma empty_prompt_with_media_uses_default_witness :
  let P := Scenario.platform Scenario.attachments in
  let o := imagine_command P (Scenario.update_of Scenario.command_with_photo) (Some [])
                           Scenario.start in
  let t1 := [(CacheAdd Scenario.command_with_photo, None);
             (DownloadMediaGroup Scenario.command_with_photo, None)] in
  prompts (trace o) = ["请参考附件信息"] /\
  exists username rest,
    calls (trace o) =
      calls t1
      ++ SetMessageReaction 1 42
      :: InvokeModelStreaming (Py.rstrip "@" username) "请参考附件信息" "7"
                              ["/data/in/cat.jpg"] {[ "photos" := ["/data/in/cat.jpg"] ]}
      :: rest.
Proof.
  intros P o t1.
  apply (empty_prompt_with_media_uses_default P
           (Scenario.update_of Scenario.command_with_photo) (Some [])
           Scenario.start Scenario.command_with_photo Scenario.user_chat
           {[ "photos" := ["/data/in/cat.jpg"] ]} ["/data/in/cat.jpg"] Scenario.start t1);
    vm_compute; reflexivity.
Defined.

(* ================================================================== *)
(** ** The command handler: further properties *)

Section HandlerProperties.
Context {E : Type} (P : Platform E).
Implicit Types e : E.

(** X1. [_match_context] returns the message of the update with that
    message's chat, else the message of the callback query with its chat,
    else exactly the pair ([effective_message], [effective_chat]): message
    and chat never come from different places. *)
Theorem match_context_never_mixes update :
  _match_context update =
  match upd_message update with
  | Some m => (Some m, Some (chat m))
  | None =>
      match callback_query update with
      | Some {| cq_message := Some m |} => (Some m, Some (chat m))
      | _ => (effective_message update, effective_chat update)
      end
  end.
Proof.
  unfold _match_context.
  destruct (upd_message update) as [m|]; [reflexivity|].
  destruct (callback_query update) as [[[m|]]|]; reflexivity.
Qed.

(** X2. [_reply_help] never raises.  It returns [True] exactly when the
    prompt is empty and there is no media; in that case it makes one call,
    the usage message in HTML as a reply to the command, and a failure of
    that call is swallowed; otherwise it makes no call at all. *)
Theorem reply_help_outcome chat message prompt has_media e :
  let wanted := Py.truthy_str prompt || has_media in
  let o := _reply_help P chat message prompt has_media e in
  result o = Ok (negb wanted) /\
  calls (trace o) =
    (if wanted then []
     else [SendMessage (chat_id chat) HELP_TEXT "HTML" (message_id message)]) /\
  final o =
    (if wanted then e
     else (bot_send_message P (chat_id chat) HELP_TEXT "HTML" (message_id message) e).2).
Proof.
  cbn zeta. unfold _reply_help.
  destruct (Py.truthy_str prompt || has_media); [done|].
  unfold try_except, bind, perform, ret, result, final, trace, calls.
  by destruct (bot_send_message P (chat_id chat) HELP_TEXT "HTML" (message_id message) e)
    as [[err|[]] e1].
Qed.

(** X3. [_reply_emoji_reaction] makes exactly one call, the reaction on the
    command message, and never raises: an error of that call is
    swallowed. *)
Theorem reply_emoji_reaction_swallows chat message e :
  let o := _reply_emoji_reaction P chat message e in
  result o = Ok tt /\
  calls (trace o) = [SetMessageReaction (chat_id chat) (message_id message)] /\
  final o = (bot_set_message_reaction P (chat_id chat) (message_id message) e).2.
Proof.
  cbn zeta. unfold _reply_emoji_reaction, try_except, perform, ret, result, final, trace, calls.
  by destruct (bot_set_message_reaction P (chat_id chat) (message_id message) e)
    as [[err|[]] e1].
Qed.

Lemma imagine_command_gated update args e :
  inline_query update = true \/
  should_ignore_command_in_group P update e = true \/
  (_match_context update).1 = None \/
  (_match_context update).2 = None ->
  imagine_command P update args e = (Ok tt, e, []).
Proof.
  intros Hgate. unfold imagine_command.
  destruct (inline_query update); [reflexivity|].
  unfold bind at 1, ask at 1.
  destruct (should_ignore_command_in_group P update e); [reflexivity|].
  destruct (_match_context update) as [[m|] [c|]]; cbn in *; try reflexivity.
  destruct Hgate as [?|[?|[?|?]]]; done.
Qed.

(** X4. For an inline query, for a command ignored in a group, and when no
    message or no chat is found, [imagine_command] returns at once: no
    call is made, not even to the media cache, and the world is left as it
    was. *)
Theorem imagine_command_returns_early update args e :
  inline_query update = true \/
  should_ignore_command_in_group P update e = true \/
  (_match_context update).1 = None \/
  (_match_context update).2 = None ->
  imagine_command P update args e = (Ok tt, e, []).
Proof. apply imagine_command_gated. Qed.

Lemma aggregation_no_text c :
  is_aggregation_call c = true ->
  match c with SendMessage _ text _ _ => Some text | _ => None end = None.
Proof. by destruct c. Qed.

Lemma aggregation_generation_ok t :
  only is_aggregation_call t -> generation_failed t = false.
Proof.
  unfold generation_failed.
  induction 1 as [|[c o] t Hc _ IH]; [done|].
  cbn [existsb fst snd] in *. rewrite IH. by destruct c.
Qed.

Lemma generation_failed_app t1 t2 :
  generation_failed (t1 ++ t2) = generation_failed t1 || generation_failed t2.
Proof. apply existsb_app. Qed.

Lemma imagine_command_collect_fails update args e message chat r e1 t1 :
  inline_query update = false ->
  should_ignore_command_in_group P update e = false ->
  _match_context update = (Some message, Some chat) ->
  collect_with_reply P message e = (r, e1, t1) ->
  (forall merged, r <> Ok merged) ->
  imagine_command P update args e =
  (match r with Ok _ => Ok tt | Raise x => Raise x | Stuck => Stuck end, e1, t1).
Proof.
  intros Hinline Hignore Hctx Hcollect Hr.
  unfold imagine_command. rewrite Hinline, run_bind. unfold ask at 1.
  rewrite Hignore, Hctx, run_bind, Hcollect.
  destruct r as [merged| |]; [by destruct (Hr merged)|done|done].
Qed.

(** X5. Whatever the update and the world, [imagine_command] either never
    invokes the generation service and sends at most one message, the usage
    text; or it invokes the service exactly once (no retry) and then sends
    the fixed error notice exactly when the invocation or the streaming of
    the response raised, and no message otherwise. *)
Theorem imagine_command_usage_or_generation update args e :
  let t := trace (imagine_command P update args e) in
  (prompts t = [] /\ texts t `sublist_of` [HELP_TEXT]) \/
  (exists prompt,
      prompts t = [prompt] /\
      texts t = if generation_failed t then [ERROR_TEXT] else []).
Proof.
  cbn zeta.
  destruct (inline_query update) eqn:Hinline;
    [rewrite imagine_command_gated by auto;
     left; split; [done|apply sublist_nil_l]|].
  destruct (should_ignore_command_in_group P update e) eqn:Hignore;
    [rewrite imagine_command_gated by auto;
     left; split; [done|apply sublist_nil_l]|].
  destruct (_match_context update) as [[message|] [chat|]] eqn:Hctx;
    try (rewrite imagine_command_gated by (rewrite Hctx; auto);
         left; split; [done|apply sublist_nil_l]).
  pose proof (collect_with_reply_emits P message e) as Hagg.
  destruct (collect_with_reply P message e) as [[[[[mf hm] pp]|x|] e1] t1] eqn:Hcollect;
    cbn [trace snd] in Hagg;
    assert (Hp : prompts t1 = [])
      by (unfold prompts; apply (only_omap_nil is_aggregation_call _ t1
                                   aggregation_no_prompt Hagg));
    assert (Ht : texts t1 = [])
      by (unfold texts; apply (only_omap_nil is_aggregation_call _ t1
                                 aggregation_no_text Hagg));
    pose proof (aggregation_generation_ok t1 Hagg) as Hg.
  - pose proof (imagine_command_after_collect P update args e message chat _ e1 t1
                  Hinline Hignore Hctx Hcollect) as Hrun.
    cbn zeta in Hrun. rewrite Hrun. clear Hrun. rewrite trace_mk.
    unfold prompts, texts in *.
    rewrite !omap_app, Hp, Ht, generation_failed_app, Hg.
    cbn [app orb].
    unfold _reply_help, _reply_emoji_reaction, ask, try_except, bind, perform, ret.
    destruct (Py.truthy_str (prompt_of args) || hm); cbn.
    + right. repeat (case_match; simplify_eq); cbn; eexists; split; reflexivity.
    + left. repeat (case_match; simplify_eq); cbn; split; try done;
        first [apply sublist_nil_l | by constructor].
  - rewrite (imagine_command_collect_fails update args e message chat _ e1 t1
               Hinline Hignore Hctx Hcollect), trace_mk, Hp, Ht by done.
    left; split; [done|apply sublist_nil_l].
  - rewrite (imagine_command_collect_fails update args e message chat _ e1 t1
               Hinline Hignore Hctx Hcollect), trace_mk, Hp, Ht by done.
    left; split; [done|apply sublist_nil_l].
Qed.

Lemma any_media_true_iff (m : MediaFiles) :
  any_media m = true <-> exists k, get_list m k <> [].
Proof.
  split.
  - unfold any_media. intros H. apply existsb_exists in H as [[k paths] [Hin Hp]].
    apply list_elem_of_In, elem_of_map_to_list in Hin. exists k.
    unfold get_list. rewrite Hin. cbn in *. by destruct paths.
  - intros [k Hk]. destruct (any_media m) eqn:Hany; [done|].
    by apply (any_media_false m k) in Hany.
Qed.

Lemma collect_run message e :
  let o := _collect_media_group_files P message e in
  match result o with
  | Ok (media_files, has_media, photo_paths) =>
      last (trace o) = Some (DownloadMediaGroup message, None) /\
      (has_media = true <-> exists k, get_list media_files k <> []) /\
      photo_paths = get_list media_files "photos"
  | Raise x => last (trace o) = Some (DownloadMediaGroup message, Some x)
  | Stuck => False
  end.
Proof.
  cbn zeta.
  unfold _collect_media_group_files, cache_add, cache_get, sleep, bind, perform,
    perform_total, ret, result, trace.
  repeat (case_match; simplify_eq); cbn in *; simplify_eq; try done;
    (split; [done|]); (split; [apply any_media_true_iff|]);
    unfold truthy_dict, get_list in *; try case_bool_decide; subst; cbn; try done.
Qed.

(** X6. [_collect_media_group_files] fails only through the download of
    the media group: an error it raises is the error of that download,
    which is then its last call.  When the download succeeds it is again
    the last call, and the result is computed from the downloaded mapping:
    [has_media] says that some kind has a file, [photo_paths] is the list
    under ["photos"]. *)
Theorem collect_outcome message e :
  let o := _collect_media_group_files P message e in
  match result o with
  | Ok (media_files, has_media, photo_paths) =>
      last (trace o) = Some (DownloadMediaGroup message, None) /\
      (has_media = true <-> exists k, get_list media_files k <> []) /\
      photo_paths = get_list media_files "photos"
  | Raise x => last (trace o) = Some (DownloadMediaGroup message, Some x)
  | Stuck => False
  end.
Proof. apply collect_run. Qed.

Lemma merge_fold_flag (media_files reply_media_files : MediaFiles) has_media :
  (map_fold merge_kind (media_files, has_media) reply_media_files).2 =
  has_media || any_media reply_media_files.
Proof.
  apply eq_true_iff_eq. rewrite orb_true_iff, any_media_true_iff.
  apply (map_fold_weak_ind
           (fun (acc : MediaFiles * bool) (m : MediaFiles) =>
              acc.2 = true <-> has_media = true \/ exists k, get_list m k <> [])).
  - cbn. split; [auto|]. intros [?|[k Hk]]; [done|].
    unfold get_list in Hk. by rewrite lookup_empty in Hk.
  - intros i x m [mf hm] Hi IH. unfold merge_kind. cbn [fst snd] in *.
    destruct x as [|p x]; cbn [Py.truthy_list snd].
    + rewrite IH. split; (intros [?|[k Hk]]; [by left|right; exists k]);
        unfold get_list in *; destruct (decide (k = i)) as [->|Hne];
        rewrite ?lookup_insert_eq, ?lookup_insert_ne in * by done; cbn in *;
          try done.
      by rewrite Hi in Hk.
    + split; [|done]. intros _. right. exists i. unfold get_list.
      by rewrite lookup_insert_eq.
Qed.

(** X7. After the merge of the replied-to message's media, [has_media] is
    true exactly when the trigger or the reply had media, and that is
    exactly when the merged mapping has a file: the flag handed to
    [_reply_help] stays in step with the mapping handed to the service. *)
Theorem merged_has_media media_files photo_paths reply_media_files :
  let merged := merge_reply_media media_files (any_media media_files) photo_paths
                                  reply_media_files (any_media reply_media_files) in
  merged.1.2 = any_media media_files || any_media reply_media_files /\
  merged.1.2 = any_media merged.1.1.
Proof.
  cbn zeta.
  assert (Hmerged :
    any_media (merge_reply_media media_files (any_media media_files) photo_paths
                 reply_media_files (any_media reply_media_files)).1.1 =
    any_media media_files || any_media reply_media_files).
  { apply eq_true_iff_eq. rewrite orb_true_iff, !any_media_true_iff.
    split.
    - intros [k Hk]. rewrite merge_reply_media_get in Hk.
      destruct (get_list media_files k) eqn:Hm; [right|left]; exists k; [|congruence].
      exact Hk.
    - intros [[k Hk]|[k Hk]]; exists k; rewrite merge_reply_media_get;
        intros Happ; apply app_eq_nil in Happ as [? ?]; congruence. }
  rewrite Hmerged.
  enough ((merge_reply_media media_files (any_media media_files) photo_paths
             reply_media_files (any_media reply_media_files)).1.2 =
          any_media media_files || any_media reply_media_files) by done.
  unfold merge_reply_media.
  destruct (any_media reply_media_files) eqn:Hany; cbn [andb].
  2:{ cbn. by rewrite orb_false_r. }
  destruct (truthy_dict reply_media_files) eqn:Hr.
  2:{ apply truthy_dict_false in Hr. subst. by vm_compute in Hany. }
  destruct (truthy_dict media_files) eqn:Hm; cbn [negb].
  - pose proof (merge_fold_flag media_files reply_media_files (any_media media_files)) as Hf.
    destruct (map_fold merge_kind (media_files, any_media media_files) reply_media_files)
      as [merged hm]. cbn in *. by rewrite Hf, Hany.
  - cbn. by rewrite orb_true_r.
Qed.

(** X8. [photo_paths] after the merge.  It starts as the trigger's list
    under ["photos"]; the reply's photos are appended to it.  When the
    trigger's mapping has the key ["photos"], [photo_paths] is the list
    stored there, which the merge has already extended in place: the
    reply's photos then appear twice. *)
Theorem merged_photo_paths media_files has_media reply_media_files :
  let trigger_photos := get_list media_files "photos" in
  let reply_photos := get_list reply_media_files "photos" in
  (merge_reply_media media_files has_media trigger_photos
                     reply_media_files (any_media reply_media_files)).2 =
  trigger_photos ++ reply_photos ++
  (if bool_decide (is_Some (media_files !! "photos")) then reply_photos else []).
Proof.
  cbn zeta. unfold merge_reply_media.
  destruct (any_media reply_media_files) eqn:Hany; cbn [andb].
  2:{ cbn. rewrite (any_media_false reply_media_files) by done.
      case_bool_decide; by rewrite !app_nil_r. }
  destruct (truthy_dict reply_media_files) eqn:Hr.
  2:{ apply truthy_dict_false in Hr. subst. by vm_compute in Hany. }
  destruct (truthy_dict media_files) eqn:Hm; cbn [negb andb].
  - pose proof (merge_fold_lookup media_files reply_media_files has_media "photos") as Hl.
    destruct (map_fold merge_kind (media_files, has_media) reply_media_files)
      as [merged hm]. cbn [fst snd] in *.
    unfold get_list in *. rewrite Hl.
    case_bool_decide as Hsome.
    + destruct Hsome as [tp Htp]. rewrite Htp. cbn.
      destruct (reply_media_files !! "photos") as [[|p ps]|]; cbn;
        rewrite ?Htp, ?app_nil_r; cbn; try done.
      by rewrite <- app_assoc.
    + assert (media_files !! "photos" = None) as ->
          by (destruct (media_files !! "photos"); [by destruct Hsome; eexists|done]).
      cbn. destruct (reply_media_files !! "photos") as [[|p ps]|]; cbn;
        by rewrite ?app_nil_r.
  - apply truthy_dict_false in Hm. subst. cbn.
    unfold get_list. rewrite lookup_empty. cbn.
    rewrite ?bool_decide_eq_false_2 by (intros [? H]; by rewrite lookup_empty in H).
    destruct (reply_media_files !! "photos") as [[|p ps]|]; cbn; by rewrite ?app_nil_r.
Qed.

Lemma collect_with_reply_raises message e x :
  result (collect_with_reply P message e) = Raise x ->
  exists m, last (trace (collect_with_reply P message e)) =
            Some (DownloadMediaGroup m, Some x).
Proof.
  unfold collect_with_reply. rewrite run_bind.
  pose proof (collect_run message e) as H1. cbn zeta in H1.
  destruct (_collect_media_group_files P message e) as [[[[[mf hm] pp]|y|] e1] t1];
    cbn [result trace fst snd] in *; [|intros [= ->]; by exists message|done].
  destruct (reply_to_message message) as [reply|]; [|done].
  rewrite run_bind.
  pose proof (collect_run reply e1) as H2. cbn zeta in H2.
  destruct (_collect_media_group_files P reply e1) as [[[[[rmf rhm] rpp]|y|] e2] t2];
    cbn [result trace fst snd] in *; [done| |done].
  intros [= ->]. exists reply. rewrite last_app, H2. done.
Qed.

Lemma collect_with_reply_unstuck message e :
  result (collect_with_reply P message e) <> Stuck.
Proof.
  unfold collect_with_reply. rewrite run_bind.
  pose proof (collect_run message e) as H1. cbn zeta in H1.
  destruct (_collect_media_group_files P message e) as [[[[[mf hm] pp]|y|] e1] t1];
    cbn [result trace fst snd] in *; [|done|done].
  destruct (reply_to_message message) as [reply|]; [|done].
  rewrite run_bind.
  pose proof (collect_run reply e1) as H2. cbn zeta in H2.
  destruct (_collect_media_group_files P reply e1) as [[[[[rmf rhm] rpp]|y|] e2] t2];
    cbn [result trace fst snd] in *; done.
Qed.

(** X9. [imagine_command] lets an error out in two places only: when the
    download of a media group fails during the aggregation, and when the
    error notice itself cannot be sent.  In both cases the failed call is
    the last call made and its error is the one raised.  Errors of the
    reaction, of the usage message, of the generation service and of the
    streaming of the response are all handled. *)
Theorem imagine_command_raises_only update args e :
  let o := imagine_command P update args e in
  match result o with
  | Ok _ => True
  | Raise x =>
      (exists m, last (trace o) = Some (DownloadMediaGroup m, Some x)) \/
      (exists chat message,
          _match_context update = (Some message, Some chat) /\
          last (trace o) =
            Some (SendMessage (chat_id chat) ERROR_TEXT "HTML" (message_id message), Some x))
  | Stuck => False
  end.
Proof.
  cbn zeta.
  destruct (inline_query update) eqn:Hinline;
    [by rewrite imagine_command_gated by auto|].
  destruct (should_ignore_command_in_group P update e) eqn:Hignore;
    [by rewrite imagine_command_gated by auto|].
  destruct (_match_context update) as [[message|] [chat|]] eqn:Hctx;
    try (by rewrite imagine_command_gated by (rewrite Hctx; auto)).
  pose proof (collect_with_reply_raises message e) as Hraise.
  pose proof (collect_with_reply_unstuck message e) as Hstuck.
  destruct (collect_with_reply P message e) as [[[[[mf hm] pp]|x|] e1] t1] eqn:Hcollect;
    cbn [result trace fst snd] in *.
  - pose proof (imagine_command_after_collect P update args e message chat _ e1 t1
                  Hinline Hignore Hctx Hcollect) as Hrun.
    cbn zeta in Hrun. rewrite Hrun. clear Hrun. rewrite result_mk, trace_mk.
    unfold _reply_help, _reply_emoji_reaction, ask, try_except, bind, perform, ret.
    repeat (case_match; simplify_eq); cbn in *; simplify_eq; try done;
      right; exists chat, message; (split; [done|]);
      rewrite last_app; reflexivity.
  - rewrite (imagine_command_collect_fails update args e message chat _ e1 t1
               Hinline Hignore Hctx Hcollect), result_mk, trace_mk by done.
    left. by apply Hraise.
  - done.
Qed.

(** X10. With a non-empty prompt, a command that gets past the gates hands
    the prompt to the generation service as typed, with the collected
    media, whether or not there is media and whether or not the reaction
    could be set; the invocation follows the reaction directly. *)
Theorem nonempty_prompt_passed_as_typed update args e message chat
        media_files has_media photo_paths e1 t1 :
  inline_query update = false ->
  should_ignore_command_in_group P update e = false ->
  _match_context update = (Some message, Some chat) ->
  prompt_of args <> "" ->
  collect_with_reply P message e = (Ok (media_files, has_media, photo_paths), e1, t1) ->
  let o := imagine_command P update args e in
  prompts (trace o) = [prompt_of args] /\
  exists reacted username rest,
    trace o =
      t1 ++ (SetMessageReaction (chat_id chat) (message_id message), reacted) :: rest /\
    head (calls rest) =
      Some (InvokeModelStreaming (Py.rstrip "@" username) (prompt_of args)
                                 (from_user_fmt message) photo_paths media_files).
Proof.
  intros Hinline Hignore Hctx Hprompt Hcollect o. subst o.
  pose proof (collect_with_reply_emits P message e) as Hagg.
  rewrite Hcollect in Hagg. cbn [trace snd] in Hagg.
  assert (Hnone : prompts t1 = [])
    by (unfold prompts; apply (only_omap_nil is_aggregation_call _ t1
                                 aggregation_no_prompt Hagg)).
  rewrite (imagine_command_after_collect P update args e message chat _ e1 t1
             Hinline Hignore Hctx Hcollect).
  assert (Py.truthy_str (prompt_of args) = true) as Htruthy
      by (by destruct (prompt_of args)).
  rewrite trace_mk. unfold prompts in Hnone |- *. rewrite omap_app, Hnone. cbn [app].
  unfold _reply_help, _reply_emoji_reaction, ask, try_except, bind, perform, ret.
  rewrite Htruthy. cbn.
  repeat (case_match; simplify_eq); cbn; (split; [reflexivity|]);
    eexists _, _, _; (split; [reflexivity|]); reflexivity.
Qed.

End HandlerProperties.

(* ================================================================== *)
(** ** The delivery pipeline: further properties *)

Section DeliveryProperties.
Context {E : Type} (P : Platform E).
Implicit Types e : E.

(** X11. [_download_image_from_url] never raises.  When it returns a path,
    every call went through and the calls were, in this order: the
    creation of the directory, a [uuid4] only if the URL does not give the
    name, the request, and the write, to the returned path, of the very
    bytes the request returned.  When it returns [None], either the calls
    stop at the first one that raised, or [urlparse] refused the URL and
    the creation of the directory, which went through, is the only
    call. *)
Theorem download_outcome url e :
  let o := _download_image_from_url P url e in
  match result o with
  | Ok (Some p) =>
      clean (trace o) /\
      exists content e1,
        (httpx_get P url e1).1 = inr content /\
        calls (trace o) =
          Mkdir (temp_dir P) :: (if named_by_url P url then [] else [Uuid4])
          ++ [HttpGet url; WriteBytes p content]
  | Ok None =>
      (exists t c x, trace o = t ++ [(c, Some x)] /\ clean t) \/
      (url_name P url = None /\ trace o = [(Mkdir (temp_dir P), None)])
  | _ => False
  end.
Proof.
  cbn zeta. unfold named_by_url, url_name.
  unfold _download_image_from_url, try_except, bind, perform, perform_total, ret, raise,
    result, trace, calls, clean.
  destruct (url_filename P url) as [err|name].
  { repeat (case_match; simplify_eq); cbn in *; simplify_eq;
      first [ by right
            | left; by eexists [], _, _; split; [reflexivity|repeat constructor] ]. }
  rewrite <- negb_andb.
  destruct (Py.truthy_str name && has_image_suffix name); cbn [negb];
    repeat (case_match; simplify_eq); cbn in *; simplify_eq;
    first
      [ split; [by repeat constructor|];
        match goal with
        | H : httpx_get P url ?e1 = (inr ?c, _) |- _ =>
            exists c, e1; by rewrite H
        end
      | left; by eexists [], _, _; split; [reflexivity|repeat constructor]
      | left; by eexists [_], _, _; split; [reflexivity|repeat constructor]
      | left; by eexists [_; _], _, _; split; [reflexivity|repeat constructor]
      | left; by eexists [_; _; _], _, _; split; [reflexivity|repeat constructor] ].
Qed.

Lemma split_no_separator c s :
  Forall (fun w => Url.all_chars (fun a => negb (Ascii.eqb a c)) w = true) (Py.split c s).
Proof.
  induction s as [|a s IH]; cbn [Py.split]; [by repeat constructor|].
  destruct (Ascii.eqb a c) eqn:Ha; [by constructor|].
  destruct (Py.split c s) as [|w ws]; [by repeat constructor; cbn; rewrite Ha|].
  inversion IH; subst. constructor; [|done]. cbn. by rewrite Ha.
Qed.

Lemma last_in_or_default {A} (l : list A) d : List.last l d = d \/ List.last l d ∈ l.
Proof.
  induction l as [|x [|y l] IH]; [by left|right; cbn; by constructor|].
  destruct IH as [IH|IH]; [left|right]; [done|].
  change (List.last (x :: y :: l) d) with (List.last (y :: l) d). by constructor.
Qed.

Lemma no_char_not_contains c w :
  Url.all_chars (fun a => negb (Ascii.eqb a c)) w = true ->
  Py.contains (String c "") w = false.
Proof.
  induction w as [|a w IH]; [done|]. cbn [Url.all_chars Py.contains String.prefix].
  intros H. apply andb_prop in H as [Ha Hw]. rewrite (IH Hw).
  destruct (ascii_dec c a) as [->|_]; [|done].
  by rewrite Ascii.eqb_refl in Ha.
Qed.

(** X12. A download named after its URL writes directly into the
    directory of generated images: the name it appends is not empty, is
    not ["."] and has no ["/"] in it, whatever the URL. *)
Theorem download_named_stays_in_temp_dir url e p :
  result (_download_image_from_url P url e) = Ok (Some p) ->
  named_by_url P url = true ->
  exists name,
    p = path_join (temp_dir P) name /\
    name <> "" /\ name <> "." /\ Py.contains "/" name = false.
Proof.
  intros Hp Hn. destruct (download_target P _ _ _ Hp) as (name & Hname & Ht).
  rewrite Hn in Ht. exists name. split; [exact Ht|].
  unfold named_by_url in Hn. rewrite Hname in Hn. apply andb_prop in Hn as [Hne Hsuffix].
  split; [by destruct name|].
  split; [intros Heq; rewrite Heq in Hsuffix; by vm_compute in Hsuffix|].
  unfold url_name, url_filename in Hname.
  destruct (Url.urlparse_path (urllib_check_netloc P) url) as [err|parsed_path]; [done|].
  injection Hname as <-.
  apply no_char_not_contains.
  unfold Url.path_name in *.
  match goal with
  | |- context [List.last ?l ""] => destruct (last_in_or_default l "") as [Hd|Hin]
  end; [by rewrite Hd in Hne|].
  apply list_elem_of_In, List.filter_In in Hin as [Hin _].
  apply list_elem_of_In in Hin.
  pose proof (split_no_separator "/" parsed_path) as Hall.
  rewrite Forall_forall in Hall. by apply Hall.
Qed.

(** *** Invariants of the calls, carried through the pipeline *)

Lemma only_bind {A B} Q (c : M E A) (k : A -> M E B) e :
  only Q (trace (c e)) ->
  (forall a e1 t1, c e = (Ok a, e1, t1) -> only Q (trace (k a e1))) ->
  only Q (trace (bind c k e)).
Proof.
  intros Hc Hk. rewrite run_bind.
  destruct (c e) as [[[a|x|] e1] t1] eqn:Hrun; cbn in *; try exact Hc.
  apply Forall_app; split; [exact Hc | by eapply Hk].
Qed.

Lemma only_try_except {A} Q (body : M E A) handler e :
  only Q (trace (body e)) ->
  (forall x e1 t1, body e = (Raise x, e1, t1) -> only Q (trace (handler x e1))) ->
  only Q (trace (try_except body handler e)).
Proof.
  intros Hb Hh. rewrite run_try_except.
  destruct (body e) as [[[a|x|] e1] t1] eqn:Hrun; cbn in *; try exact Hb.
  apply Forall_app; split; [exact Hb | by eapply Hh].
Qed.

Lemma send_original_files_rec_only Q budget chat_id files :
  (forall reply_to, emits Q (send_documents P chat_id files reply_to)) ->
  forall preview trigger,
    emits Q (send_original_files_rec P budget chat_id files preview trigger).
Proof.
  intros Hdocs.
  induction budget as [|budget IH]; intros preview trigger;
    cbn [send_original_files_rec];
    (destruct files as [|f fs]; [apply emits_ret|]);
    cbn [Py.truthy_list negb];
    (apply emits_try_except;
     [ apply emits_bind; [by apply Hdocs | intros; apply emits_ret]
     | intros x; destruct (retry_with_trigger preview trigger); eauto with emits ]).
Qed.

Section Loop.
Variables (chat_id : Z) (files : list Path)
          (caption_markdown caption_html : string)
          (reply_to : option Z) (initial_message trigger_message : option Message).

Local Abbreviation preview :=
  (send_preview P chat_id files caption_markdown caption_html reply_to initial_message).
Local Abbreviation originals := (send_originals_and_succeed P chat_id files trigger_message).
Local Abbreviation loop :=
  (try_parse_modes P chat_id files caption_markdown caption_html
                   reply_to initial_message trigger_message).

Lemma originals_only Q :
  (forall target, emits Q (send_documents P chat_id files target)) ->
  forall pmid, emits Q (originals pmid).
Proof.
  intros Hdocs pmid. unfold send_originals_and_succeed, _send_original_files.
  apply emits_bind; [by apply send_original_files_rec_only|]. intros. apply emits_ret.
Qed.

Lemma loop_only Q :
  files <> [] ->
  (forall pm pmid, emits Q (preview pm pmid)) ->
  (forall pmid, emits Q (originals pmid)) ->
  forall pms pmid, emits Q (loop pms pmid).
Proof.
  intros Hne Hp Ho pms.
  induction pms as [|pm rest IH]; intros pmid e; [constructor|].
  rewrite loop_round by done.
  specialize (Hp pm pmid e).
  destruct (preview pm pmid e) as [[[pmid'|x|] e1] t1]; cbn in Hp |- *.
  - apply Forall_app; split; [exact Hp | apply Ho].
  - destruct (caption_too_long x); cbn; (apply Forall_app; split; [exact Hp|]);
      [apply Ho | apply IH].
  - exact Hp.
Qed.

End Loop.

Lemma read_all_only Q files :
  (forall c, is_read_call c = true -> Q c = true) -> emits Q (read_all P files).
Proof. intros HQ. eapply emits_weaken; [exact HQ | apply read_all_reads]. Qed.

(** The items of a document group: one per file, in order, each under
    the name of its file; the count caption on the first item only. *)
Lemma document_group_items total files : forall i e items e1 t1,
  document_group P total i files e = (Ok items, e1, t1) ->
  calls t1 = ReadBytes <$> files /\
  Forall2 (fun file_path item => exists doc_bytes caption,
             item = InputMediaDocument doc_bytes (Url.path_name file_path) caption)
          files items /\
  omap (fun item => match item with
                    | InputMediaDocument _ _ caption => caption
                    | _ => None
                    end) items
  = if (i =? 0) && Py.truthy_list files then [originals_caption total] else [].
Proof.
  induction files as [|f files IH]; intros i e items e1 t1; cbn [document_group].
  - intros [= <- _ <-]. rewrite andb_false_r. by repeat split.
  - unfold read_bytes. rewrite run_bind. unfold perform at 1.
    destruct (path_read_bytes P f e) as [[err|b] e2]; [done|].
    rewrite run_bind. specialize (IH (S i) e2).
    destruct (document_group P total (S i) files e2) as [[[more|x|] e3] t3];
      cbn; intros Heq; simplify_eq.
    destruct (IH more _ _ eq_refl) as (Hcalls & Hitems & Hcaps).
    cbn [andb] in Hcaps.
    split; [unfold calls in *; by rewrite app_nil_r, fmap_cons, Hcalls|].
    split; [constructor; [by destruct (i =? 0); eexists _, _|exact Hitems]|].
    rewrite andb_true_r. destruct (i =? 0); cbn; by rewrite Hcaps.
Qed.

Lemma document_group_length total files i e items e1 t1 :
  document_group P total i files e = (Ok items, e1, t1) -> length items = length files.
Proof.
  intros Hrun. apply document_group_items in Hrun as (_ & Hitems & _).
  symmetry. by eapply Forall2_length.
Qed.

Lemma document_group_only Q total files i :
  (forall c, is_read_call c = true -> Q c = true) ->
  emits Q (document_group P total i files).
Proof. intros HQ. eapply emits_weaken; [exact HQ | apply document_group_reads]. Qed.

(** *** Sizes *)

Lemma omap_length_le {A B} (f : A -> option B) (l : list A) :
  length (omap f l) <= length l.
Proof. induction l as [|a l IH]; cbn; [lia|]. destruct (f a); cbn; lia. Qed.

Lemma read_sized n c : is_read_call c = true -> sized n c = true.
Proof. by destruct c. Qed.

Lemma send_documents_sized chat_id files target :
  files <> [] -> emits (sized (length files)) (send_documents P chat_id files target).
Proof.
  intros Hne e. unfold send_documents. destruct files as [|f [|g files]]; [done| |].
  - revert e. change (emits (sized 1)
      (document <- read_bytes P f ;;
       send_document P chat_id document (Url.path_name f) ORIGINAL_CAPTION target)).
    unfold read_bytes, send_document. eauto 10 with emits.
  - apply only_bind; [apply document_group_only, read_sized|].
    intros items e1 t1 Hrun. apply document_group_length in Hrun.
    apply only_bind; [|intros; constructor].
    apply emits_perform. cbn [sized]. rewrite Hrun. cbn. by rewrite Nat.eqb_refl.
Qed.

Lemma send_group_sized chat_id caption reply_to parse_mode delete_id files :
  2 <= length files ->
  emits (sized (length files))
        (_send_photo_group_with_caption P chat_id caption reply_to parse_mode delete_id files).
Proof.
  intros Hn e.
  assert (Hsize : (2 <=? length files)%nat = true) by by apply Nat.leb_le.
  unfold _send_photo_group_with_caption, resend_group_without_caption,
    send_media_group, delete_message.
  apply only_bind; [apply read_all_only, read_sized|].
  intros photos e1 t1 Hread. apply read_all_length in Hread.
  apply emits_try_except.
  - apply emits_bind; [|eauto 10 with emits].
    apply emits_perform. cbn [sized]. unfold captioned_group.
    by rewrite length_imap, Hread, Nat.eqb_refl.
  - intros x e2. destruct (caption_too_long x); [|constructor].
    apply only_bind; [apply read_all_only, read_sized|].
    intros photos' e3 t3 Hread'. apply read_all_length in Hread'.
    apply emits_bind; [|eauto 10 with emits].
    apply emits_perform. cbn [sized]. unfold plain_group.
    by rewrite length_fmap, Hread', Nat.eqb_refl.
Qed.

Lemma send_preview_sized chat_id files cm ch reply_to initial_message pm pmid :
  files <> [] ->
  emits (sized (length files))
        (send_preview P chat_id files cm ch reply_to initial_message pm pmid).
Proof.
  intros Hne. unfold send_preview, message_id_of, read_bytes.
  destruct files as [|f [|g fs]]; [done| |].
  - unfold _send_single_photo_with_caption, resend_photo_without_caption,
      send_photo, delete_message.
    destruct initial_message; eauto 30 with emits.
  - apply emits_bind; [destruct initial_message; eauto with emits|]. intros.
    apply emits_bind; [apply send_group_sized; cbn; lia|]. eauto with emits.
Qed.

Lemma written_app t1 t2 : written (t1 ++ t2) = written t1 ++ written t2.
Proof. apply omap_app. Qed.

Lemma written_nil Q t :
  (forall c, Q c = true -> match c with WriteBytes _ _ => false | _ => true end = true) ->
  only Q t -> written t = [].
Proof.
  intros HQ.
  induction 1 as [|[c o] t Hc _ IH]; [done|].
  change ((c, o) :: t) with ([(c, o)] ++ t).
  rewrite written_app, IH, app_nil_r. specialize (HQ c Hc). by destruct c.
Qed.

Lemma download_written url e :
  written (trace (_download_image_from_url P url e)) =
  match result (_download_image_from_url P url e) with
  | Ok (Some file_path) => [file_path]
  | _ => []
  end.
Proof.
  unfold _download_image_from_url, try_except, bind, perform, perform_total, ret, raise,
    result, trace, written.
  repeat (case_match; simplify_eq); cbn in *; by simplify_eq.
Qed.

Lemma downloads_written urls e rs e' t :
  downloads P urls e rs e' t -> written t = omap id rs.
Proof.
  induction 1 as [|url urls e r e1 t1 rs e2 t2 Hd _ IH]; [done|].
  rewrite written_app, IH.
  pose proof (download_written url e) as Hw. rewrite Hd, result_mk, trace_mk in Hw.
  rewrite Hw. by destruct r.
Qed.

Lemma loop_written chat_id files cm ch reply_to initial_message trigger_message pms pmid e :
  files <> [] ->
  written (trace (try_parse_modes P chat_id files cm ch reply_to initial_message
                                  trigger_message pms pmid e)) = [].
Proof.
  intros Hne. eapply written_nil; [|by apply loop_emits]. by intros [].
Qed.

(** X13. The files downloaded decide how everything is sent.  Let [n] be
    the number of files written by the downloads of the run, which is at
    most ten and at most the number of URLs.  Every media group
    [_send_imagine_result] sends, of photos or of documents, has exactly
    [n] items, and groups are sent only when [n] is at least two; a single
    photo or a single document is sent only when [n] is one. *)
Theorem media_groups_sized chat_id image_urls params reply_to initial_message
        final_answer trigger_message e :
  let t := trace (_send_imagine_result P chat_id image_urls (Some params) reply_to
                                       initial_message final_answer trigger_message e) in
  let n := length (written t) in
  n <= 10 /\ n <= length image_urls /\ only (sized n) t.
Proof.
  cbn zeta.
  destruct (send_imagine_result_unfold P chat_id image_urls params reply_to initial_message
              final_answer trigger_message e) as (rs & e1 & t1 & Hds & ->).
  pose proof (downloads_only P _ _ _ _ _ Hds) as Hdl.
  pose proof (downloads_length P _ _ _ _ _ Hds) as Hlen.
  pose proof (downloads_written _ _ _ _ _ Hds) as Hw.
  assert (Hdl' : forall n, only (sized n) t1).
  { intros n. eapply only_weaken; [|exact Hdl]. by intros []. }
  assert (length (omap id rs) <= length (take 10 image_urls))
    by (rewrite <- Hlen; apply omap_length_le).
  rewrite length_take in *.
  destruct (omap id rs) as [|f fs] eqn:Hfiles.
  { rewrite trace_mk, Hw. cbn. split; [lia|]. split; [lia|]. apply Hdl'. }
  cbn zeta. rewrite trace_mk, written_app, Hw, loop_written, app_nil_r by done.
  split; [lia|]. split; [lia|].
  apply Forall_app; split; [apply Hdl'|].
  apply loop_only; [done| |].
  - intros pm pmid. by apply send_preview_sized.
  - apply originals_only. intros target. by apply send_documents_sized.
Qed.

(** *** Addresses *)

Lemma emits_bind_ret {A B} Q (a : A) (k : A -> M E B) :
  emits Q (k a) -> emits Q (bind (ret a) k).
Proof.
  intros Hk e. specialize (Hk e). rewrite run_bind. cbn.
  by destruct (k a e) as [[r e1] t1].
Qed.

Lemma emits_bind_raise {A B} Q x (k : A -> M E B) : emits Q (bind (raise x) k).
Proof. intros e. constructor. Qed.

Lemma read_addressed chat_id reply_to placeholder c :
  is_read_call c = true -> addressed chat_id reply_to placeholder c = true.
Proof. by destruct c. Qed.

Lemma photo_addressed chat_id reply_to placeholder photo caption parse_mode :
  addressed chat_id reply_to placeholder
            (SendPhoto chat_id photo caption reply_to parse_mode) = true.
Proof. cbn. by rewrite Z.eqb_refl, bool_decide_eq_true_2. Qed.

Lemma group_addressed chat_id reply_to placeholder media :
  addressed chat_id reply_to placeholder (SendMediaGroup chat_id media reply_to) = true.
Proof. cbn. by rewrite Z.eqb_refl, bool_decide_eq_true_2, orb_true_r. Qed.

Lemma delete_addressed chat_id reply_to delete_id :
  addressed chat_id reply_to (Some delete_id) (DeleteMessage chat_id delete_id) = true.
Proof. cbn. by rewrite Z.eqb_refl, bool_decide_eq_true_2. Qed.

Lemma send_documents_addressed chat_id reply_to placeholder files target :
  files <> [] ->
  emits (addressed chat_id reply_to placeholder) (send_documents P chat_id files target).
Proof.
  intros Hne e. unfold send_documents. destruct files as [|f [|g files]]; [done| |].
  - revert e. change (emits (addressed chat_id reply_to placeholder)
      (document <- read_bytes P f ;;
       send_document P chat_id document (Url.path_name f) ORIGINAL_CAPTION target)).
    unfold read_bytes, send_document.
    apply emits_bind; [eauto with emits|]. intros.
    apply emits_perform. cbn. apply Z.eqb_refl.
  - apply only_bind; [apply document_group_only, read_addressed|].
    intros items e1 t1 Hrun. apply document_group_first in Hrun; [|done].
    apply only_bind; [|intros; constructor].
    apply emits_perform. cbn. by rewrite Z.eqb_refl, Hrun.
Qed.

Lemma send_preview_addressed chat_id files cm ch reply_to initial_message pm pmid :
  emits (addressed chat_id reply_to (message_id <$> initial_message))
        (send_preview P chat_id files cm ch reply_to initial_message pm pmid).
Proof.
  assert (Hgroup : forall caption mode m,
    emits (addressed chat_id reply_to (Some (message_id m)))
          (_send_photo_group_with_caption P chat_id caption reply_to mode
                                          (message_id m) files)).
  { intros caption mode m.
    unfold _send_photo_group_with_caption, resend_group_without_caption,
      send_media_group, delete_message.
    apply emits_bind; [apply read_all_only, read_addressed|]. intros photos.
    apply emits_try_except.
    - apply emits_bind; [apply emits_perform, group_addressed|]. intros.
      apply emits_bind; [apply emits_perform, delete_addressed|]. intros. apply emits_ret.
    - intros x. destruct (caption_too_long x); [|apply emits_raise].
      apply emits_bind; [apply read_all_only, read_addressed|]. intros photos'.
      apply emits_bind; [apply emits_perform, group_addressed|]. intros.
      apply emits_bind; [apply emits_perform, delete_addressed|]. intros. apply emits_ret. }
  assert (Hsingle : forall caption mode m photo,
    emits (addressed chat_id reply_to (Some (message_id m)))
          (_send_single_photo_with_caption P chat_id caption reply_to mode
                                           (message_id m) photo)).
  { intros caption mode m photo.
    unfold _send_single_photo_with_caption, resend_photo_without_caption,
      send_photo, delete_message.
    apply emits_try_except.
    - apply emits_bind; [apply emits_perform, photo_addressed|]. intros.
      apply emits_bind; [apply emits_perform, delete_addressed|]. intros. apply emits_ret.
    - intros x. destruct (caption_too_long x); [|apply emits_raise].
      apply emits_bind; [apply emits_perform, photo_addressed|]. intros.
      apply emits_bind; [apply emits_perform, delete_addressed|]. intros. apply emits_ret. }
  unfold send_preview, message_id_of, read_bytes.
  destruct initial_message as [m|]; cbn [fmap option_fmap option_map];
    destruct files as [|f [|g fs]];
    repeat first [ apply Hgroup | apply Hsingle
                 | apply emits_ret | apply emits_raise
                 | apply emits_bind_ret | apply emits_bind_raise
                 | apply emits_perform; reflexivity
                 | apply emits_bind; [|intros] ].
Qed.

Lemma send_imagine_result_addressed chat_id image_urls params reply_to initial_message
      final_answer trigger_message e :
  only (addressed chat_id reply_to (message_id <$> initial_message))
       (trace (_send_imagine_result P chat_id image_urls (Some params) reply_to initial_message
                                    final_answer trigger_message e)).
Proof.
  destruct (send_imagine_result_unfold P chat_id image_urls params reply_to initial_message
              final_answer trigger_message e) as (rs & e1 & t1 & Hds & ->).
  pose proof (downloads_only P _ _ _ _ _ Hds) as Hdl.
  assert (Hdl' : only (addressed chat_id reply_to (message_id <$> initial_message)) t1).
  { eapply only_weaken; [|exact Hdl]. by intros []. }
  destruct (omap id rs) as [|f fs] eqn:Hfiles; [apply Hdl'|].
  cbn zeta. rewrite trace_mk. apply Forall_app; split; [apply Hdl'|].
  apply loop_only; [done| |].
  - intros pm pmid. apply send_preview_addressed.
  - apply originals_only. intros target. by apply send_documents_addressed.
Qed.

(** X14. Every Telegram call of [_send_imagine_result] goes to the chat it
    was given.  Previews, with or without caption, are sent in reply to
    [reply_to_message_id]; the only message it ever tries to delete is the
    placeholder; it sends no text message and sets no reaction. *)
Theorem delivery_calls_addressed chat_id image_urls params reply_to initial_message
        final_answer trigger_message e :
  only (addressed chat_id reply_to (message_id <$> initial_message))
       (trace (_send_imagine_result P chat_id image_urls (Some params) reply_to initial_message
                                    final_answer trigger_message e)).
Proof. apply send_imagine_result_addressed. Qed.

(** *** Captions *)

Lemma read_caption_paired cm ch c : is_read_call c = true -> caption_paired cm ch c = true.
Proof. by destruct c. Qed.

Lemma documents_caption_paired cm ch chat_id media target :
  document_first media = true ->
  caption_paired cm ch (SendMediaGroup chat_id media target) = true.
Proof. by destruct media as [|[] ?]. Qed.

Lemma captioned_photo_fits cm ch chat_id photo reply_to pm :
  caption_paired cm ch
    (SendPhoto chat_id photo (Some (if is_html pm then ch else cm)) reply_to
               (Some (str_parse_mode pm))) = true.
Proof. destruct pm as [[]|]; cbn; apply String.eqb_refl. Qed.

Lemma captioned_group_fits cm ch chat_id photos reply_to pm :
  caption_paired cm ch
    (SendMediaGroup chat_id
       (captioned_group photos (if is_html pm then ch else cm) (str_parse_mode pm))
       reply_to) = true.
Proof. destruct photos; [done|]. destruct pm as [[]|]; cbn; apply String.eqb_refl. Qed.

Lemma plain_group_fits cm ch chat_id photos reply_to :
  caption_paired cm ch (SendMediaGroup chat_id (plain_group photos) reply_to) = true.
Proof. by destruct photos. Qed.

Lemma send_documents_caption_paired cm ch chat_id files target :
  files <> [] -> emits (caption_paired cm ch) (send_documents P chat_id files target).
Proof.
  intros Hne e. unfold send_documents. destruct files as [|f [|g files]]; [done| |].
  - revert e. change (emits (caption_paired cm ch)
      (document <- read_bytes P f ;;
       send_document P chat_id document (Url.path_name f) ORIGINAL_CAPTION target)).
    unfold read_bytes, send_document. eauto 10 with emits.
  - apply only_bind; [apply document_group_only, read_caption_paired|].
    intros items e1 t1 Hrun. apply document_group_first in Hrun; [|done].
    apply only_bind; [|intros; constructor].
    by apply emits_perform, documents_caption_paired.
Qed.

Lemma send_preview_caption_paired chat_id files cm ch reply_to initial_message pm pmid :
  emits (caption_paired cm ch)
        (send_preview P chat_id files cm ch reply_to initial_message pm pmid).
Proof.
  assert (Hgroup : forall delete_id,
    emits (caption_paired cm ch)
          (_send_photo_group_with_caption P chat_id (if is_html pm then ch else cm)
             reply_to (str_parse_mode pm) delete_id files)).
  { intros delete_id.
    unfold _send_photo_group_with_caption, resend_group_without_caption,
      send_media_group, delete_message.
    apply emits_bind; [apply read_all_only, read_caption_paired|]. intros photos.
    apply emits_try_except.
    - apply emits_bind; [apply emits_perform, captioned_group_fits|]. eauto 10 with emits.
    - intros x. destruct (caption_too_long x); [|apply emits_raise].
      apply emits_bind; [apply read_all_only, read_caption_paired|]. intros photos'.
      apply emits_bind; [apply emits_perform, plain_group_fits|]. eauto 10 with emits. }
  assert (Hsingle : forall delete_id photo,
    emits (caption_paired cm ch)
          (_send_single_photo_with_caption P chat_id (if is_html pm then ch else cm)
             reply_to (str_parse_mode pm) delete_id photo)).
  { intros delete_id photo.
    unfold _send_single_photo_with_caption, resend_photo_without_caption,
      send_photo, delete_message.
    apply emits_try_except.
    - apply emits_bind; [apply emits_perform, captioned_photo_fits|]. eauto 10 with emits.
    - intros x. destruct (caption_too_long x); eauto 10 with emits. }
  unfold send_preview, message_id_of, read_bytes.
  destruct initial_message as [m|]; destruct files as [|f [|g fs]];
    repeat first [ apply Hgroup | apply Hsingle
                 | apply emits_ret | apply emits_raise
                 | apply emits_bind_ret | apply emits_bind_raise
                 | apply emits_perform; reflexivity
                 | apply emits_bind; [|intros] ].
Qed.

Lemma caption_paired_captions cm ch t :
  only (caption_paired cm ch) t ->
  Forall (fun mc => mc.2 = if String.eqb mc.1 "HTML" then ch else cm) (captions t).
Proof.
  unfold captions, caption_paired.
  induction 1 as [|[c o] t Hc _ IH]; [constructor|]. cbn in *.
  destruct (caption_of c) as [[mode caption]|]; [|exact IH].
  constructor; [|exact IH]. cbn. by apply String.eqb_eq.
Qed.

Lemma send_imagine_result_captions chat_id image_urls params reply_to initial_message
      final_answer trigger_message e :
  let chosen := chosen_captions final_answer params in
  Forall (fun mc => mc.2 = if String.eqb mc.1 "HTML" then chosen.2 else chosen.1)
         (captions
            (trace (_send_imagine_result P chat_id image_urls (Some params) reply_to
                      initial_message final_answer trigger_message e))).
Proof.
  cbn zeta. apply caption_paired_captions.
  destruct (send_imagine_result_unfold P chat_id image_urls params reply_to initial_message
              final_answer trigger_message e) as (rs & e1 & t1 & Hds & ->).
  pose proof (downloads_only P _ _ _ _ _ Hds) as Hdl.
  assert (Hdl' : forall cm ch, only (caption_paired cm ch) t1).
  { intros cm ch. eapply only_weaken; [|exact Hdl]. by intros []. }
  destruct (omap id rs) as [|f fs] eqn:Hfiles; [apply Hdl'|].
  cbn zeta. rewrite trace_mk. apply Forall_app; split; [apply Hdl'|].
  apply loop_only; [done| |].
  - intros pm pmid. apply send_preview_caption_paired.
  - apply originals_only. intros target. by apply send_documents_caption_paired.
Qed.

(** X15. Every caption [_send_imagine_result] sends is one of the two it
    chose at the start, and goes with its parse mode: the HTML caption is
    sent with parse mode ["HTML"] only, the Markdown caption with the other
    two.  Both are [final_answer] when that is given and not empty;
    otherwise they are the entries of [params], the HTML one defaulting to
    the Markdown one. *)
Theorem captions_go_with_parse_mode chat_id image_urls params reply_to initial_message
        final_answer trigger_message e :
  let chosen := chosen_captions final_answer params in
  Forall (fun mc => mc.2 = if String.eqb mc.1 "HTML" then chosen.2 else chosen.1)
         (captions
            (trace (_send_imagine_result P chat_id image_urls (Some params) reply_to
                      initial_message final_answer trigger_message e))) /\
  match final_answer with
  | Some (String a s) => chosen = (String a s, String a s)
  | _ => chosen.1 = default "" (params !! "caption_markdown") /\
         chosen.2 = default chosen.1 (params !! "caption_html")
  end.
Proof.
  cbn zeta. split; [apply send_imagine_result_captions|].
  by destruct final_answer as [[|a s]|].
Qed.

(** *** The documents of the originals *)





(** *** How the sends end *)

Lemma document_group_last total files : forall i e r e1 t1,
  document_group P total i files e = (r, e1, t1) ->
  match r with
  | Ok _ => True
  | Raise x => exists c, last t1 = Some (c, Some x)
  | Stuck => False
  end.
Proof.
  induction files as [|f files IH]; intros i e r e1 t1; cbn [document_group].
  { by intros [= <- _ _]. }
  unfold read_bytes. rewrite run_bind. unfold perform at 1.
  destruct (path_read_bytes P f e) as [[err|b] e2]; [intros [= <- _ <-]; by eexists|].
  rewrite run_bind. specialize (IH (S i) e2).
  destruct (document_group P total (S i) files e2) as [[[more|x|] e3] t3];
    cbn [result final trace fst snd]; intros Heq; simplify_eq; try done.
  - destruct (IH _ _ _ eq_refl) as [c Hc]. exists c. by rewrite last_app, Hc.
  - by destruct (IH _ _ _ eq_refl).
Qed.

Lemma send_documents_last chat_id files target e :
  files <> [] ->
  let o := send_documents P chat_id files target e in
  match result o with
  | Ok _ => exists c, last (trace o) = Some (c, None) /\ is_originals_send c = true
  | Raise x => exists c, last (trace o) = Some (c, Some x)
  | Stuck => False
  end.
Proof.
  intros Hne. cbn zeta. unfold send_documents.
  destruct files as [|f [|g files]]; [done| |].
  - unfold read_bytes, send_document, bind, perform, ret, result, trace.
    repeat (case_match; simplify_eq); cbn in *; simplify_eq; by eexists.
  - rewrite run_bind.
    destruct (document_group P _ 0 (f :: g :: files) e) as [[[items|x|] e1] t1] eqn:Hrun;
      pose proof (document_group_last _ _ _ _ _ _ _ Hrun) as Hl;
      cbn [result trace fst snd] in *; [|exact Hl|done].
    apply document_group_first in Hrun; [|done].
    unfold send_media_group, bind, perform, ret.
    destruct (bot_send_media_group P chat_id items target e1) as [[err|ms] e2];
      cbn; eexists; rewrite last_app; cbn; eauto.
Qed.

(** X17. What the result of [_send_original_files] says.  [True]: its
    last call is the send of the documents, and it went through.  [False]:
    either there was no file and it made no call, or its last call, a
    read or a send, raised.  It never raises itself. *)
Theorem originals_result_tells_last_call chat_id files preview trigger e :
  let o := _send_original_files P chat_id files preview trigger e in
  match result o with
  | Ok true => exists c, last (trace o) = Some (c, None) /\ is_originals_send c = true
  | Ok false =>
      (files = [] /\ trace o = []) \/ exists c x, last (trace o) = Some (c, Some x)
  | _ => False
  end.
Proof.
  cbn zeta. destruct files as [|f fs]; [by left|].
  rewrite send_original_files_run by done. cbn zeta.
  pose proof (send_documents_last chat_id (f :: fs) (Py.or_oint preview trigger) e
                ltac:(done)) as H1.
  cbn zeta in H1.
  destruct (send_documents P chat_id (f :: fs) (Py.or_oint preview trigger) e)
    as [[[[]|x|] e1] t1]; cbn [result final trace fst snd] in *; [exact H1| |done].
  destruct (retry_with_trigger preview trigger); [|right; destruct H1; by eexists _, _].
  pose proof (send_documents_last chat_id (f :: fs) trigger e1 ltac:(done)) as H2.
  cbn zeta in H2.
  destruct (send_documents P chat_id (f :: fs) trigger e1)
    as [[[[]|y|] e2] t2]; cbn [result final trace fst snd] in *; [| |done].
  - destruct H2 as (c & Hc & Hs). exists c. by rewrite last_app, Hc.
  - right. destruct H2 as [c Hc]. exists c, y. by rewrite last_app, Hc.
Qed.

Lemma raises_last_ret {A} (a : A) e : raises_last (@ret E A a e).
Proof. done. Qed.

Lemma raises_last_perform {X} c (h : E -> (exn + X) * E) e : raises_last (perform c h e).
Proof.
  unfold raises_last, perform, result, trace.
  destruct (h e) as [[x|a] e1]; cbn; [by eexists|done].
Qed.

Lemma raises_last_bind {A B} (c : M E A) (k : A -> M E B) e :
  raises_last (c e) ->
  (forall a e1 t1, c e = (Ok a, e1, t1) -> raises_last (k a e1)) ->
  raises_last (bind c k e).
Proof.
  intros Hc Hk. rewrite run_bind. unfold raises_last in *.
  destruct (c e) as [[[a|x|] e1] t1]; cbn [result trace fst snd] in *; try exact Hc.
  specialize (Hk a e1 t1 eq_refl).
  destruct (result (k a e1)) as [b|x|]; try done.
  destruct Hk as [c' Hc']. exists c'. by rewrite last_app, Hc'.
Qed.

Lemma raises_last_try_except {A} (body : M E A) handler e :
  raises_last (body e) ->
  (forall x e1 t1, body e = (Raise x, e1, t1) ->
                   handler x e1 = (Raise x, e1, []) \/ raises_last (handler x e1)) ->
  (forall x e1 t1, body e = (Raise x, e1, t1) -> result (handler x e1) <> Stuck) ->
  raises_last (try_except body handler e).
Proof.
  intros Hb Hh Hs. rewrite run_try_except. unfold raises_last in *.
  destruct (body e) as [[[a|x|] e1] t1]; cbn [result trace fst snd] in *; try done.
  specialize (Hs x e1 t1 eq_refl).
  destruct (Hh x e1 t1 eq_refl) as [->|Hl]; [cbn; by rewrite app_nil_r|].
  destruct (result (handler x e1)) as [b|y|]; try done.
  destruct Hl as [c' Hc']. exists c'. by rewrite last_app, Hc'.
Qed.

Lemma read_all_raises_last files e : raises_last (read_all P files e).
Proof.
  revert e. induction files as [|f files IH]; intros e; cbn [read_all]; [done|].
  unfold read_bytes.
  apply raises_last_bind; [apply raises_last_perform|]. intros photo e1 t1 _.
  apply raises_last_bind; [apply IH|]. intros. apply raises_last_ret.
Qed.

Lemma send_single_raises_last chat_id caption reply_to parse_mode delete_id photo e :
  raises_last (_send_single_photo_with_caption P chat_id caption reply_to parse_mode
                                               delete_id photo e).
Proof.
  unfold raises_last, _send_single_photo_with_caption, resend_photo_without_caption,
    send_photo, delete_message, try_except, bind, perform, ret, raise, result, trace.
  repeat (case_match; simplify_eq); cbn in *; simplify_eq; try done; by eexists.
Qed.

Lemma send_group_raises_last chat_id caption reply_to parse_mode delete_id files e :
  raises_last (_send_photo_group_with_caption P chat_id caption reply_to parse_mode
                                              delete_id files e).
Proof.
  unfold _send_photo_group_with_caption, resend_group_without_caption,
    send_media_group, delete_message.
  apply raises_last_bind; [apply read_all_raises_last|]. intros photos e1 t1 _.
  assert (Hsend : forall media e0,
    raises_last
      ((sent_messages <- perform (SendMediaGroup chat_id media reply_to)
                                 (bot_send_media_group P chat_id media reply_to) ;;
        perform (DeleteMessage chat_id delete_id)
                (bot_delete_message P chat_id delete_id) ;;;
        ret sent_messages) e0)).
  { intros media e0.
    apply raises_last_bind; [apply raises_last_perform|]. intros.
    apply raises_last_bind; [apply raises_last_perform|]. intros.
    apply raises_last_ret. }
  apply raises_last_try_except; [apply Hsend| |].
  - intros x e2 t2 _. destruct (caption_too_long x); [right|by left].
    apply raises_last_bind; [apply read_all_raises_last|]. intros. apply Hsend.
  - intros x e2 t2 _. destruct (caption_too_long x); [|done].
    pose proof (resend_group_shape P chat_id reply_to delete_id files e2) as Hshape.
    unfold preview_shape, resend_group_without_caption, send_media_group,
      delete_message in Hshape.
    intros Hstuck. by rewrite Hstuck in Hshape.
Qed.

(** X18. The two preview helpers pass errors on unchanged.  When
    [_send_single_photo_with_caption] or [_send_photo_group_with_caption]
    raises, the error is the one raised by the last call it made: the text
    the loop of [_send_imagine_result] then inspects is the text of that
    call's error. *)
Theorem preview_errors_pass_unchanged chat_id caption reply_to parse_mode delete_id
        photo files e :
  raises_last (_send_single_photo_with_caption P chat_id caption reply_to parse_mode
                                               delete_id photo e) /\
  raises_last (_send_photo_group_with_caption P chat_id caption reply_to parse_mode
                                              delete_id files e).
Proof. split; [apply send_single_raises_last | apply send_group_raises_last]. Qed.

(** *** What the result of the pipeline says *)





Section Outcome.
Variables (chat_id : Z) (files : list Path)
          (caption_markdown caption_html : string)
          (reply_to : option Z) (initial_message trigger_message : option Message).

Local Abbreviation preview :=
  (send_preview P chat_id files caption_markdown caption_html reply_to initial_message).
Local Abbreviation loop :=
  (try_parse_modes P chat_id files caption_markdown caption_html
                   reply_to initial_message trigger_message).


End Outcome.


Lemma preview_without_placeholder chat_id files cm ch reply_to pm pmid :
  emits (fun c => negb (is_preview_effect c))
        (send_preview P chat_id files cm ch reply_to None pm pmid).
Proof.
  unfold send_preview, message_id_of, read_bytes.
  destruct files as [|f [|g fs]];
    repeat first [ apply emits_bind_raise
                 | apply emits_perform; reflexivity
                 | apply emits_bind; [|intros] ].
Qed.

Lemma originals_no_preview_effect c :
  is_originals_call c = true -> negb (is_preview_effect c) = true.
Proof. destruct c; cbn; try done. by intros ->. Qed.

(** X20. Without a placeholder message ([initial_message] is [None], the
    default), [_send_imagine_result] never sends a preview and deletes
    nothing: every round of the loop fails before its send, on reading
    [initial_message.message_id]. *)
Theorem no_placeholder_no_preview chat_id image_urls params reply_to
        final_answer trigger_message e :
  none is_preview_effect
       (trace (_send_imagine_result P chat_id image_urls (Some params) reply_to None
                                    final_answer trigger_message e)).
Proof.
  assert (Hflip : forall t, only (fun c => negb (is_preview_effect c)) t ->
                            none is_preview_effect t).
  { intros t Ht. eapply Forall_impl; [exact Ht|]. intros ev. apply negb_true_iff. }
  apply Hflip.
  destruct (send_imagine_result_unfold P chat_id image_urls params reply_to None
              final_answer trigger_message e) as (rs & e1 & t1 & Hds & ->).
  pose proof (downloads_only P _ _ _ _ _ Hds) as Hdl.
  assert (Hdl' : only (fun c => negb (is_preview_effect c)) t1).
  { eapply only_weaken; [|exact Hdl]. by intros []. }
  destruct (omap id rs) as [|f fs] eqn:Hfiles; [apply Hdl'|].
  cbn zeta. rewrite trace_mk. apply Forall_app; split; [apply Hdl'|].
  apply (loop_only chat_id (f :: fs) _ _ reply_to None trigger_message
           (fun c => negb (is_preview_effect c))); [done| |].
  - intros pm pmid. apply preview_without_placeholder.
  - intros pmid e2.
    destruct (originals_run P chat_id (f :: fs) trigger_message pmid e2 ltac:(done))
      as (e3 & t3 & -> & Ht).
    eapply only_weaken; [apply originals_no_preview_effect | exact Ht].
Qed.

(** The pipeline for any [params], [None] included. *)
Lemma send_imagine_result_any chat_id image_urls params reply_to initial_message
      final_answer trigger_message e :
  let o := _send_imagine_result P chat_id image_urls params reply_to initial_message
                                final_answer trigger_message e in
  only (addressed chat_id reply_to (message_id <$> initial_message)) (trace o) /\
  match captions_of final_answer params with
  | inr chosen =>
      (exists b, result o = Ok b) /\
      Forall (fun mc => mc.2 = if String.eqb mc.1 "HTML" then chosen.2 else chosen.1)
             (captions (trace o))
  | inl err =>
      result o = (if Py.truthy_list (written (trace o)) then Raise err else Ok false) /\
      only is_download_call (trace o)
  end.
Proof.
  cbn zeta.
  destruct (send_imagine_result_unfold_any P chat_id image_urls params reply_to
              initial_message final_answer trigger_message e)
    as (rs & e1 & t1 & Hds & ->).
  pose proof (downloads_only P _ _ _ _ _ Hds) as Hdl.
  pose proof (downloads_written _ _ _ _ _ Hds) as Hw.
  assert (Haddr : only (addressed chat_id reply_to (message_id <$> initial_message)) t1).
  { eapply only_weaken; [|exact Hdl]. by intros []. }
  assert (Hcap : forall cm ch, only (caption_paired cm ch) t1).
  { intros cm ch. eapply only_weaken; [|exact Hdl]. by intros []. }
  destruct (omap id rs) as [|f fs] eqn:Hfiles.
  { rewrite result_mk, trace_mk, Hw. split; [exact Haddr|].
    destruct (captions_of final_answer params) as [err|chosen]; [by split|].
    split; [by exists false|]. apply caption_paired_captions, Hcap. }
  destruct (captions_of final_answer params) as [err|[cm ch]].
  { rewrite result_mk, trace_mk, Hw. by repeat split. }
  cbn zeta. rewrite result_mk, trace_mk. cbn [fst snd]. split; [|split].
  - apply Forall_app; split; [exact Haddr|].
    apply loop_only; [done| |].
    + intros pm pmid. apply send_preview_addressed.
    + apply originals_only. intros target. by apply send_documents_addressed.
  - apply (loop_returns P chat_id (f :: fs) cm ch reply_to initial_message trigger_message
             PARSE_MODES None ltac:(done) e1).
  - apply caption_paired_captions, Forall_app; split; [apply Hcap|].
    apply loop_only; [done| |].
    + intros pm pmid. apply send_preview_caption_paired.
    + apply originals_only. intros target. by apply send_documents_caption_paired.
Qed.

(** X21. [_handle_answer_parts_image_generation] returns nothing, and
    raises in one case only: the key ["params"] of [extras] holds [None],
    [final_answer] is empty and some file was downloaded; the
    [AttributeError] of [params.get] then leaves [_send_imagine_result]
    and the handler after the downloads, before anything is sent.  In
    every case it addresses the chat, replies to the trigger message and
    has the initial message as the placeholder to delete; a non-empty
    [final_answer] is the caption of every captioned send; and with no
    ["all_image_urls"] in [extras], or an empty list, it makes no call. *)
Theorem handle_answer_parts_delivers chat trigger_message initial_message final_answer
        extras e :
  let o := _handle_answer_parts_image_generation P chat trigger_message initial_message
                                                 final_answer extras e in
  let escapes := params_is_none extras && negb (Py.truthy_str final_answer)
                 && Py.truthy_list (written (trace o)) in
  result o = (if escapes then Raise "'NoneType' object has no attribute 'get'"
              else Ok tt) /\
  (if escapes then only is_download_call (trace o) else True) /\
  only (addressed (chat_id chat) (Some (message_id trigger_message))
                  (Some (message_id initial_message))) (trace o) /\
  match final_answer with
  | String _ _ => Forall (fun mc => mc.2 = final_answer) (captions (trace o))
  | EmptyString => True
  end /\
  match all_image_urls extras with
  | Some (_ :: _) => True
  | _ => trace o = [] /\ final o = e
  end.
Proof.
  cbn zeta. unfold _handle_answer_parts_image_generation. rewrite run_bind.
  pose proof (send_imagine_result_any (chat_id chat)
                (default [] (all_image_urls extras)) (get_params extras)
                (Some (message_id trigger_message)) (Some initial_message)
                (Some final_answer) (Some trigger_message) e) as [Haddr Hany].
  cbn [fmap option_fmap option_map] in Haddr.
  assert (Hnone : match all_image_urls extras with
                  | Some (_ :: _) => True
                  | _ => _send_imagine_result P (chat_id chat)
                           (default [] (all_image_urls extras)) (get_params extras)
                           (Some (message_id trigger_message)) (Some initial_message)
                           (Some final_answer) (Some trigger_message) e = (Ok false, e, [])
                  end).
  { by destruct (all_image_urls extras) as [[|u us]|]. }
  assert (Hcaptions :
    captions_of (Some final_answer) (get_params extras) =
    if params_is_none extras && negb (Py.truthy_str final_answer)
    then inl "'NoneType' object has no attribute 'get'"
    else inr (match get_params extras with
              | Some params => chosen_captions (Some final_answer) params
              | None => (final_answer, final_answer)
              end)).
  { unfold captions_of, get_params, params_is_none.
    destruct (extras_params extras) as [[params|]|]; cbn; try done.
    by destruct (Py.truthy_str final_answer). }
  rewrite Hcaptions in Hany. clear Hcaptions.
  destruct (_send_imagine_result P (chat_id chat) _ _ _ _ _ _ e) as [[r e1] t1].
  cbn [result final trace fst snd] in *.
  assert (Hlast : match all_image_urls extras with
                  | Some (_ :: _) => True
                  | _ => r = Ok false /\ t1 = [] /\ e1 = e
                  end).
  { destruct (all_image_urls extras) as [[|u us]|]; [|done|]; by simplify_eq. }
  clear Hnone.
  destruct (params_is_none extras && negb (Py.truthy_str final_answer)) eqn:Hesc;
    cbn [andb].
  - destruct Hany as [-> Hdl].
    apply andb_prop in Hesc as [_ Hempty].
    assert (final_answer = "") as -> by (by destruct final_answer).
    destruct (Py.truthy_list (written t1)) eqn:Hfiles; cbn [result final trace fst snd].
    + rewrite Hfiles. repeat split; try done.
      destruct (all_image_urls extras) as [[|u us]|]; try done;
        destruct Hlast as (? & ? & ?); by simplify_eq.
    + rewrite app_nil_r, Hfiles. repeat split; try done;
        destruct (all_image_urls extras) as [[|u us]|]; try done;
        destruct Hlast as (? & ? & ?); by simplify_eq.
  - destruct Hany as [[b ->] Hcap]. cbn [result final trace fst snd].
    rewrite app_nil_r. repeat split; try done.
    + destruct final_answer as [|a s]; [done|].
      assert (Hchosen : match get_params extras with
                        | Some params => chosen_captions (Some (String a s)) params
                        | None => (String a s, String a s)
                        end = (String a s, String a s))
        by (by destruct (get_params extras)).
      rewrite Hchosen in Hcap.
      eapply Forall_impl; [exact Hcap|]. intros [mode cap]. cbn.
      intros ->. by destruct (String.eqb mode "HTML").
    + destruct (all_image_urls extras) as [[|u us]|]; try done;
        destruct Hlast as (? & ? & ?); by simplify_eq.
Qed.

End DeliveryProperties.

(* ================================================================== *)
(** ** Further runs in scripted worlds *)

(** The generation service is down and the reaction is refused: the
    prompt is still handed over as typed, once, and the error notice
    follows. *)
Example generation_down_run :
  let P := Worlds.generation_down Scenario.calm in
  let o := imagine_command P (Scenario.update_of Scenario.command) Worlds.fox_args
                           Scenario.start in
  result o = Ok tt /\
  trace o =
    [(CacheAdd Scenario.command, None);
     (DownloadMediaGroup Scenario.command, None);
     (SetMessageReaction 1 40, Some "Bad Request: REACTION_INVALID");
     (InvokeModelStreaming "imagine_bot" "a red fox" "7" [] ∅,
      Some "503 Service Unavailable");
     (SendMessage 1 ERROR_TEXT "HTML" 40, None)].
Proof. vm_compute. split; reflexivity. Qed.

(** Every preview is refused: three rounds, one per parse mode, no
    document, and the pipeline returns [False]. *)
Example previews_refused_run :
  let P := Worlds.previews_refused Scenario.calm in
  let o := _send_imagine_result P 1 [Runs.fox_url] (Some ∅) (Some 40%Z)
                                (Some Scenario.placeholder) (Some "<b>a red fox</b>")
                                (Some Scenario.command) Scenario.start in
  let refused := Some "Bad Request: can't parse entities" in
  result o = Ok false /\
  drop 3 (trace o) =
    [(ReadBytes Runs.fox_file, None);
     (SendPhoto 1 Runs.fox_bytes (Some "<b>a red fox</b>") (Some 40%Z) (Some "HTML"),
      refused);
     (ReadBytes Runs.fox_file, None);
     (SendPhoto 1 Runs.fox_bytes (Some "<b>a red fox</b>") (Some 40%Z) (Some "MarkdownV2"),
      refused);
     (ReadBytes Runs.fox_file, None);
     (SendPhoto 1 Runs.fox_bytes (Some "<b>a red fox</b>") (Some 40%Z) (Some "None"),
      refused)].
Proof. vm_compute. split; reflexivity. Qed.

(** Without a placeholder nothing is sent, although every call works. *)
Example no_placeholder_run :
  let P := Scenario.platform Scenario.calm in
  let o := _send_imagine_result P 1 [Runs.fox_url] (Some ∅) (Some 40%Z) None
                                (Some "<b>a red fox</b>") (Some Scenario.command)
                                Scenario.start in
  result o = Ok false /\
  drop 3 (calls (trace o)) =
    [ReadBytes Runs.fox_file; ReadBytes Runs.fox_file; ReadBytes Runs.fox_file].
Proof. vm_compute. split; reflexivity. Qed.

(** The key ["params"] holds [None] and the final answer is empty: the
    image is downloaded, then [params.get] raises and nothing is sent. *)
Example params_none_run :
  let P := Scenario.platform Scenario.calm in
  let o := _handle_answer_parts_image_generation
             P Scenario.user_chat Scenario.command Scenario.placeholder ""
             (mkExtras (Some [Runs.fox_url]) (Some None)) Scenario.start in
  result o = Raise "'NoneType' object has no attribute 'get'" /\
  calls (trace o) =
    [Mkdir "/data/generated_images";
     HttpGet Runs.fox_url;
     WriteBytes Runs.fox_file "image bytes of https://cdn.example.com/out/fox.png"].
Proof. vm_compute. split; reflexivity. Qed.

(** The same [extras] with a final answer: [params] is not looked at. *)
Example params_none_with_answer_run :
  let P := Scenario.platform Scenario.calm in
  let o := _handle_answer_parts_image_generation
             P Scenario.user_chat Scenario.command Scenario.placeholder "<b>a red fox</b>"
             (mkExtras (Some [Runs.fox_url]) (Some None)) Scenario.start in
  result o = Ok tt /\ trace o = trace Runs.calm_run.
Proof. vm_compute. split; reflexivity. Qed.

(** The documents expected for two files. *)
Example expected_documents_of_two :
  expected_documents ["/data/generated_images/fox.png"; "/data/generated_images/owl.webp"]
  = [("fox.png", Some "📎 Original files (2 images, uncompressed)");
     ("owl.webp", None)].
Proof. vm_compute. reflexivity. Qed.

Lemma imagine_command_returns_early_witness :
  imagine_command (Scenario.platform Scenario.calm)
                  (mkUpdate true (Some Scenario.command) None (Some Scenario.command)
                            (Some Scenario.user_chat))
                  Worlds.fox_args Scenario.start
  = (Ok tt, Scenario.start, []).
Proof. apply imagine_command_returns_early. left. reflexivity. Defined.

Lemma nonempty_prompt_passed_as_typed_witness :
  let P := Worlds.generation_down Scenario.attachments in
  let o := imagine_command P (Scenario.update_of Scenario.command_with_photo)
                           Worlds.fox_args Scenario.start in
  let t1 := [(CacheAdd Scenario.command_with_photo, None);
             (DownloadMediaGroup Scenario.command_with_photo, None)] in
  prompts (trace o) = ["a red fox"] /\
  exists reacted username rest,
    trace o = t1 ++ (SetMessageReaction 1 42, reacted) :: rest /\
    head (calls rest) =
      Some (InvokeModelStreaming (Py.rstrip "@" username) "a red fox" "7"
                                 ["/data/in/cat.jpg"]
                                 {[ "photos" := ["/data/in/cat.jpg"] ]}).
Proof.
  intros P o t1.
  apply (nonempty_prompt_passed_as_typed P
           (Scenario.update_of Scenario.command_with_photo) Worlds.fox_args
           Scenario.start Scenario.command_with_photo Scenario.user_chat
           {[ "photos" := ["/data/in/cat.jpg"] ]} true ["/data/in/cat.jpg"]
           Scenario.start t1);
    vm_compute; first [reflexivity | discriminate].
Defined.

Lemma download_named_stays_in_temp_dir_witness :
  let P := Scenario.platform Scenario.calm in
  exists name,
    Runs.fox_file = path_join (temp_dir P) name /\
    name <> "" /\ name <> "." /\ Py.contains "/" name = false.
Proof.
  intros P.
  apply (download_named_stays_in_temp_dir P Runs.fox_url Scenario.start Runs.fox_file);
    vm_compute; reflexivity.
Defined.
